(** * Shared-memory hash table (RWLockOptimizedStatusRscManager)

    A shallow embedding of the open-addressed, double-hashed table of
    [rwlock_optimized_status.cpp] / [rwlock_optimized_status.h]: the hash
    primitives, the probe engine ([findEntry], [findEmptySlot]), the
    rehash-in-place pass and the public table operations.  The process-shared
    lock only serialises the operations; every operation below is the body
    executed while the lock is held, as a function from the shared segment to
    a return code and the new segment. *)

From Stdlib Require Import ZArith List Lia Bool Znumtheory Zpow_facts Sorted.
From Stdlib.Strings Require Import Byte.

#[local] Set Warnings "-deprecated".
Import ListNotations.
Open Scope Z_scope.

(** ** Constants ([shared_constants.h], [rwlock_optimized_status.h]) *)

Definition OK : Z := 0.
Definition NOT_FOUND : Z := -1.
Definition NO_SPACE_ERR : Z := -2.
Definition DUPLICATE_KEY : Z := -3.

Definition MAX_VALUE_LEN : Z := 256.

Definition RWLOCK_HASH_TABLE_SIZE : Z := 2048.
(* static_cast<int>(RWLOCK_HASH_TABLE_SIZE * RWLOCK_MAX_LOAD_FACTOR), 2048 * 0.75 *)
Definition RWLOCK_MAX_ENTRIES : Z := 1536.

(** ** Data model *)

Inductive RWLockEntryState : Set :=
| RWLOCK_EMPTY
| RWLOCK_OCCUPIED
| RWLOCK_DELETED.

Definition state_eqb (a b : RWLockEntryState) : bool :=
  match a, b with
  | RWLOCK_EMPTY, RWLOCK_EMPTY => true
  | RWLOCK_OCCUPIED, RWLOCK_OCCUPIED => true
  | RWLOCK_DELETED, RWLOCK_DELETED => true
  | _, _ => false
  end.

(* struct RWLockHashEntry: [value] is the char[MAX_VALUE_LEN] array. *)
Record RWLockHashEntry : Set := mkEntry {
  key : Z;
  value : list byte;
  state : RWLockEntryState;
  hash_value : Z
}.

(* struct RWLockOptimizedSharedData, without the lock objects and the
   [initialized] flag of the bootstrap handshake.  The two int counters are
   kept in Z: in every reachable state they lie between 0 and the table size
   (reachable_count_bounds), far from the limits of int. *)
Record RWLockOptimizedSharedData : Set := mkShared {
  current_count : Z;
  deleted_count : Z;
  hash_seed : Z;
  hash_table : list RWLockHashEntry
}.

(** ** 32-bit unsigned arithmetic *)

Definition u32 (x : Z) : Z := x mod 2 ^ 32.

(** ** Hash primitives *)

(* Keys are C ints; static_cast<uint32_t>(key) is [u32 key].  The functions
   are defined on all of Z, so every statement below holds in particular for
   32-bit keys and seeds. *)
Definition hash_with (seed k0 : Z) : Z :=
  let k := u32 k0 in
  let k := Z.lxor k seed in
  let k := Z.lxor k (Z.shiftr k 16) in
  let k := u32 (k * 0x85ebca6b) in
  let k := Z.lxor k (Z.shiftr k 13) in
  let k := u32 (k * 0xc2b2ae35) in
  let k := Z.lxor k (Z.shiftr k 16) in
  Z.land k (RWLOCK_HASH_TABLE_SIZE - 1).

Definition hash2_with (seed k0 : Z) : Z :=
  let k := u32 k0 in
  let k := Z.lxor k (u32 (seed + 0x9e3779b9)) in
  let k := Z.lxor k (Z.shiftr k 16) in
  let k := u32 (k * 0x21f0aaad) in
  let k := Z.lxor k (Z.shiftr k 15) in
  let k := u32 (k * 0x735a2d97) in
  let k := Z.lxor k (Z.shiftr k 15) in
  Z.lor (Z.land k (RWLOCK_HASH_TABLE_SIZE - 1)) 1.

Definition hash (sd : RWLockOptimizedSharedData) (k : Z) : Z :=
  hash_with (hash_seed sd) k.

Definition hash2 (sd : RWLockOptimizedSharedData) (k : Z) : Z :=
  hash2_with (hash_seed sd) k.

(* (current_pos + step * hash2_val) & (SIZE - 1): [step] is converted to
   uint32_t, product and sum wrap at 2^32. *)
Definition getNextProbe (current_pos step hash2_val : Z) : Z :=
  Z.land (u32 (u32 current_pos + u32 (u32 step * hash2_val)))
         (RWLOCK_HASH_TABLE_SIZE - 1).

(** The position held by [pos] at the top of loop iteration [s] of
    [findEntry] and [findEmptySlot]: [pos = hash_val] before the loop and
    [pos = getNextProbe(pos, step + 1, hash2_val)] at the end of iteration
    [step]. *)
Fixpoint probe_pos (hash_val hash2_val : Z) (s : nat) : Z :=
  match s with
  | O => hash_val
  | S s' => getNextProbe (probe_pos hash_val hash2_val s') (Z.of_nat s' + 1) hash2_val
  end.

(** ** C strings and the value array *)

(* std::string(const char* ): the bytes before the first NUL. *)
Fixpoint c_string (buf : list byte) : list byte :=
  match buf with
  | [] => []
  | c :: rest => if Byte.eqb c x00 then [] else c :: c_string rest
  end.

(* strncpy(dst, src.c_str(), n): the [n] bytes written to [dst]; copying
   stops at the first NUL of [src] (or at the terminator that c_str() appends)
   and the remainder is filled with NULs. *)
Fixpoint strncpy (src : list byte) (n : nat) {struct n} : list byte :=
  match n with
  | O => []
  | S n' =>
      match src with
      | [] => repeat x00 n
      | c :: rest => if Byte.eqb c x00 then repeat x00 n else c :: strncpy rest n'
      end
  end.

(* strncpy(entry.value, v.c_str(), MAX_VALUE_LEN - 1);
   entry.value[MAX_VALUE_LEN - 1] = 0;  the whole array afterwards. *)
Definition store_value (v : list byte) : list byte :=
  strncpy v 255 ++ [x00].

(** ** The slot array *)

Definition empty_entry : RWLockHashEntry :=
  mkEntry 0 (repeat x00 256) RWLOCK_EMPTY 0.

Fixpoint upd {A : Type} (l : list A) (i : nat) (x : A) : list A :=
  match l, i with
  | [], _ => []
  | _ :: t, O => x :: t
  | h :: t, S i' => h :: upd t i' x
  end.

(* shared_data_->hash_table[pos] *)
Definition entry_at (sd : RWLockOptimizedSharedData) (pos : Z) : RWLockHashEntry :=
  nth (Z.to_nat pos) (hash_table sd) empty_entry.

Definition set_entry (sd : RWLockOptimizedSharedData) (pos : Z) (e : RWLockHashEntry)
  : list RWLockHashEntry :=
  upd (hash_table sd) (Z.to_nat pos) e.

Definition is_state (st : RWLockEntryState) (e : RWLockHashEntry) : bool :=
  state_eqb (state e) st.

Definition key_matches (k : Z) (e : RWLockHashEntry) : bool :=
  is_state RWLOCK_OCCUPIED e && (key e =? k).

(** ** Probe engine *)

(* The for loop of findEntry; [n] is the number of iterations left. *)
Fixpoint findEntry_loop (sd : RWLockOptimizedSharedData) (k hash2_val : Z)
    (n : nat) (step pos : Z) : Z :=
  match n with
  | O => -1
  | S n' =>
      let entry := entry_at sd pos in
      if is_state RWLOCK_EMPTY entry then -1
      else if key_matches k entry then pos
      else findEntry_loop sd k hash2_val n' (step + 1)
             (getNextProbe pos (step + 1) hash2_val)
  end.

Definition findEntry (sd : RWLockOptimizedSharedData) (k hash_val : Z) : Z :=
  findEntry_loop sd k (hash2 sd k) 2048 0 hash_val.

(* The for loop of findEmptySlot, with its local [first_deleted]. *)
Fixpoint findEmptySlot_loop (sd : RWLockOptimizedSharedData) (k hash2_val : Z)
    (n : nat) (step pos first_deleted : Z) : Z :=
  match n with
  | O => first_deleted
  | S n' =>
      let entry := entry_at sd pos in
      if is_state RWLOCK_EMPTY entry then
        (if negb (first_deleted =? -1) then first_deleted else pos)
      else
        let first_deleted' :=
          if is_state RWLOCK_DELETED entry && (first_deleted =? -1)
          then pos else first_deleted in
        if key_matches k entry then -1
        else findEmptySlot_loop sd k hash2_val n' (step + 1)
               (getNextProbe pos (step + 1) hash2_val) first_deleted'
  end.

Definition findEmptySlot (sd : RWLockOptimizedSharedData) (k hash_val : Z) : Z :=
  findEmptySlot_loop sd k (hash2 sd k) 2048 0 hash_val (-1).

(** ** Rehash in place *)

Definition needRehash (sd : RWLockOptimizedSharedData) : bool :=
  RWLOCK_MAX_ENTRIES <? current_count sd + deleted_count sd.

(* std::map<int, std::string> as its key-ordered sequence of pairs;
   [map_assign m k v] is [m[k] = v]. *)
Definition cxx_map : Set := list (Z * list byte).

Fixpoint map_assign (m : cxx_map) (k : Z) (v : list byte) : cxx_map :=
  match m with
  | [] => [(k, v)]
  | (k', v') :: rest =>
      if k <? k' then (k, v) :: m
      else if k =? k' then (k, v) :: rest
      else (k', v') :: map_assign rest k v
  end.

(* for i in 0 .. SIZE-1: if occupied, temp_data[key] = value *)
Definition snapshot (tab : list RWLockHashEntry) : cxx_map :=
  fold_left
    (fun m e => if is_state RWLOCK_OCCUPIED e
                then map_assign m (key e) (c_string (value e)) else m)
    tab [].

Definition set_state (st : RWLockEntryState) (e : RWLockHashEntry) : RWLockHashEntry :=
  mkEntry (key e) (value e) st (hash_value e).

Definition set_value (v : list byte) (e : RWLockHashEntry) : RWLockHashEntry :=
  mkEntry (key e) (store_value v) (state e) (hash_value e).

(* for i in 0 .. SIZE-1: hash_table[i].state = RWLOCK_EMPTY *)
Definition clear_states (tab : list RWLockHashEntry) : list RWLockHashEntry :=
  map (set_state RWLOCK_EMPTY) tab.

(* entry.key = k; strncpy(entry.value, ...); entry.state = OCCUPIED;
   entry.hash_value = hash_val *)
Definition new_entry (k : Z) (v : list byte) (hash_val : Z) : RWLockHashEntry :=
  mkEntry k (store_value v) RWLOCK_OCCUPIED hash_val.

(* The re-insertion loop of rehashIfNeeded over temp_data. *)
Fixpoint reinsert (sd : RWLockOptimizedSharedData) (temp_data : cxx_map)
  : Z * RWLockOptimizedSharedData :=
  match temp_data with
  | [] => (OK, sd)
  | (k, v) :: rest =>
      let hash_val := hash sd k in
      let pos := findEmptySlot sd k hash_val in
      if pos =? -1 then (NO_SPACE_ERR, sd)
      else
        reinsert
          (mkShared (current_count sd + 1) (deleted_count sd) (hash_seed sd)
                    (set_entry sd pos (new_entry k v hash_val)))
          rest
  end.

Definition rebuild (sd : RWLockOptimizedSharedData) : Z * RWLockOptimizedSharedData :=
  let temp_data := snapshot (hash_table sd) in
  reinsert (mkShared 0 0 (hash_seed sd) (clear_states (hash_table sd))) temp_data.

Definition rehashIfNeeded (sd : RWLockOptimizedSharedData)
  : Z * RWLockOptimizedSharedData :=
  if negb (needRehash sd) then (OK, sd) else rebuild sd.

(** ** Public operations *)

Definition too_long (v : list byte) : bool :=
  MAX_VALUE_LEN <=? Z.of_nat (length v).

(* The tail shared by addRsc and upsertRsc once a slot has been chosen. *)
Definition insert_at (sd : RWLockOptimizedSharedData) (pos k : Z) (v : list byte)
    (hash_val : Z) : RWLockOptimizedSharedData :=
  let entry := entry_at sd pos in
  let deleted :=
    if is_state RWLOCK_DELETED entry then deleted_count sd - 1 else deleted_count sd in
  mkShared (current_count sd + 1) deleted (hash_seed sd)
           (set_entry sd pos (new_entry k v hash_val)).

Definition addRsc (sd : RWLockOptimizedSharedData) (k : Z) (v : list byte)
  : Z * RWLockOptimizedSharedData :=
  if too_long v then (NO_SPACE_ERR, sd)
  else
    let (rc, sd1) := rehashIfNeeded sd in
    if negb (rc =? OK) then (NO_SPACE_ERR, sd1)
    else
      let hash_val := hash sd1 k in
      let pos := findEmptySlot sd1 k hash_val in
      if pos =? -1 then
        ((if RWLOCK_MAX_ENTRIES <=? current_count sd1
          then NO_SPACE_ERR else DUPLICATE_KEY), sd1)
      else (OK, insert_at sd1 pos k v hash_val).

Definition overwrite_at (sd : RWLockOptimizedSharedData) (pos : Z) (v : list byte)
  : RWLockOptimizedSharedData :=
  mkShared (current_count sd) (deleted_count sd) (hash_seed sd)
           (set_entry sd pos (set_value v (entry_at sd pos))).

Definition updateRsc (sd : RWLockOptimizedSharedData) (k : Z) (v : list byte)
  : Z * RWLockOptimizedSharedData :=
  if too_long v then (NO_SPACE_ERR, sd)
  else
    let hash_val := hash sd k in
    let pos := findEntry sd k hash_val in
    if pos =? -1 then (NOT_FOUND, sd)
    else (OK, overwrite_at sd pos v).

Definition upsertRsc (sd : RWLockOptimizedSharedData) (k : Z) (v : list byte)
  : Z * RWLockOptimizedSharedData :=
  if too_long v then (NO_SPACE_ERR, sd)
  else
    let hash_val := hash sd k in
    let pos := findEntry sd k hash_val in
    if negb (pos =? -1) then (OK, overwrite_at sd pos v)
    else
      let (rc, sd1) := rehashIfNeeded sd in
      if negb (rc =? OK) then (NO_SPACE_ERR, sd1)
      else
        let pos := findEmptySlot sd1 k hash_val in
        if pos =? -1 then (NO_SPACE_ERR, sd1)
        else (OK, insert_at sd1 pos k v hash_val).

Definition getRsc (sd : RWLockOptimizedSharedData) (k : Z) : list byte :=
  let hash_val := hash sd k in
  let pos := findEntry sd k hash_val in
  if pos =? -1 then [] else c_string (value (entry_at sd pos)).

Definition removeRsc (sd : RWLockOptimizedSharedData) (k : Z)
  : Z * RWLockOptimizedSharedData :=
  let hash_val := hash sd k in
  let pos := findEntry sd k hash_val in
  if pos =? -1 then (NOT_FOUND, sd)
  else
    (OK, mkShared (current_count sd - 1) (deleted_count sd + 1) (hash_seed sd)
                  (set_entry sd pos (set_state RWLOCK_DELETED (entry_at sd pos)))).

Definition isContain (sd : RWLockOptimizedSharedData) (k : Z) : bool :=
  negb (findEntry sd k (hash sd k) =? -1).

(* One iteration of the loop of batchUpdateRsc: the segment and the running
   success_count. *)
Definition batch_step (acc : RWLockOptimizedSharedData * Z) (pair : Z * list byte)
  : RWLockOptimizedSharedData * Z :=
  let (sd, success_count) := acc in
  if too_long (snd pair) then (sd, success_count)
  else
    let hash_val := hash sd (fst pair) in
    let pos := findEntry sd (fst pair) hash_val in
    if negb (pos =? -1) then (overwrite_at sd pos (snd pair), success_count + 1)
    else (sd, success_count).

Definition batchUpdateRsc (sd : RWLockOptimizedSharedData) (updated_map : cxx_map)
  : Z * RWLockOptimizedSharedData :=
  let (sd', success_count) := fold_left batch_step updated_map (sd, 0) in
  (success_count, sd').

Definition batchGetRsc (sd : RWLockOptimizedSharedData) : Z * cxx_map :=
  let fetched_map := snapshot (hash_table sd) in
  (Z.of_nat (length fetched_map), fetched_map).

Definition rscNum (sd : RWLockOptimizedSharedData) : Z := current_count sd.

Definition clearRsc (sd : RWLockOptimizedSharedData) : Z * RWLockOptimizedSharedData :=
  (OK, mkShared 0 0 (hash_seed sd) (clear_states (hash_table sd))).

(** ** Segment creation and cleanup *)

(* The creator path of the constructor: counters zeroed, the seed drawn from
   std::random_device, every slot Empty with key 0, value[0] = 0 and
   hash_value 0 in the zero-filled segment that ftruncate produced. *)
Definition init (seed : Z) : RWLockOptimizedSharedData :=
  mkShared 0 0 seed (repeat empty_entry 2048).

(* What the process sees of the operating system: whether the name
   /rwlock_optimized_status_memory is linked, a failure the system reports
   for shm_unlink on it (EACCES and the like), the thread's errno, and the
   mapped segment. *)
Record World : Set := mkWorld {
  shm_linked : bool;
  shm_fault : option Z;
  errno : Z;
  shared_data_ : RWLockOptimizedSharedData
}.

Definition ENOENT : Z := 2.

Definition shm_unlink (w : World) : Z * World :=
  match shm_fault w with
  | Some e => (-1, mkWorld (shm_linked w) (shm_fault w) e (shared_data_ w))
  | None =>
      if shm_linked w
      then (0, mkWorld false None (errno w) (shared_data_ w))
      else (-1, mkWorld false None ENOENT (shared_data_ w))
  end.

Definition cleanup (w : World) : Z * World :=
  let (r, w1) := shm_unlink w in
  if r =? -1 then
    if negb (errno w1 =? ENOENT) then (-1, w1) else (OK, w1)
  else (OK, w1).

(** ** Operation sequences *)

Inductive op : Set :=
| Add (k : Z) (v : list byte)
| Update (k : Z) (v : list byte)
| Upsert (k : Z) (v : list byte)
| Remove (k : Z)
| Clear
| BatchUpdate (m : cxx_map).

Definition exec (sd : RWLockOptimizedSharedData) (o : op)
  : Z * RWLockOptimizedSharedData :=
  match o with
  | Add k v => addRsc sd k v
  | Update k v => updateRsc sd k v
  | Upsert k v => upsertRsc sd k v
  | Remove k => removeRsc sd k
  | Clear => clearRsc sd
  | BatchUpdate m => batchUpdateRsc sd m
  end.

Definition run (sd : RWLockOptimizedSharedData) (ops : list op)
  : RWLockOptimizedSharedData :=
  fold_left (fun s o => snd (exec s o)) ops sd.

(* Return codes of a run, in order. *)
Fixpoint run_codes (sd : RWLockOptimizedSharedData) (ops : list op) : list Z :=
  match ops with
  | [] => []
  | o :: rest => fst (exec sd o) :: run_codes (snd (exec sd o)) rest
  end.

Definition reachable (sd : RWLockOptimizedSharedData) : Prop :=
  exists seed ops, sd = run (init seed) ops.

(** ** Notions used to state the properties *)

(* Triangular numbers: the sum of the steps 1 .. s. *)
Fixpoint tri (s : nat) : Z :=
  match s with
  | O => 0
  | S s' => tri s' + (Z.of_nat s' + 1)
  end.

(** The sequence of slot indices that the loops examine for key [k]. *)
Definition probes (seed k : Z) : list Z :=
  map (probe_pos (hash_with seed k) (hash2_with seed k)) (seq 0 2048).

Definition indices : list Z := map Z.of_nat (seq 0 2048).

(* The loop of findEntry run over an explicit sequence of positions. *)
Fixpoint scan_entry (sd : RWLockOptimizedSharedData) (k : Z) (ps : list Z) : Z :=
  match ps with
  | [] => -1
  | pos :: rest =>
      let entry := entry_at sd pos in
      if is_state RWLOCK_EMPTY entry then -1
      else if key_matches k entry then pos
      else scan_entry sd k rest
  end.

(* The loop of findEmptySlot run over an explicit sequence of positions. *)
Fixpoint scan_empty (sd : RWLockOptimizedSharedData) (k first_deleted : Z)
    (ps : list Z) : Z :=
  match ps with
  | [] => first_deleted
  | pos :: rest =>
      let entry := entry_at sd pos in
      if is_state RWLOCK_EMPTY entry then
        (if negb (first_deleted =? -1) then first_deleted else pos)
      else
        let first_deleted' :=
          if is_state RWLOCK_DELETED entry && (first_deleted =? -1)
          then pos else first_deleted in
        if key_matches k entry then -1
        else scan_empty sd k first_deleted' rest
  end.

Definition in_table (i : Z) : Prop := 0 <= i < RWLOCK_HASH_TABLE_SIZE.

Definition non_empty (sd : RWLockOptimizedSharedData) (p : Z) : Prop :=
  is_state RWLOCK_EMPTY (entry_at sd p) = false.

(* Key [k] is stored (Occupied) in slot [i]. *)
Definition occupied_by (sd : RWLockOptimizedSharedData) (k i : Z) : Prop :=
  in_table i /\ key_matches k (entry_at sd i) = true.

Definition key_occupied (sd : RWLockOptimizedSharedData) (k : Z) : Prop :=
  exists i, occupied_by sd k i.

(* The logical content: key [k] is Occupied with the C string [w]. *)
Definition holds (sd : RWLockOptimizedSharedData) (k : Z) (w : list byte) : Prop :=
  exists i, occupied_by sd k i /\ c_string (value (entry_at sd i)) = w.

(* Slot [i] lies on the probe sequence of [k] with no Empty slot before it. *)
Definition chain_ok (sd : RWLockOptimizedSharedData) (k i : Z) : Prop :=
  exists l1 l2, probes (hash_seed sd) k = l1 ++ i :: l2 /\ Forall (non_empty sd) l1.

Definition occ_count (sd : RWLockOptimizedSharedData) : nat :=
  length (filter (is_state RWLOCK_OCCUPIED) (hash_table sd)).

Definition tomb_count (sd : RWLockOptimizedSharedData) : nat :=
  length (filter (is_state RWLOCK_DELETED) (hash_table sd)).

(* Structural invariants of the segment (section 3 of the design): the array
   has SIZE slots, every Occupied slot is reached by probing for its key
   before any Empty slot, keys are unique among Occupied slots, every value
   array holds a NUL. *)
Record table_inv (sd : RWLockOptimizedSharedData) : Prop := mkInv {
  inv_len : length (hash_table sd) = 2048%nat;
  inv_chain : forall k i, occupied_by sd k i -> chain_ok sd k i;
  inv_unique : forall k i j, occupied_by sd k i -> occupied_by sd k j -> i = j;
  inv_nul : forall i, in_table i ->
            length (value (entry_at sd i)) = 256%nat /\ In x00 (value (entry_at sd i))
}.

(* An operation that may overwrite or delete key [k]. *)
Definition touches (k : Z) (o : op) : Prop :=
  match o with
  | Add _ _ => False
  | Update k' _ => k' = k
  | Upsert k' _ => k' = k
  | Remove k' => k' = k
  | Clear => True
  | BatchUpdate m => In k (map fst m)
  end.

Definition key_lt (a b : Z * list byte) : Prop := fst a < fst b.

Definition snap_step (m : cxx_map) (e : RWLockHashEntry) : cxx_map :=
  if is_state RWLOCK_OCCUPIED e then map_assign m (key e) (c_string (value e)) else m.

Definition clean_value (kv : Z * list byte) : Prop :=
  c_string (snd kv) = snd kv /\ (length (snd kv) < 256)%nat.

Definition counts_ok (sd : RWLockOptimizedSharedData) : Prop :=
  current_count sd = Z.of_nat (occ_count sd)
  /\ deleted_count sd = Z.of_nat (tomb_count sd).

(* add(0, v), add(1, v), ..., add(n-1, v) with v the empty string *)
Definition distinct_adds (n : nat) : list op :=
  map (fun i => Add (Z.of_nat i) []) (seq 0 n).

(* remove(a), ..., remove(a+n-1) *)
Definition removes (a n : nat) : list op :=
  map (fun i => Remove (Z.of_nat i)) (seq a n).

(* A run that returns the codes and the final segment in one pass. *)
Fixpoint run_log (sd : RWLockOptimizedSharedData) (ops : list op)
  : list Z * RWLockOptimizedSharedData :=
  match ops with
  | [] => ([], sd)
  | o :: rest =>
      let (rc, sd1) := exec sd o in
      let (codes, sd2) := run_log sd1 rest in
      (rc :: codes, sd2)
  end.

(* One pass over a run: every return code is OK, the final current_count is
   [n] and the final state is due for a rehash. *)
Definition run_check (sd : RWLockOptimizedSharedData) (ops : list op) (n : Z) : bool :=
  let r := run_log sd ops in
  forallb (Z.eqb OK) (fst r) && (current_count (snd r) =? n) && needRehash (snd r).

(* One pass over add(k, v) in state [sd]: k is present, deleted_count is [d]
   before, the return code is [rc] and deleted_count is [d'] afterwards. *)
Definition add_check (sd : RWLockOptimizedSharedData) (k : Z) (v : list byte)
    (d rc d' : Z) : bool :=
  let r := addRsc sd k v in
  isContain sd k && (deleted_count sd =? d) && (fst r =? rc)
  && (deleted_count (snd r) =? d').

(* Key 0 alone is left after 1537 adds and 1536 removes. *)
Definition tombstoned : RWLockOptimizedSharedData :=
  run (init 0) (distinct_adds 1537 ++ removes 1 1536).

(* add(1, "a") on a fresh segment with seed 0. *)
Definition one_key : RWLockOptimizedSharedData :=
  run (init 0) [Add 1 ["a"%byte]].

(** ** printStats *)

(* The inner for loop of printStats: the number of probes after which the
   sequence from [expected_pos] reaches [actual_pos]; [probes] keeps its
   initial value when the loop ends without a break. *)
Fixpoint probe_distance_loop (actual_pos hash2_val : Z) (n : nat)
    (step pos probes : Z) : Z :=
  match n with
  | O => probes
  | S n' =>
      if pos =? actual_pos then step + 1
      else probe_distance_loop actual_pos hash2_val n' (step + 1)
             (getNextProbe pos (step + 1) hash2_val) probes
  end.

(* The value of [probes] that printStats computes for the Occupied slot [i]. *)
Definition probe_distance (sd : RWLockOptimizedSharedData) (i : Z) : Z :=
  let expected_pos := hash_value (entry_at sd i) in
  let actual_pos := i in
  if negb (actual_pos =? expected_pos) then
    probe_distance_loop actual_pos (hash2 sd (key (entry_at sd i))) 2048 0 expected_pos 1
  else 1.

(* The integers that printStats accumulates over the slots before it prints
   the two probe-distance lines. *)
Record ProbeStats : Set := mkStats {
  total_probes : Z;
  max_probes : Z;
  occupied_slots : Z
}.

Definition stats_step (sd : RWLockOptimizedSharedData) (acc : ProbeStats) (i : Z)
  : ProbeStats :=
  if is_state RWLOCK_OCCUPIED (entry_at sd i) then
    let probes := probe_distance sd i in
    mkStats (total_probes acc + probes) (Z.max (max_probes acc) probes)
            (occupied_slots acc + 1)
  else acc.

Definition printStats_probes (sd : RWLockOptimizedSharedData) : ProbeStats :=
  fold_left (stats_step sd) indices (mkStats 0 0 0).

(** ** Further notions *)

(* Every Occupied slot caches the primary hash of its key. *)
Definition hash_cached (sd : RWLockOptimizedSharedData) : Prop :=
  forall i, in_table i -> is_state RWLOCK_OCCUPIED (entry_at sd i) = true ->
            hash_value (entry_at sd i) = hash sd (key (entry_at sd i)).

(* The entries of a batch that batchUpdateRsc counts: value short enough and
   key present. *)
Definition batch_hits (sd : RWLockOptimizedSharedData) (m : cxx_map) : nat :=
  length (filter (fun kv => negb (too_long (snd kv)) && isContain sd (fst kv)) m).

(* add(k1, v1); remove(k1); add(k2, v2); remove(k2); ... *)
Definition churn (l : cxx_map) : list op :=
  flat_map (fun kv => [Add (fst kv) (snd kv); Remove (fst kv)]) l.


(* updateRsc(k1, v1); updateRsc(k2, v2); ... for the entries of a map *)
Definition updates (m : cxx_map) : list op :=
  map (fun kv => Update (fst kv) (snd kv)) m.

(* The number of OK codes in a list of return codes. *)
Definition ok_count (codes : list Z) : Z :=
  Z.of_nat (length (filter (fun rc => rc =? OK) codes)).

(** * Properties *)

(** ** Basic facts on the hash primitives *)

Lemma mask_mod (x : Z) : Z.land x (RWLOCK_HASH_TABLE_SIZE - 1) = x mod 2048.
Proof.
  change (RWLOCK_HASH_TABLE_SIZE - 1) with (Z.ones 11).
  rewrite Z.land_ones by lia. reflexivity.
Qed.

Lemma hash_with_range (seed k : Z) : 0 <= hash_with seed k < RWLOCK_HASH_TABLE_SIZE.
Proof.
  unfold hash_with. cbv zeta. rewrite mask_mod.
  unfold RWLOCK_HASH_TABLE_SIZE. apply Z.mod_pos_bound. lia.
Qed.

Lemma hash2_with_range (seed k : Z) : 0 <= hash2_with seed k < RWLOCK_HASH_TABLE_SIZE.
Proof.
  unfold hash2_with. cbv zeta. rewrite mask_mod.
  set (m := _ mod 2048).
  assert (Hm : 0 <= m < 2048) by (apply Z.mod_pos_bound; lia).
  unfold RWLOCK_HASH_TABLE_SIZE. split.
  - apply Z.lor_nonneg. lia.
  - assert (H : Z.lor m 1 < 2 ^ 11); [| exact H].
    destruct (Z.eq_dec (Z.lor m 1) 0) as [E | E]; [rewrite E; lia |].
    apply Z.log2_lt_pow2.
    + assert (0 <= Z.lor m 1) by (apply Z.lor_nonneg; lia). lia.
    + rewrite Z.log2_lor by lia.
      apply Z.max_lub_lt.
      * destruct (Z.eq_dec m 0) as [-> | Hz]; [simpl; lia |].
        apply Z.log2_lt_pow2; lia.
      * simpl. lia.
Qed.

Lemma hash2_with_odd (seed k : Z) : Z.odd (hash2_with seed k) = true.
Proof.
  unfold hash2_with. cbv zeta.
  rewrite <- Z.bit0_odd, Z.lor_spec. simpl. apply orb_true_r.
Qed.

Lemma u32_mod_size (x : Z) : u32 x mod 2048 = x mod 2048.
Proof.
  unfold u32. apply Z.mod_mod_divide.
  exists 2097152. reflexivity.
Qed.

Lemma getNextProbe_mod (pos step h2 : Z) :
  getNextProbe pos step h2 = (pos + step * h2) mod 2048.
Proof.
  unfold getNextProbe. rewrite mask_mod, u32_mod_size.
  rewrite Z.add_mod, !u32_mod_size by lia.
  rewrite (Z.mul_mod (u32 step)), u32_mod_size by lia.
  rewrite <- Z.mul_mod, <- Z.add_mod by lia.
  reflexivity.
Qed.

Lemma getNextProbe_range (pos step h2 : Z) :
  0 <= getNextProbe pos step h2 < RWLOCK_HASH_TABLE_SIZE.
Proof.
  rewrite getNextProbe_mod. unfold RWLOCK_HASH_TABLE_SIZE.
  apply Z.mod_pos_bound. lia.
Qed.


(** ** The probe sequence in closed form *)

Lemma tri_double (s : nat) : 2 * tri s = Z.of_nat s * (Z.of_nat s + 1).
Proof.
  induction s as [| s IH]; [reflexivity |].
  cbn [tri]. rewrite Nat2Z.inj_succ. lia.
Qed.

Lemma tri_div (s : nat) : tri s = Z.of_nat s * (Z.of_nat s + 1) / 2.
Proof.
  rewrite <- tri_double, Z.mul_comm, Z.div_mul by lia. reflexivity.
Qed.

Lemma probe_pos_range (h h2 : Z) (s : nat) :
  0 <= h < RWLOCK_HASH_TABLE_SIZE ->
  0 <= probe_pos h h2 s < RWLOCK_HASH_TABLE_SIZE.
Proof.
  intros Hh. destruct s as [| s]; [exact Hh |].
  cbn [probe_pos]. apply getNextProbe_range.
Qed.

Lemma probe_pos_closed (h h2 : Z) (s : nat) :
  0 <= h < RWLOCK_HASH_TABLE_SIZE ->
  probe_pos h h2 s = (h + tri s * h2) mod 2048.
Proof.
  unfold RWLOCK_HASH_TABLE_SIZE. intros Hh.
  induction s as [| s IH].
  - cbn. rewrite Z.add_0_r, Z.mod_small by lia. reflexivity.
  - cbn [probe_pos tri]. rewrite getNextProbe_mod, IH.
    rewrite Zplus_mod_idemp_l. f_equal. ring.
Qed.

Lemma odd_not_div2 (a : Z) : Z.odd a = true -> ~ (2 | a).
Proof.
  intros Ho Hd. apply Z.mod_divide in Hd; [| lia].
  rewrite Zmod_odd, Ho in Hd. discriminate.
Qed.

Lemma pow2_rel_prime_odd (n a : Z) :
  0 <= n -> Z.odd a = true -> rel_prime (2 ^ n) a.
Proof.
  intros Hn Ho. apply rel_prime_sym, rel_prime_Zpower_r; [exact Hn |].
  apply rel_prime_sym, prime_rel_prime; [exact prime_2 |].
  apply odd_not_div2, Ho.
Qed.

Lemma tri_diff_not_divisible (i j : nat) :
  (j < i < 2048)%nat -> ~ (2048 | tri i - tri j).
Proof.
  intros Hij [q Hq].
  assert (Hd : (2 ^ 12 | (Z.of_nat i - Z.of_nat j) * (Z.of_nat i + Z.of_nat j + 1))).
  { exists q. pose proof (tri_double i). pose proof (tri_double j).
    change (2 ^ 12) with 4096. nia. }
  destruct (Z.odd (Z.of_nat i - Z.of_nat j)) eqn:Ho.
  - apply Gauss in Hd; [| apply pow2_rel_prime_odd; [lia | exact Ho]].
    apply Z.divide_pos_le in Hd; [| lia].
    change (2 ^ 12) with 4096 in Hd. lia.
  - rewrite Z.mul_comm in Hd.
    apply Gauss in Hd.
    + apply Z.divide_pos_le in Hd; [| lia].
      change (2 ^ 12) with 4096 in Hd. lia.
    + apply pow2_rel_prime_odd; [lia |].
      replace (Z.of_nat i + Z.of_nat j + 1)
        with ((Z.of_nat i - Z.of_nat j) + 1 + 2 * Z.of_nat j) by ring.
      rewrite Z.odd_add_mul_2, Z.odd_add, Ho. reflexivity.
Qed.

Lemma probe_pos_inj (h h2 : Z) (i j : nat) :
  0 <= h < RWLOCK_HASH_TABLE_SIZE ->
  Z.odd h2 = true ->
  (i < 2048)%nat -> (j < 2048)%nat ->
  probe_pos h h2 i = probe_pos h h2 j -> i = j.
Proof.
  intros Hh Ho Hi Hj E.
  rewrite !probe_pos_closed in E by exact Hh.
  assert (D : forall a b : nat, (b < a < 2048)%nat ->
            (h + tri a * h2) mod 2048 = (h + tri b * h2) mod 2048 -> False).
  { intros a b Hab Eab. apply (tri_diff_not_divisible a b Hab).
    apply Z.cong_iff_0 in Eab. apply Z.mod_divide in Eab; [| lia].
    replace (h + tri a * h2 - (h + tri b * h2)) with (h2 * (tri a - tri b)) in Eab by ring.
    apply Gauss in Eab; [exact Eab |].
    apply (pow2_rel_prime_odd 11); [lia | exact Ho]. }
  destruct (Nat.lt_trichotomy i j) as [L | [L | L]]; [| exact L |].
  - exfalso. apply (D j i); [lia | symmetry; exact E].
  - exfalso. apply (D i j); [lia | exact E].
Qed.

Lemma probes_length (seed k : Z) : length (probes seed k) = 2048%nat.
Proof. unfold probes. rewrite length_map, length_seq. reflexivity. Qed.

Lemma probes_range (seed k p : Z) :
  In p (probes seed k) -> 0 <= p < RWLOCK_HASH_TABLE_SIZE.
Proof.
  unfold probes. rewrite in_map_iff. intros [s [<- _]].
  apply probe_pos_range, hash_with_range.
Qed.

Lemma probes_NoDup (seed k : Z) : NoDup (probes seed k).
Proof.
  unfold probes.
  apply NoDup_map_NoDup_ForallPairs; [| apply seq_NoDup].
  intros i j Hi Hj E. apply in_seq in Hi, Hj.
  eapply probe_pos_inj; try exact E; try lia.
  - apply hash_with_range.
  - apply hash2_with_odd.
Qed.

Lemma indices_spec (p : Z) : In p indices <-> 0 <= p < RWLOCK_HASH_TABLE_SIZE.
Proof.
  unfold indices, RWLOCK_HASH_TABLE_SIZE. rewrite in_map_iff. split.
  - intros [n [<- Hn]]. apply in_seq in Hn. lia.
  - intros Hp. exists (Z.to_nat p). split; [lia |]. apply in_seq. lia.
Qed.

Lemma probes_cover (seed k p : Z) :
  0 <= p < RWLOCK_HASH_TABLE_SIZE -> In p (probes seed k).
Proof.
  intros Hp. apply indices_spec in Hp. revert p Hp.
  apply NoDup_length_incl.
  - apply probes_NoDup.
  - unfold indices. rewrite probes_length, length_map, length_seq. lia.
  - intros p Hp. apply indices_spec. eapply probes_range, Hp.
Qed.

(** ** The loops walk the probe sequence *)

Lemma findEntry_loop_scan (sd : RWLockOptimizedSharedData) (k h h2 : Z) (n s : nat) :
  findEntry_loop sd k h2 n (Z.of_nat s) (probe_pos h h2 s)
  = scan_entry sd k (map (probe_pos h h2) (seq s n)).
Proof.
  revert s. induction n as [| n IH]; intros s; [reflexivity |].
  cbn [findEntry_loop seq map scan_entry].
  destruct (is_state RWLOCK_EMPTY _); [reflexivity |].
  destruct (key_matches k _); [reflexivity |].
  rewrite <- IH. rewrite Nat2Z.inj_succ. reflexivity.
Qed.

Lemma findEmptySlot_loop_scan (sd : RWLockOptimizedSharedData) (k h h2 : Z)
    (n s : nat) (fd : Z) :
  findEmptySlot_loop sd k h2 n (Z.of_nat s) (probe_pos h h2 s) fd
  = scan_empty sd k fd (map (probe_pos h h2) (seq s n)).
Proof.
  revert s fd. induction n as [| n IH]; intros s fd; [reflexivity |].
  cbn [findEmptySlot_loop seq map scan_empty].
  destruct (is_state RWLOCK_EMPTY _); [reflexivity |].
  destruct (key_matches k _); [reflexivity |].
  rewrite <- IH. rewrite Nat2Z.inj_succ. reflexivity.
Qed.

Lemma findEntry_scan (sd : RWLockOptimizedSharedData) (k : Z) :
  findEntry sd k (hash sd k) = scan_entry sd k (probes (hash_seed sd) k).
Proof. apply (findEntry_loop_scan sd k (hash sd k) (hash2 sd k) 2048 0). Qed.

Lemma findEmptySlot_scan (sd : RWLockOptimizedSharedData) (k : Z) :
  findEmptySlot sd k (hash sd k) = scan_empty sd k (-1) (probes (hash_seed sd) k).
Proof. apply (findEmptySlot_loop_scan sd k (hash sd k) (hash2 sd k) 2048 0). Qed.

Lemma probes_nth (seed k : Z) (s : nat) :
  (s < 2048)%nat ->
  nth s (probes seed k) 0 = probe_pos (hash_with seed k) (hash2_with seed k) s.
Proof.
  intros Hs. unfold probes.
  rewrite (nth_indep _ 0 (probe_pos (hash_with seed k) (hash2_with seed k) 0%nat))
    by (rewrite length_map, length_seq; exact Hs).
  rewrite map_nth, seq_nth by exact Hs. reflexivity.
Qed.

(** ** Array reads and writes *)

Lemma length_upd {A : Type} (l : list A) (i : nat) (x : A) :
  length (upd l i x) = length l.
Proof.
  revert i. induction l as [| a l IH]; intros [| i]; cbn; try reflexivity.
  rewrite IH. reflexivity.
Qed.

Lemma nth_upd {A : Type} (l : list A) (i j : nat) (x d : A) :
  (i < length l)%nat ->
  nth j (upd l i x) d = if Nat.eqb j i then x else nth j l d.
Proof.
  revert i j. induction l as [| a l IH]; intros i j Hi; cbn in Hi; [lia |].
  destruct i as [| i], j as [| j]; cbn; try reflexivity.
  apply IH. lia.
Qed.

Lemma entry_at_set (sd sd' : RWLockOptimizedSharedData) (r p : Z) (e : RWLockHashEntry) :
  hash_table sd' = set_entry sd r e ->
  length (hash_table sd) = 2048%nat ->
  in_table r -> in_table p ->
  entry_at sd' p = if p =? r then e else entry_at sd p.
Proof.
  unfold in_table, RWLOCK_HASH_TABLE_SIZE, entry_at, set_entry.
  intros -> Hlen Hr Hp. rewrite nth_upd by lia.
  destruct (Z.eqb_spec p r) as [-> | Hne].
  - rewrite Nat.eqb_refl. reflexivity.
  - destruct (Nat.eqb_spec (Z.to_nat p) (Z.to_nat r)) as [E | _]; [lia | reflexivity].
Qed.

Lemma entry_at_clear (sd sd' : RWLockOptimizedSharedData) (p : Z) :
  hash_table sd' = clear_states (hash_table sd) ->
  entry_at sd' p = set_state RWLOCK_EMPTY (entry_at sd p).
Proof.
  unfold entry_at, clear_states. intros ->.
  change empty_entry with (set_state RWLOCK_EMPTY empty_entry) at 1.
  apply map_nth.
Qed.

Lemma entry_at_in (sd : RWLockOptimizedSharedData) (p : Z) :
  length (hash_table sd) = 2048%nat -> in_table p ->
  In (entry_at sd p) (hash_table sd).
Proof.
  unfold in_table, RWLOCK_HASH_TABLE_SIZE, entry_at. intros Hlen Hp.
  apply nth_In. lia.
Qed.

Lemma in_entry_at (sd : RWLockOptimizedSharedData) (e : RWLockHashEntry) :
  length (hash_table sd) = 2048%nat -> In e (hash_table sd) ->
  exists p, in_table p /\ entry_at sd p = e.
Proof.
  intros Hlen Hin. destruct (In_nth _ _ empty_entry Hin) as [n [Hn E]].
  exists (Z.of_nat n). unfold in_table, RWLOCK_HASH_TABLE_SIZE, entry_at.
  rewrite Nat2Z.id. split; [lia | exact E].
Qed.

(** ** Entry states *)

Lemma state_cases (e : RWLockHashEntry) :
  (is_state RWLOCK_EMPTY e = true /\ is_state RWLOCK_OCCUPIED e = false
   /\ is_state RWLOCK_DELETED e = false)
  \/ (is_state RWLOCK_EMPTY e = false /\ is_state RWLOCK_OCCUPIED e = true
      /\ is_state RWLOCK_DELETED e = false)
  \/ (is_state RWLOCK_EMPTY e = false /\ is_state RWLOCK_OCCUPIED e = false
      /\ is_state RWLOCK_DELETED e = true).
Proof. unfold is_state. destruct (state e); cbn; auto. Qed.

Lemma is_state_eq (st : RWLockEntryState) (e : RWLockHashEntry) :
  is_state st e = true <-> state e = st.
Proof. unfold is_state. destruct (state e), st; cbn; split; congruence. Qed.

Lemma key_matches_spec (k : Z) (e : RWLockHashEntry) :
  key_matches k e = true <-> state e = RWLOCK_OCCUPIED /\ key e = k.
Proof.
  unfold key_matches. rewrite andb_true_iff, is_state_eq, Z.eqb_eq. reflexivity.
Qed.

Lemma key_matches_occupied (k : Z) (e : RWLockHashEntry) :
  key_matches k e = true -> is_state RWLOCK_OCCUPIED e = true.
Proof. unfold key_matches. intros H. apply andb_true_iff in H. apply H. Qed.

Lemma key_matches_non_empty (k : Z) (e : RWLockHashEntry) :
  key_matches k e = true -> is_state RWLOCK_EMPTY e = false.
Proof.
  intros H. apply key_matches_occupied in H.
  destruct (state_cases e) as [C | [C | C]]; destruct C as [? [? ?]]; congruence.
Qed.

(** ** What the scans return *)

Lemma scan_entry_result (sd : RWLockOptimizedSharedData) (k : Z) (ps : list Z) :
  scan_entry sd k ps = -1
  \/ (In (scan_entry sd k ps) ps
      /\ key_matches k (entry_at sd (scan_entry sd k ps)) = true).
Proof.
  induction ps as [| p ps IH]; [left; reflexivity |].
  cbn [scan_entry].
  destruct (is_state RWLOCK_EMPTY (entry_at sd p)); [left; reflexivity |].
  destruct (key_matches k (entry_at sd p)) eqn:Hk.
  - right. split; [left; reflexivity | exact Hk].
  - destruct IH as [IH | [IH1 IH2]]; [left; exact IH | right].
    split; [right; exact IH1 | exact IH2].
Qed.

Lemma scan_entry_finds (sd : RWLockOptimizedSharedData) (k i : Z) (l1 l2 : list Z) :
  Forall (non_empty sd) l1 ->
  key_matches k (entry_at sd i) = true ->
  In (scan_entry sd k (l1 ++ i :: l2)) (l1 ++ [i])
  /\ key_matches k (entry_at sd (scan_entry sd k (l1 ++ i :: l2))) = true.
Proof.
  intros Hne Hi. induction Hne as [| p l1 Hp Hne IH].
  - cbn [app scan_entry]. rewrite (key_matches_non_empty _ _ Hi), Hi.
    split; [left; reflexivity | exact Hi].
  - cbn [app scan_entry]. unfold non_empty in Hp. rewrite Hp.
    destruct (key_matches k (entry_at sd p)) eqn:Hk.
    + split; [left; reflexivity | exact Hk].
    + destruct IH as [IH1 IH2]. split; [right; exact IH1 | exact IH2].
Qed.

Lemma scan_empty_found (sd : RWLockOptimizedSharedData) (k i fd : Z) (l1 l2 : list Z) :
  Forall (non_empty sd) l1 ->
  key_matches k (entry_at sd i) = true ->
  scan_empty sd k fd (l1 ++ i :: l2) = -1.
Proof.
  intros Hne Hi. revert fd. induction Hne as [| p l1 Hp Hne IH]; intros fd.
  - cbn [app scan_empty]. rewrite (key_matches_non_empty _ _ Hi), Hi. reflexivity.
  - cbn [app scan_empty]. unfold non_empty in Hp. rewrite Hp.
    destruct (key_matches k (entry_at sd p)); [reflexivity | apply IH].
Qed.

(* Once first_deleted is set, the loop returns it unless the key is met. *)
Lemma scan_empty_set (sd : RWLockOptimizedSharedData) (k fd : Z) (ps : list Z) :
  fd <> -1 ->
  scan_empty sd k fd ps = fd
  \/ (scan_empty sd k fd ps = -1
      /\ exists p, In p ps /\ key_matches k (entry_at sd p) = true).
Proof.
  intros Hfd. induction ps as [| p ps IH]; [left; reflexivity |].
  cbn [scan_empty].
  assert (E : (fd =? -1) = false) by (apply Z.eqb_neq; exact Hfd).
  rewrite E, andb_false_r. cbn [negb].
  destruct (is_state RWLOCK_EMPTY (entry_at sd p)); [left; reflexivity |].
  destruct (key_matches k (entry_at sd p)) eqn:Hk.
  - right. split; [reflexivity |]. exists p. split; [left; reflexivity | exact Hk].
  - destruct IH as [IH | [IH [q [Hq1 Hq2]]]]; [left; exact IH | right].
    split; [exact IH |]. exists q. split; [right; exact Hq1 | exact Hq2].
Qed.

(* A slot returned by findEmptySlot is not Occupied and lies on the probe
   sequence with no Empty slot before it. *)
Lemma scan_empty_slot (sd : RWLockOptimizedSharedData) (k : Z) (ps : list Z) :
  Forall (fun p => 0 <= p) ps ->
  scan_empty sd k (-1) ps <> -1 ->
  exists l1 l2, ps = l1 ++ scan_empty sd k (-1) ps :: l2
                /\ Forall (non_empty sd) l1
                /\ is_state RWLOCK_OCCUPIED (entry_at sd (scan_empty sd k (-1) ps)) = false.
Proof.
  intros Hps. induction Hps as [| p ps Hp Hps IH]; intros Hr; [cbn in Hr; lia |].
  cbn [scan_empty] in *. change (-1 =? -1) with true in *. cbn [negb] in *.
  rewrite andb_true_r in *.
  destruct (state_cases (entry_at sd p)) as [C | [C | C]];
    destruct C as [CE [CO CD]]; rewrite CE in *.
  - exists [], ps. repeat split; [constructor | exact CO].
  - rewrite CD in *. destruct (key_matches k (entry_at sd p)); [lia |].
    destruct (IH Hr) as [l1 [l2 [E [Hne Ho]]]].
    exists (p :: l1), l2. split; [cbn; rewrite <- E; reflexivity |].
    split; [constructor; [exact CE | exact Hne] | exact Ho].
  - rewrite CD in *. destruct (key_matches k (entry_at sd p)); [lia |].
    destruct (scan_empty_set sd k p ps) as [E | [E _]]; [lia | | lia].
    rewrite E. exists [], ps. repeat split; [constructor | exact CO].
Qed.

(* findEmptySlot gives up only on a duplicate key or when every probed slot
   is Occupied. *)
Lemma scan_empty_fails (sd : RWLockOptimizedSharedData) (k : Z) (ps : list Z) :
  Forall (fun p => 0 <= p) ps ->
  scan_empty sd k (-1) ps = -1 ->
  (exists p, In p ps /\ key_matches k (entry_at sd p) = true)
  \/ Forall (fun p => is_state RWLOCK_OCCUPIED (entry_at sd p) = true) ps.
Proof.
  intros Hps. induction Hps as [| p ps Hp Hps IH]; intros Hr; [right; constructor |].
  cbn [scan_empty] in Hr. change (-1 =? -1) with true in Hr. cbn [negb] in Hr.
  rewrite andb_true_r in Hr.
  destruct (state_cases (entry_at sd p)) as [C | [C | C]];
    destruct C as [CE [CO CD]]; rewrite CE in Hr.
  - lia.
  - rewrite CD in Hr. destruct (key_matches k (entry_at sd p)) eqn:Hk.
    + left. exists p. split; [left; reflexivity | exact Hk].
    + destruct (IH Hr) as [[q [Hq1 Hq2]] | Hall].
      * left. exists q. split; [right; exact Hq1 | exact Hq2].
      * right. constructor; [exact CO | exact Hall].
  - rewrite CD in Hr. destruct (key_matches k (entry_at sd p)) eqn:Hk.
    + left. exists p. split; [left; reflexivity | exact Hk].
    + destruct (scan_empty_set sd k p ps) as [E | [_ [q [Hq1 Hq2]]]]; [lia | lia |].
      left. exists q. split; [right; exact Hq1 | exact Hq2].
Qed.

(** ** C strings *)

Lemma strncpy_length (v : list byte) (n : nat) : length (strncpy v n) = n.
Proof.
  revert v. induction n as [| n IH]; intros v; [reflexivity |].
  cbn [strncpy]. destruct v as [| c v].
  - apply repeat_length.
  - destruct (Byte.eqb c x00); [apply repeat_length |].
    cbn. rewrite IH. reflexivity.
Qed.

Lemma store_value_length (v : list byte) : length (store_value v) = 256%nat.
Proof. unfold store_value. rewrite length_app, strncpy_length. reflexivity. Qed.

Lemma store_value_nul (v : list byte) : In x00 (store_value v).
Proof. unfold store_value. apply in_or_app. right. left. reflexivity. Qed.

Lemma c_string_repeat_nul (n : nat) (l : list byte) :
  c_string (repeat x00 n ++ x00 :: l) = [].
Proof. destruct n; reflexivity. Qed.

Lemma c_string_strncpy (v : list byte) (n : nat) (l : list byte) :
  c_string (strncpy v n ++ x00 :: l) = firstn n (c_string v).
Proof.
  revert v. induction n as [| n IH]; intros v.
  - reflexivity.
  - cbn [strncpy]. destruct v as [| c v].
    + rewrite c_string_repeat_nul. reflexivity.
    + cbn [c_string]. destruct (Byte.eqb c x00) eqn:E.
      * rewrite c_string_repeat_nul. reflexivity.
      * cbn [app c_string firstn]. rewrite E, IH. reflexivity.
Qed.

Lemma c_string_store (v : list byte) :
  c_string (store_value v) = firstn 255 (c_string v).
Proof. apply c_string_strncpy. Qed.

Lemma c_string_length (v : list byte) : (length (c_string v) <= length v)%nat.
Proof.
  induction v as [| c v IH]; [cbn; lia |].
  cbn [c_string]. destruct (Byte.eqb c x00); cbn; lia.
Qed.

Lemma c_string_length_nul (v : list byte) :
  In x00 v -> (length (c_string v) < length v)%nat.
Proof.
  induction v as [| c v IH]; intros Hin; [contradiction |].
  cbn [c_string]. destruct (Byte.eqb c x00) eqn:E; [cbn; lia |].
  destruct Hin as [-> | Hin]; [discriminate E |].
  cbn. apply IH in Hin. lia.
Qed.

Lemma c_string_idem (v : list byte) : c_string (c_string v) = c_string v.
Proof.
  induction v as [| c v IH]; [reflexivity |].
  cbn [c_string]. destruct (Byte.eqb c x00) eqn:E; [reflexivity |].
  cbn [c_string]. rewrite E, IH. reflexivity.
Qed.

Lemma c_string_no_nul (v : list byte) : ~ In x00 v -> c_string v = v.
Proof.
  induction v as [| c v IH]; intros Hn; [reflexivity |].
  cbn [c_string]. destruct (Byte.eqb c x00) eqn:E.
  - exfalso. apply Hn. left. symmetry. apply byte_dec_bl, E.
  - rewrite IH; [reflexivity |]. intros H. apply Hn. right. exact H.
Qed.

Lemma c_string_has_no_nul (v : list byte) : ~ In x00 (c_string v).
Proof.
  induction v as [| c v IH]; [intros [] |].
  cbn [c_string]. destruct (Byte.eqb c x00) eqn:E; [intros [] |].
  intros [H | H]; [subst c; discriminate E | exact (IH H)].
Qed.

Lemma too_long_false (v : list byte) :
  too_long v = false -> (length v < 256)%nat.
Proof. unfold too_long, MAX_VALUE_LEN. intros H. apply Z.leb_gt in H. lia. Qed.

Lemma c_string_store_short (v : list byte) :
  (length (c_string v) < 256)%nat -> c_string (store_value v) = c_string v.
Proof. intros H. rewrite c_string_store. apply firstn_all2. lia. Qed.

(** ** Invariant preservation by single-slot writes *)

Lemma chain_ok_mono (sd sd' : RWLockOptimizedSharedData) (k i : Z) :
  hash_seed sd' = hash_seed sd ->
  (forall p, in_table p -> non_empty sd p -> non_empty sd' p) ->
  chain_ok sd k i -> chain_ok sd' k i.
Proof.
  intros Hseed Hmono [l1 [l2 [E Hne]]]. exists l1, l2. rewrite Hseed.
  split; [exact E |]. rewrite Forall_forall in *. intros p Hp.
  apply Hmono; [| apply Hne, Hp].
  apply (probes_range (hash_seed sd) k). rewrite E. apply in_or_app. left. exact Hp.
Qed.

Lemma chain_ok_in_table (sd : RWLockOptimizedSharedData) (k i : Z) :
  chain_ok sd k i -> in_table i.
Proof.
  intros [l1 [l2 [E _]]]. apply (probes_range (hash_seed sd) k).
  rewrite E. apply in_or_app. right. left. reflexivity.
Qed.

Lemma inv_slot_write (sd sd' : RWLockOptimizedSharedData) (r : Z) (e : RWLockHashEntry) :
  table_inv sd ->
  hash_seed sd' = hash_seed sd ->
  hash_table sd' = set_entry sd r e ->
  in_table r ->
  is_state RWLOCK_EMPTY e = false ->
  length (value e) = 256%nat /\ In x00 (value e) ->
  (is_state RWLOCK_OCCUPIED e = true ->
   chain_ok sd (key e) r /\ forall i, occupied_by sd (key e) i -> i = r) ->
  table_inv sd'.
Proof.
  intros [Hlen Hchain Huniq Hnul] Hseed Htab Hr Hne Hval Hocc.
  assert (Hat : forall p, in_table p ->
                entry_at sd' p = if p =? r then e else entry_at sd p).
  { intros p Hp. apply entry_at_set; assumption. }
  assert (Hmono : forall p, in_table p -> non_empty sd p -> non_empty sd' p).
  { unfold non_empty. intros p Hp Hn. rewrite (Hat p Hp).
    destruct (p =? r); assumption. }
  assert (Hcase : forall k i, occupied_by sd' k i ->
            (i = r /\ key e = k /\ is_state RWLOCK_OCCUPIED e = true)
            \/ (i <> r /\ occupied_by sd k i)).
  { intros k i [Hi Hk]. rewrite (Hat i Hi) in Hk.
    destruct (Z.eqb_spec i r) as [-> | Hneq].
    - left. split; [reflexivity |]. split.
      + apply key_matches_spec in Hk. apply Hk.
      + apply key_matches_occupied in Hk. exact Hk.
    - right. split; [exact Hneq |]. split; assumption. }
  constructor.
  - rewrite Htab. unfold set_entry. rewrite length_upd. exact Hlen.
  - intros k i Ho. apply (chain_ok_mono sd); [exact Hseed | exact Hmono |].
    destruct (Hcase k i Ho) as [[-> [<- Hs]] | [_ Hold]].
    + apply Hocc, Hs.
    + apply Hchain, Hold.
  - intros k i j Hi Hj.
    destruct (Hcase k i Hi) as [[-> [Ek Hs]] | [Hni Hoi]];
      destruct (Hcase k j Hj) as [[-> [Ek' Hs']] | [Hnj Hoj]].
    + reflexivity.
    + subst k. symmetry. apply (proj2 (Hocc Hs)), Hoj.
    + subst k. apply (proj2 (Hocc Hs')), Hoi.
    + apply (Huniq k); assumption.
  - intros i Hi. rewrite (Hat i Hi). destruct (i =? r); [exact Hval | apply Hnul, Hi].
Qed.

Lemma inv_overwrite (sd : RWLockOptimizedSharedData) (k r : Z) (v : list byte) :
  table_inv sd -> occupied_by sd k r -> table_inv (overwrite_at sd r v).
Proof.
  intros Hinv Ho. pose proof Ho as [Hr Hk].
  apply (inv_slot_write sd _ r (set_value v (entry_at sd r))); try reflexivity; try assumption.
  - apply (key_matches_non_empty k), Hk.
  - cbn. split; [apply store_value_length | apply store_value_nul].
  - intros _. cbn [set_value key].
    apply key_matches_spec in Hk. destruct Hk as [Hs Hkey]. rewrite Hkey. split.
    + apply (inv_chain sd Hinv), Ho.
    + intros i Hi. apply (inv_unique sd Hinv k); assumption.
Qed.

Lemma inv_tombstone (sd : RWLockOptimizedSharedData) (r c d : Z) :
  table_inv sd -> in_table r ->
  table_inv (mkShared c d (hash_seed sd)
               (set_entry sd r (set_state RWLOCK_DELETED (entry_at sd r)))).
Proof.
  intros Hinv Hr.
  apply (inv_slot_write sd _ r (set_state RWLOCK_DELETED (entry_at sd r)));
    try reflexivity; try assumption.
  - apply (inv_nul sd Hinv), Hr.
  - intros H. discriminate H.
Qed.

Lemma inv_new_entry (sd : RWLockOptimizedSharedData) (r k c d h : Z) (v : list byte) :
  table_inv sd ->
  chain_ok sd k r ->
  ~ key_occupied sd k ->
  table_inv (mkShared c d (hash_seed sd) (set_entry sd r (new_entry k v h))).
Proof.
  intros Hinv Hch Hno.
  apply (inv_slot_write sd _ r (new_entry k v h)); try reflexivity; try assumption.
  - eapply chain_ok_in_table, Hch.
  - cbn. split; [apply store_value_length | apply store_value_nul].
  - intros _. cbn [new_entry key]. split; [exact Hch |].
    intros i Hi. exfalso. apply Hno. exists i. exact Hi.
Qed.

Lemma inv_cleared (sd : RWLockOptimizedSharedData) :
  table_inv sd -> table_inv (mkShared 0 0 (hash_seed sd) (clear_states (hash_table sd))).
Proof.
  intros Hinv.
  assert (Hat : forall p, entry_at (mkShared 0 0 (hash_seed sd) (clear_states (hash_table sd))) p
                          = set_state RWLOCK_EMPTY (entry_at sd p)).
  { intros p. apply entry_at_clear. reflexivity. }
  assert (Hno : forall k i,
            ~ occupied_by (mkShared 0 0 (hash_seed sd) (clear_states (hash_table sd))) k i).
  { intros k i [_ Hk]. rewrite Hat in Hk. discriminate Hk. }
  constructor.
  - cbn. unfold clear_states. rewrite length_map. apply (inv_len sd Hinv).
  - intros k i Ho. destruct (Hno k i Ho).
  - intros k i j Ho. destruct (Hno k i Ho).
  - intros i Hi. rewrite Hat. apply (inv_nul sd Hinv), Hi.
Qed.

Lemma inv_init (seed : Z) : table_inv (init seed).
Proof.
  assert (Hat : forall p, entry_at (init seed) p = empty_entry).
  { intros p. unfold entry_at, init. cbn [hash_table].
    destruct (nth_in_or_default (Z.to_nat p) (repeat empty_entry 2048) empty_entry)
      as [Hin | E]; [apply repeat_spec in Hin; exact Hin | exact E]. }
  constructor.
  - apply repeat_length.
  - intros k i [_ Hk]. rewrite Hat in Hk. discriminate Hk.
  - intros k i j [_ Hk]. rewrite Hat in Hk. discriminate Hk.
  - intros i _. rewrite Hat. split; [apply repeat_length | left; reflexivity].
Qed.

(** ** findEntry and findEmptySlot on a well-formed table *)

Lemma probes_nonneg (seed k : Z) : Forall (fun p => 0 <= p) (probes seed k).
Proof.
  apply Forall_forall. intros p Hp. apply probes_range in Hp.
  unfold RWLOCK_HASH_TABLE_SIZE in Hp. lia.
Qed.

Lemma findEntry_found (sd : RWLockOptimizedSharedData) (k : Z) :
  findEntry sd k (hash sd k) <> -1 ->
  occupied_by sd k (findEntry sd k (hash sd k)).
Proof.
  rewrite findEntry_scan. intros Hr.
  destruct (scan_entry_result sd k (probes (hash_seed sd) k)) as [E | [Hin Hk]];
    [contradiction |].
  split; [eapply probes_range, Hin | exact Hk].
Qed.

Lemma findEntry_occupied (sd : RWLockOptimizedSharedData) (k i : Z) :
  table_inv sd -> occupied_by sd k i -> findEntry sd k (hash sd k) = i.
Proof.
  intros Hinv Ho. destruct (inv_chain sd Hinv k i Ho) as [l1 [l2 [E Hne]]].
  rewrite findEntry_scan, E.
  destruct (scan_entry_finds sd k i l1 l2 Hne (proj2 Ho)) as [Hin Hk].
  apply (inv_unique sd Hinv k); [| exact Ho].
  split; [| exact Hk].
  apply (probes_range (hash_seed sd) k). rewrite E.
  apply in_app_or in Hin. apply in_or_app.
  destruct Hin as [Hin | [<- | []]]; [left; exact Hin | right; left; reflexivity].
Qed.

Lemma findEntry_absent (sd : RWLockOptimizedSharedData) (k : Z) :
  ~ key_occupied sd k -> findEntry sd k (hash sd k) = -1.
Proof.
  intros Hno. destruct (Z.eq_dec (findEntry sd k (hash sd k)) (-1)) as [E | Hne];
    [exact E |].
  exfalso. apply Hno. eexists. apply findEntry_found, Hne.
Qed.

Lemma findEmptySlot_duplicate (sd : RWLockOptimizedSharedData) (k : Z) :
  table_inv sd -> key_occupied sd k -> findEmptySlot sd k (hash sd k) = -1.
Proof.
  intros Hinv [i Ho]. destruct (inv_chain sd Hinv k i Ho) as [l1 [l2 [E Hne]]].
  rewrite findEmptySlot_scan, E. apply scan_empty_found; [exact Hne | apply Ho].
Qed.

Lemma findEmptySlot_slot (sd : RWLockOptimizedSharedData) (k : Z) :
  findEmptySlot sd k (hash sd k) <> -1 ->
  chain_ok sd k (findEmptySlot sd k (hash sd k))
  /\ is_state RWLOCK_OCCUPIED (entry_at sd (findEmptySlot sd k (hash sd k))) = false.
Proof.
  rewrite findEmptySlot_scan. intros Hr.
  destruct (scan_empty_slot sd k _ (probes_nonneg (hash_seed sd) k) Hr)
    as [l1 [l2 [E [Hne Ho]]]].
  split; [exists l1, l2; split; assumption | exact Ho].
Qed.

Lemma findEmptySlot_full (sd : RWLockOptimizedSharedData) (k : Z) :
  findEmptySlot sd k (hash sd k) = -1 ->
  key_occupied sd k
  \/ forall i, in_table i -> is_state RWLOCK_OCCUPIED (entry_at sd i) = true.
Proof.
  rewrite findEmptySlot_scan. intros Hr.
  destruct (scan_empty_fails sd k _ (probes_nonneg (hash_seed sd) k) Hr)
    as [[p [Hp Hk]] | Hall].
  - left. exists p. split; [eapply probes_range, Hp | exact Hk].
  - right. intros i Hi. rewrite Forall_forall in Hall.
    apply Hall, probes_cover, Hi.
Qed.

(** ** Counting Occupied slots *)

Lemma filter_length_upd {A : Type} (f : A -> bool) (l : list A) (i : nat) (x d : A) :
  (i < length l)%nat -> f (nth i l d) = false -> f x = true ->
  length (filter f (upd l i x)) = S (length (filter f l)).
Proof.
  revert i. induction l as [| a l IH]; intros i Hi Hold Hnew; cbn in Hi; [lia |].
  destruct i as [| i]; cbn in *.
  - rewrite Hold, Hnew. reflexivity.
  - destruct (f a); cbn; rewrite IH by (assumption || lia); reflexivity.
Qed.

Lemma filter_length_upd_gen {A : Type} (f : A -> bool) (l : list A) (i : nat) (x d : A) :
  (i < length l)%nat ->
  (length (filter f (upd l i x)) + (if f (nth i l d) then 1 else 0)
   = length (filter f l) + (if f x then 1 else 0))%nat.
Proof.
  revert i. induction l as [| a l IH]; intros i Hi; cbn in Hi; [lia |].
  destruct i as [| i]; cbn.
  - destruct (f a), (f x); cbn; lia.
  - specialize (IH i ltac:(lia)). destruct (f a); cbn; lia.
Qed.

Lemma state_count_write (st : RWLockEntryState) (sd sd' : RWLockOptimizedSharedData)
    (r : Z) (e : RWLockHashEntry) :
  length (hash_table sd) = 2048%nat -> in_table r ->
  hash_table sd' = set_entry sd r e ->
  (length (filter (is_state st) (hash_table sd'))
   + (if is_state st (entry_at sd r) then 1 else 0)
   = length (filter (is_state st) (hash_table sd))
     + (if is_state st e then 1 else 0))%nat.
Proof.
  unfold in_table, RWLOCK_HASH_TABLE_SIZE. intros Hlen Hr ->.
  unfold set_entry, entry_at. apply filter_length_upd_gen. lia.
Qed.

Lemma filter_length_lt {A : Type} (f : A -> bool) (l : list A) :
  (length (filter f l) < length l)%nat -> exists x, In x l /\ f x = false.
Proof.
  induction l as [| a l IH]; cbn; [lia |].
  destruct (f a) eqn:E.
  - cbn. intros H. destruct IH as [x [Hx Hf]]; [lia |].
    exists x. split; [right; exact Hx | exact Hf].
  - intros _. exists a. split; [left; reflexivity | exact E].
Qed.

Lemma occ_count_le (sd : RWLockOptimizedSharedData) :
  (occ_count sd <= length (hash_table sd))%nat.
Proof. apply filter_length_le. Qed.

Lemma occ_count_new_entry (sd : RWLockOptimizedSharedData) (r k c d h : Z) (v : list byte) :
  length (hash_table sd) = 2048%nat -> in_table r ->
  is_state RWLOCK_OCCUPIED (entry_at sd r) = false ->
  occ_count (mkShared c d (hash_seed sd) (set_entry sd r (new_entry k v h)))
  = S (occ_count sd).
Proof.
  unfold in_table, RWLOCK_HASH_TABLE_SIZE. intros Hlen Hr Ho.
  unfold occ_count, set_entry. cbn [hash_table].
  apply (filter_length_upd _ _ _ _ empty_entry); [lia | exact Ho | reflexivity].
Qed.

Lemma exists_free_slot (sd : RWLockOptimizedSharedData) :
  length (hash_table sd) = 2048%nat -> (occ_count sd < 2048)%nat ->
  exists i, in_table i /\ is_state RWLOCK_OCCUPIED (entry_at sd i) = false.
Proof.
  intros Hlen Hc. destruct (filter_length_lt (is_state RWLOCK_OCCUPIED) (hash_table sd))
    as [e [Hin He]]; [unfold occ_count in Hc; lia |].
  destruct (in_entry_at sd e Hlen Hin) as [p [Hp E]].
  exists p. split; [exact Hp | rewrite E; exact He].
Qed.

(** ** The snapshot map of rehashIfNeeded *)

Lemma map_assign_in (m : cxx_map) (k k' : Z) (v v' : list byte) :
  In (k', v') (map_assign m k v) -> (k' = k /\ v' = v) \/ In (k', v') m.
Proof.
  induction m as [| [k0 v0] m IH]; cbn.
  - intros [E | []]. left. split; congruence.
  - destruct (k <? k0).
    + intros [E | H]; [left; split; congruence | right; exact H].
    + destruct (k =? k0).
      * intros [E | H]; [left; split; congruence | right; right; exact H].
      * intros [E | H]; [right; left; exact E |].
        destruct (IH H) as [H' | H']; [left; exact H' | right; right; exact H'].
Qed.

Lemma map_assign_key (m : cxx_map) (k : Z) (v : list byte) :
  In k (map fst (map_assign m k v)).
Proof.
  induction m as [| [k0 v0] m IH]; cbn; [left; reflexivity |].
  destruct (k <? k0); [left; reflexivity |].
  destruct (k =? k0); [left; reflexivity | right; exact IH].
Qed.

Lemma map_assign_keys (m : cxx_map) (k k' : Z) (v : list byte) :
  In k' (map fst m) -> In k' (map fst (map_assign m k v)).
Proof.
  induction m as [| [k0 v0] m IH]; cbn; [intros [] |].
  destruct (k <? k0); [intros H; right; exact H |].
  destruct (Z.eqb_spec k k0) as [-> | Hne].
  - intros [E | H]; [left; exact E | right; exact H].
  - intros [E | H]; [left; exact E | right; apply IH, H].
Qed.

Lemma map_assign_length (m : cxx_map) (k : Z) (v : list byte) :
  (length (map_assign m k v) <= S (length m))%nat.
Proof.
  induction m as [| [k0 v0] m IH]; cbn; [lia |].
  destruct (k <? k0); [cbn; lia |].
  destruct (k =? k0); cbn; lia.
Qed.

Lemma map_assign_sorted (m : cxx_map) (k : Z) (v : list byte) :
  StronglySorted key_lt m -> StronglySorted key_lt (map_assign m k v).
Proof.
  induction 1 as [| [k0 v0] m Hs IH Hall]; cbn.
  - constructor; constructor.
  - destruct (Z.ltb_spec k k0) as [Hlt | Hge].
    + constructor; [constructor; assumption |].
      constructor; [exact Hlt |].
      rewrite Forall_forall in *. intros x Hx. specialize (Hall x Hx).
      unfold key_lt in *. cbn in *. lia.
    + destruct (Z.eqb_spec k k0) as [-> | Hne].
      * constructor; assumption.
      * constructor; [exact IH |].
        rewrite Forall_forall in *. intros [k1 v1] Hx.
        destruct (map_assign_in _ _ _ _ _ Hx) as [[-> _] | Hin].
        -- unfold key_lt. cbn. lia.
        -- apply Hall, Hin.
Qed.

Lemma sorted_keys_NoDup (m : cxx_map) :
  StronglySorted key_lt m -> NoDup (map fst m).
Proof.
  induction 1 as [| a m Hs IH Hall]; cbn; constructor; [| exact IH].
  intros Hin. apply in_map_iff in Hin. destruct Hin as [b [E Hb]].
  rewrite Forall_forall in Hall. specialize (Hall b Hb). unfold key_lt in Hall. lia.
Qed.

Lemma snapshot_fold (tab : list RWLockHashEntry) :
  snapshot tab = fold_left snap_step tab [].
Proof. reflexivity. Qed.

Lemma fold_snap_sorted (tab : list RWLockHashEntry) (m : cxx_map) :
  StronglySorted key_lt m -> StronglySorted key_lt (fold_left snap_step tab m).
Proof.
  revert m. induction tab as [| e tab IH]; intros m Hs; [exact Hs |].
  cbn [fold_left]. apply IH. unfold snap_step.
  destruct (is_state RWLOCK_OCCUPIED e); [apply map_assign_sorted, Hs | exact Hs].
Qed.

Lemma fold_snap_length (tab : list RWLockHashEntry) (m : cxx_map) :
  (length (fold_left snap_step tab m)
   <= length m + length (filter (is_state RWLOCK_OCCUPIED) tab))%nat.
Proof.
  revert m. induction tab as [| e tab IH]; intros m; [cbn; lia |].
  cbn [fold_left filter]. specialize (IH (snap_step m e)). unfold snap_step in *.
  destruct (is_state RWLOCK_OCCUPIED e); [| lia].
  pose proof (map_assign_length m (key e) (c_string (value e))). cbn [length]. lia.
Qed.

Lemma fold_snap_in (tab : list RWLockHashEntry) (m : cxx_map) (k : Z) (w : list byte) :
  In (k, w) (fold_left snap_step tab m) ->
  In (k, w) m
  \/ exists e, In e tab /\ key_matches k e = true /\ c_string (value e) = w.
Proof.
  revert m. induction tab as [| e tab IH]; intros m Hin; [left; exact Hin |].
  cbn [fold_left] in Hin. destruct (IH _ Hin) as [Hm | [e' [He' H']]].
  - unfold snap_step in Hm. destruct (is_state RWLOCK_OCCUPIED e) eqn:Ho; [| left; exact Hm].
    destruct (map_assign_in _ _ _ _ _ Hm) as [[-> ->] | Hm']; [| left; exact Hm'].
    right. exists e. split; [left; reflexivity |]. split; [| reflexivity].
    unfold key_matches. rewrite Ho, Z.eqb_refl. reflexivity.
  - right. exists e'. split; [right; exact He' | exact H'].
Qed.

Lemma fold_snap_keys (tab : list RWLockHashEntry) (m : cxx_map) (k : Z) :
  In k (map fst m) \/ (exists e, In e tab /\ key_matches k e = true) ->
  In k (map fst (fold_left snap_step tab m)).
Proof.
  revert m. induction tab as [| e tab IH]; intros m H.
  - destruct H as [H | [e [[] _]]]. exact H.
  - cbn [fold_left]. apply IH. destruct H as [H | [e' [[<- | He'] Hk]]].
    + left. unfold snap_step. destruct (is_state RWLOCK_OCCUPIED e);
        [apply map_assign_keys, H | exact H].
    + left. unfold snap_step. rewrite (key_matches_occupied _ _ Hk).
      apply key_matches_spec in Hk. destruct Hk as [_ <-]. apply map_assign_key.
    + right. exists e'. split; assumption.
Qed.

(** ** Logical content *)

Lemma holds_unique (sd : RWLockOptimizedSharedData) (k : Z) (w w' : list byte) :
  table_inv sd -> holds sd k w -> holds sd k w' -> w = w'.
Proof.
  intros Hinv [i [Hi <-]] [j [Hj <-]].
  rewrite (inv_unique sd Hinv k i j Hi Hj). reflexivity.
Qed.

Lemma holds_occupied (sd : RWLockOptimizedSharedData) (k : Z) (w : list byte) :
  holds sd k w -> key_occupied sd k.
Proof. intros [i [Hi _]]. exists i. exact Hi. Qed.

Lemma getRsc_holds (sd : RWLockOptimizedSharedData) (k : Z) (w : list byte) :
  table_inv sd -> holds sd k w -> getRsc sd k = w.
Proof.
  intros Hinv [i [Hi <-]]. unfold getRsc.
  rewrite (findEntry_occupied sd k i Hinv Hi).
  destruct Hi as [Hi _]. unfold in_table in Hi.
  destruct (Z.eqb_spec i (-1)) as [E | _]; [lia | reflexivity].
Qed.

Lemma getRsc_absent (sd : RWLockOptimizedSharedData) (k : Z) :
  ~ key_occupied sd k -> getRsc sd k = [].
Proof.
  intros Hno. unfold getRsc. rewrite (findEntry_absent sd k Hno). reflexivity.
Qed.

Lemma isContain_occupied (sd : RWLockOptimizedSharedData) (k : Z) :
  table_inv sd -> (isContain sd k = true <-> key_occupied sd k).
Proof.
  intros Hinv. unfold isContain. split.
  - intros H. apply negb_true_iff, Z.eqb_neq in H.
    eexists. apply findEntry_found, H.
  - intros [i Hi]. rewrite (findEntry_occupied sd k i Hinv Hi).
    destruct Hi as [Hi _]. unfold in_table in Hi.
    apply negb_true_iff, Z.eqb_neq. lia.
Qed.

Lemma holds_write (sd sd' : RWLockOptimizedSharedData) (r : Z) (e : RWLockHashEntry)
    (k : Z) (w : list byte) :
  length (hash_table sd) = 2048%nat -> in_table r ->
  hash_table sd' = set_entry sd r e ->
  (holds sd' k w <->
   (key_matches k e = true /\ c_string (value e) = w)
   \/ (exists i, i <> r /\ occupied_by sd k i /\ c_string (value (entry_at sd i)) = w)).
Proof.
  intros Hlen Hr Htab.
  assert (Hat : forall p, in_table p ->
                entry_at sd' p = if p =? r then e else entry_at sd p).
  { intros p Hp. apply entry_at_set; assumption. }
  split.
  - intros [i [[Hi Hk] Hw]]. rewrite (Hat i Hi) in Hk, Hw.
    destruct (Z.eqb_spec i r) as [-> | Hne].
    + left. split; assumption.
    + right. exists i. split; [exact Hne |]. split; [split; assumption | exact Hw].
  - intros [[Hk Hw] | [i [Hne [[Hi Hk] Hw]]]].
    + exists r. unfold occupied_by. rewrite (Hat r Hr), Z.eqb_refl.
      split; [split; assumption | exact Hw].
    + exists i. unfold occupied_by. rewrite (Hat i Hi).
      destruct (Z.eqb_spec i r) as [E | _]; [contradiction |].
      split; [split; assumption | exact Hw].
Qed.

(* Writing a slot that does not hold key [k] keeps the content under [k]. *)
Lemma holds_write_other (sd sd' : RWLockOptimizedSharedData) (r : Z)
    (e : RWLockHashEntry) (k : Z) (w : list byte) :
  length (hash_table sd) = 2048%nat -> in_table r ->
  hash_table sd' = set_entry sd r e ->
  ~ occupied_by sd k r ->
  holds sd k w -> holds sd' k w.
Proof.
  intros Hlen Hr Htab Hnot [i [Hi Hw]].
  apply (holds_write sd sd' r e k w Hlen Hr Htab). right.
  exists i. split; [| split; assumption].
  intros ->. apply Hnot, Hi.
Qed.

Lemma holds_new_entry (sd : RWLockOptimizedSharedData) (r k c d h : Z) (v : list byte)
    (k' : Z) (w : list byte) :
  length (hash_table sd) = 2048%nat -> in_table r ->
  is_state RWLOCK_OCCUPIED (entry_at sd r) = false ->
  (holds (mkShared c d (hash_seed sd) (set_entry sd r (new_entry k v h))) k' w
   <-> (k' = k /\ c_string (store_value v) = w) \/ holds sd k' w).
Proof.
  intros Hlen Hr Hfree.
  rewrite (holds_write sd (mkShared c d (hash_seed sd) (set_entry sd r (new_entry k v h)))
             r (new_entry k v h) k' w Hlen Hr eq_refl).
  unfold key_matches. cbn [new_entry is_state state key value state_eqb andb].
  rewrite Z.eqb_eq. split.
  - intros [[-> Hw] | [i [_ [Hi Hw]]]]; [left; split; [reflexivity | exact Hw] |].
    right. exists i. split; assumption.
  - intros [[-> Hw] | [i [Hi Hw]]]; [left; split; [reflexivity | exact Hw] |].
    right. exists i. split; [| split; assumption].
    intros ->. destruct Hi as [_ Hk]. apply key_matches_occupied in Hk. congruence.
Qed.

(** ** The re-insertion loop *)

Lemma reinsert_spec (l : cxx_map) :
  forall sd,
    table_inv sd ->
    NoDup (map fst l) ->
    (forall k, In k (map fst l) -> ~ key_occupied sd k) ->
    (occ_count sd + length l <= 2048)%nat ->
    Forall clean_value l ->
    exists sd',
      reinsert sd l = (OK, sd')
      /\ table_inv sd'
      /\ hash_seed sd' = hash_seed sd
      /\ deleted_count sd' = deleted_count sd
      /\ current_count sd' = current_count sd + Z.of_nat (length l)
      /\ occ_count sd' = (occ_count sd + length l)%nat
      /\ (tomb_count sd' <= tomb_count sd)%nat
      /\ forall k w, holds sd' k w <-> holds sd k w \/ In (k, w) l.
Proof.
  induction l as [| [k v] l IH]; intros sd Hinv Hnd Hfresh Hroom Hclean.
  - exists sd. cbn [reinsert length].
    split; [reflexivity |]. split; [exact Hinv |].
    split; [reflexivity |]. split; [reflexivity |].
    split; [cbn; lia |]. split; [lia |]. split; [lia |].
    intros k w. split; [intros H; left; exact H | intros [H | []]; exact H].
  - cbn [reinsert].
    assert (Hk : ~ key_occupied sd k) by (apply Hfresh; left; reflexivity).
    pose proof (inv_len sd Hinv) as Hlen.
    set (r := findEmptySlot sd k (hash sd k)).
    assert (Hr : r <> -1).
    { intros E. destruct (findEmptySlot_full sd k E) as [Ho | Hall]; [exact (Hk Ho) |].
      destruct (exists_free_slot sd Hlen) as [i [Hi Hf]]; [cbn in Hroom; lia |].
      rewrite (Hall i Hi) in Hf. discriminate. }
    destruct (findEmptySlot_slot sd k Hr) as [Hch Hfree]. fold r in Hch, Hfree.
    pose proof (chain_ok_in_table sd k r Hch) as Hin.
    destruct (Z.eqb_spec r (-1)) as [E | _]; [contradiction |].
    set (sd1 := mkShared (current_count sd + 1) (deleted_count sd) (hash_seed sd)
                         (set_entry sd r (new_entry k v (hash sd k)))).
    assert (Hinv1 : table_inv sd1) by (apply inv_new_entry; assumption).
    assert (Hocc1 : occ_count sd1 = S (occ_count sd))
      by (apply occ_count_new_entry; assumption).
    assert (Hh1 : forall k' w, holds sd1 k' w
                  <-> (k' = k /\ c_string (store_value v) = w) \/ holds sd k' w)
      by (intros k' w; apply holds_new_entry; assumption).
    inversion Hnd as [| ? ? Hnotin Hnd']; subst.
    inversion Hclean as [| ? ? [Hcv Hlv] Hclean']; subst. cbn [snd] in Hcv, Hlv.
    assert (Hsv : c_string (store_value v) = v).
    { rewrite c_string_store_short; [exact Hcv | rewrite Hcv; exact Hlv]. }
    assert (Htomb1 : (tomb_count sd1 <= tomb_count sd)%nat).
    { pose proof (state_count_write RWLOCK_DELETED sd sd1 r
                    (new_entry k v (hash sd k)) Hlen Hin eq_refl) as Hc.
      unfold tomb_count. cbn [new_entry is_state state state_eqb] in Hc. lia. }
    destruct (IH sd1 Hinv1 Hnd')
      as [sd' [Hre [Hinv' [Hseed [Hdel [Hcur [Hocc [Htomb Hholds]]]]]]]].
    + intros k' Hk' [i Hi].
      assert (Hh : holds sd1 k' (c_string (value (entry_at sd1 i))))
        by (exists i; split; [exact Hi | reflexivity]).
      apply Hh1 in Hh. destruct Hh as [[-> _] | Hh].
      * apply Hnotin, Hk'.
      * apply (Hfresh k'); [right; exact Hk' | eapply holds_occupied, Hh].
    + rewrite Hocc1. cbn [length] in Hroom. lia.
    + exact Hclean'.
    + exists sd'. split; [exact Hre |]. split; [exact Hinv' |].
      split; [rewrite Hseed; reflexivity |].
      split; [rewrite Hdel; reflexivity |].
      split; [rewrite Hcur; cbn [sd1 current_count length]; lia |].
      split; [rewrite Hocc, Hocc1; cbn [length]; lia |].
      split; [lia |].
      intros k' w. rewrite Hholds, Hh1, Hsv. cbn [In]. split.
      * intros [[[-> ->] | H] | H]; [right; left; reflexivity | left; exact H | right; right; exact H].
      * intros [H | [E | H]]; [left; right; exact H | | right; exact H].
        inversion E; subst. left. left. split; reflexivity.
Qed.

(** ** The rebuild *)

Lemma cleared_no_key (sd : RWLockOptimizedSharedData) (k : Z) :
  ~ key_occupied (mkShared 0 0 (hash_seed sd) (clear_states (hash_table sd))) k.
Proof.
  intros [i [_ Hk]].
  rewrite (entry_at_clear sd (mkShared 0 0 (hash_seed sd) (clear_states (hash_table sd)))
             i eq_refl) in Hk.
  discriminate Hk.
Qed.

Lemma cleared_occ_count (sd : RWLockOptimizedSharedData) :
  occ_count (mkShared 0 0 (hash_seed sd) (clear_states (hash_table sd))) = 0%nat.
Proof.
  unfold occ_count, clear_states. cbn [hash_table].
  induction (hash_table sd) as [| e tab IH]; [reflexivity | exact IH].
Qed.

Lemma cleared_tomb_count (sd : RWLockOptimizedSharedData) :
  tomb_count (mkShared 0 0 (hash_seed sd) (clear_states (hash_table sd))) = 0%nat.
Proof.
  unfold tomb_count, clear_states. cbn [hash_table].
  induction (hash_table sd) as [| e tab IH]; [reflexivity | exact IH].
Qed.

Lemma snapshot_in (sd : RWLockOptimizedSharedData) (k : Z) (w : list byte) :
  table_inv sd -> (In (k, w) (snapshot (hash_table sd)) <-> holds sd k w).
Proof.
  intros Hinv. pose proof (inv_len sd Hinv) as Hlen.
  assert (Hfwd : forall w', In (k, w') (snapshot (hash_table sd)) -> holds sd k w').
  { intros w' Hin. rewrite snapshot_fold in Hin.
    destruct (fold_snap_in _ _ _ _ Hin) as [[] | [e [He [Hk Hw]]]].
    destruct (in_entry_at sd e Hlen He) as [p [Hp E]].
    exists p. unfold occupied_by. rewrite E. split; [split; assumption | exact Hw]. }
  split; [apply Hfwd |].
  intros Hh. pose proof Hh as [i [[Hi Hk] Hw]].
  assert (Hkey : In k (map fst (snapshot (hash_table sd)))).
  { rewrite snapshot_fold. apply fold_snap_keys. right.
    exists (entry_at sd i). split; [apply entry_at_in; assumption | exact Hk]. }
  apply in_map_iff in Hkey. destruct Hkey as [[k' w'] [E Hin]]. cbn in E. subst k'.
  rewrite (holds_unique sd k w w' Hinv Hh (Hfwd w' Hin)). exact Hin.
Qed.

Lemma snapshot_clean (sd : RWLockOptimizedSharedData) :
  table_inv sd -> Forall clean_value (snapshot (hash_table sd)).
Proof.
  intros Hinv. apply Forall_forall. intros [k w] Hin.
  apply (snapshot_in sd k w Hinv) in Hin. destruct Hin as [i [[Hi _] <-]].
  unfold clean_value. cbn [snd]. split; [apply c_string_idem |].
  destruct (inv_nul sd Hinv i Hi) as [Hl Hn].
  apply c_string_length_nul in Hn. lia.
Qed.

Lemma rebuild_spec (sd : RWLockOptimizedSharedData) :
  table_inv sd ->
  exists sd',
    rebuild sd = (OK, sd')
    /\ table_inv sd'
    /\ hash_seed sd' = hash_seed sd
    /\ deleted_count sd' = 0
    /\ current_count sd' = Z.of_nat (occ_count sd')
    /\ (occ_count sd' <= occ_count sd)%nat
    /\ tomb_count sd' = 0%nat
    /\ forall k w, holds sd' k w <-> holds sd k w.
Proof.
  intros Hinv. unfold rebuild.
  set (sd0 := mkShared 0 0 (hash_seed sd) (clear_states (hash_table sd))).
  assert (Hsnap : (length (snapshot (hash_table sd)) <= occ_count sd)%nat).
  { rewrite snapshot_fold. pose proof (fold_snap_length (hash_table sd) []).
    unfold occ_count. cbn [length] in *. lia. }
  destruct (reinsert_spec (snapshot (hash_table sd)) sd0)
    as [sd' [Hre [Hinv' [Hseed [Hdel [Hcur [Hocc [Htomb Hholds]]]]]]]].
  - apply inv_cleared, Hinv.
  - apply sorted_keys_NoDup. rewrite snapshot_fold. apply fold_snap_sorted. constructor.
  - intros k _. apply cleared_no_key.
  - unfold sd0. rewrite cleared_occ_count.
    pose proof (occ_count_le sd). rewrite (inv_len sd Hinv) in *. lia.
  - apply snapshot_clean, Hinv.
  - exists sd'. split; [exact Hre |]. split; [exact Hinv' |].
    split; [exact Hseed |]. split; [exact Hdel |].
    assert (Hocc' : occ_count sd' = length (snapshot (hash_table sd))).
    { rewrite Hocc. unfold sd0. rewrite cleared_occ_count. reflexivity. }
    split; [rewrite Hcur, Hocc'; reflexivity |].
    split; [rewrite Hocc'; exact Hsnap |].
    split; [unfold sd0 in Htomb; rewrite cleared_tomb_count in Htomb; lia |].
    + intros k w. rewrite Hholds, (snapshot_in sd k w Hinv). split.
      * intros [H | H]; [| exact H]. exfalso.
        exact (cleared_no_key sd k (holds_occupied _ _ _ H)).
      * intros H. right. exact H.
Qed.

Lemma rehashIfNeeded_spec (sd : RWLockOptimizedSharedData) :
  table_inv sd ->
  exists sd',
    rehashIfNeeded sd = (OK, sd')
    /\ table_inv sd'
    /\ hash_seed sd' = hash_seed sd
    /\ (needRehash sd = false -> sd' = sd)
    /\ (needRehash sd = true ->
        deleted_count sd' = 0 /\ current_count sd' = Z.of_nat (occ_count sd')
        /\ (occ_count sd' <= occ_count sd)%nat /\ tomb_count sd' = 0%nat)
    /\ forall k w, holds sd' k w <-> holds sd k w.
Proof.
  intros Hinv. unfold rehashIfNeeded. destruct (needRehash sd) eqn:Hn; cbn [negb].
  - destruct (rebuild_spec sd Hinv)
      as [sd' [Hre [Hinv' [Hseed [Hdel [Hcur [Hle [Htomb Hholds]]]]]]]].
    exists sd'. split; [exact Hre |]. split; [exact Hinv' |].
    split; [exact Hseed |]. split; [discriminate |].
    split; [intros _; repeat split; assumption | exact Hholds].
  - exists sd. split; [reflexivity |]. split; [exact Hinv |].
    split; [reflexivity |]. split; [reflexivity |].
    split; [discriminate | reflexivity].
Qed.

(** ** The public operations on a well-formed table *)

Lemma holds_except (sd : RWLockOptimizedSharedData) (k r k' : Z) (w : list byte) :
  table_inv sd -> occupied_by sd k r ->
  ((exists i, i <> r /\ occupied_by sd k' i /\ c_string (value (entry_at sd i)) = w)
   <-> k' <> k /\ holds sd k' w).
Proof.
  intros Hinv Hr. split.
  - intros [i [Hne [Hi Hw]]]. split; [| exists i; split; assumption].
    intros ->. apply Hne. apply (inv_unique sd Hinv k); assumption.
  - intros [Hne [i [Hi Hw]]]. exists i. split; [| split; assumption].
    intros ->. apply Hne.
    destruct Hi as [_ Hi], Hr as [_ Hr].
    apply key_matches_spec in Hi, Hr. destruct Hi as [_ <-], Hr as [_ <-]. reflexivity.
Qed.

Lemma holds_overwrite (sd : RWLockOptimizedSharedData) (k r : Z) (v : list byte)
    (k' : Z) (w : list byte) :
  table_inv sd -> occupied_by sd k r ->
  (holds (overwrite_at sd r v) k' w
   <-> (k' = k /\ c_string (store_value v) = w) \/ (k' <> k /\ holds sd k' w)).
Proof.
  intros Hinv Hr. pose proof Hr as [Hin Hk].
  rewrite (holds_write sd (overwrite_at sd r v) r (set_value v (entry_at sd r)) k' w
             (inv_len sd Hinv) Hin eq_refl).
  rewrite (holds_except sd k r k' w Hinv Hr).
  assert (E : key_matches k' (set_value v (entry_at sd r)) = true <-> k' = k).
  { rewrite key_matches_spec. cbn [set_value state key].
    apply key_matches_spec in Hk. destruct Hk as [Hs <-]. split.
    - intros [_ H]. symmetry. exact H.
    - intros ->. split; [exact Hs | reflexivity]. }
  cbn [set_value value]. rewrite E. reflexivity.
Qed.

Lemma holds_tombstone (sd : RWLockOptimizedSharedData) (k r c d k' : Z) (w : list byte) :
  table_inv sd -> occupied_by sd k r ->
  (holds (mkShared c d (hash_seed sd)
            (set_entry sd r (set_state RWLOCK_DELETED (entry_at sd r)))) k' w
   <-> k' <> k /\ holds sd k' w).
Proof.
  intros Hinv Hr. pose proof Hr as [Hin Hk].
  rewrite (holds_write sd (mkShared c d (hash_seed sd)
                             (set_entry sd r (set_state RWLOCK_DELETED (entry_at sd r))))
             r (set_state RWLOCK_DELETED (entry_at sd r)) k' w
             (inv_len sd Hinv) Hin eq_refl).
  rewrite (holds_except sd k r k' w Hinv Hr).
  split; [intros [[H _] | H]; [discriminate H | exact H] | intros H; right; exact H].
Qed.

Lemma insert_at_spec (sd : RWLockOptimizedSharedData) (k : Z) (v : list byte) :
  table_inv sd ->
  findEmptySlot sd k (hash sd k) <> -1 ->
  let sd' := insert_at sd (findEmptySlot sd k (hash sd k)) k v (hash sd k) in
  table_inv sd'
  /\ hash_seed sd' = hash_seed sd
  /\ ~ key_occupied sd k
  /\ forall k' w, holds sd' k' w
                  <-> (k' = k /\ c_string (store_value v) = w) \/ holds sd k' w.
Proof.
  intros Hinv Hr. cbv zeta.
  destruct (findEmptySlot_slot sd k Hr) as [Hch Hfree].
  assert (Hno : ~ key_occupied sd k).
  { intros Ho. apply Hr. apply findEmptySlot_duplicate; assumption. }
  unfold insert_at. split; [apply inv_new_entry; assumption |].
  split; [reflexivity |]. split; [exact Hno |].
  intros k' w. apply holds_new_entry; [apply (inv_len sd Hinv) | | exact Hfree].
  eapply chain_ok_in_table, Hch.
Qed.

Lemma addRsc_spec (sd : RWLockOptimizedSharedData) (k : Z) (v : list byte) :
  table_inv sd ->
  table_inv (snd (addRsc sd k v))
  /\ hash_seed (snd (addRsc sd k v)) = hash_seed sd
  /\ (forall k' w, holds sd k' w -> holds (snd (addRsc sd k v)) k' w)
  /\ (fst (addRsc sd k v) = OK ->
      too_long v = false /\ ~ key_occupied sd k
      /\ holds (snd (addRsc sd k v)) k (c_string (store_value v))).
Proof.
  intros Hinv. unfold addRsc. destruct (too_long v) eqn:Hlong.
  - cbn [fst snd]. split; [exact Hinv |]. split; [reflexivity |].
    split; [intros k' w H; exact H | discriminate].
  - destruct (rehashIfNeeded_spec sd Hinv)
      as [sd1 [Hre [Hinv1 [Hseed1 [_ [_ Hholds1]]]]]].
    rewrite Hre. change (negb (OK =? OK)) with false. cbv iota.
    destruct (Z.eqb_spec (findEmptySlot sd1 k (hash sd1 k)) (-1)) as [E | Hne].
    + cbn [fst snd]. split; [exact Hinv1 |]. split; [exact Hseed1 |].
      split; [intros k' w H; apply Hholds1, H |].
      destruct (RWLOCK_MAX_ENTRIES <=? current_count sd1); discriminate.
    + destruct (insert_at_spec sd1 k v Hinv1 Hne) as [Hinv2 [Hseed2 [Hno Hholds2]]].
      cbn [fst snd]. split; [exact Hinv2 |].
      split; [rewrite Hseed2; exact Hseed1 |].
      split; [intros k' w H; apply Hholds2; right; apply Hholds1, H |].
      intros _. split; [reflexivity |]. split.
      * intros [i Hi]. apply Hno.
        apply (holds_occupied sd1 k (c_string (value (entry_at sd i)))).
        apply Hholds1. exists i. split; [exact Hi | reflexivity].
      * apply Hholds2. left. split; reflexivity.
Qed.

Lemma updateRsc_spec (sd : RWLockOptimizedSharedData) (k : Z) (v : list byte) :
  table_inv sd ->
  table_inv (snd (updateRsc sd k v))
  /\ hash_seed (snd (updateRsc sd k v)) = hash_seed sd
  /\ (forall k' w, k' <> k -> holds sd k' w -> holds (snd (updateRsc sd k v)) k' w)
  /\ (fst (updateRsc sd k v) = OK ->
      too_long v = false
      /\ holds (snd (updateRsc sd k v)) k (c_string (store_value v))).
Proof.
  intros Hinv. unfold updateRsc. destruct (too_long v) eqn:Hlong.
  - cbn [fst snd]. split; [exact Hinv |]. split; [reflexivity |].
    split; [intros k' w _ H; exact H | discriminate].
  - destruct (Z.eqb_spec (findEntry sd k (hash sd k)) (-1)) as [E | Hne].
    + cbn [fst snd]. split; [exact Hinv |]. split; [reflexivity |].
      split; [intros k' w _ H; exact H | discriminate].
    + pose proof (findEntry_found sd k Hne) as Ho.
      cbn [fst snd]. split; [eapply inv_overwrite; eassumption |].
      split; [reflexivity |]. split.
      * intros k' w Hk' H. apply (holds_overwrite sd k _ v k' w Hinv Ho).
        right. split; assumption.
      * intros _. split; [reflexivity |].
        apply (holds_overwrite sd k _ v k _ Hinv Ho). left. split; reflexivity.
Qed.

Lemma upsertRsc_spec (sd : RWLockOptimizedSharedData) (k : Z) (v : list byte) :
  table_inv sd ->
  table_inv (snd (upsertRsc sd k v))
  /\ hash_seed (snd (upsertRsc sd k v)) = hash_seed sd
  /\ (forall k' w, k' <> k -> holds sd k' w -> holds (snd (upsertRsc sd k v)) k' w)
  /\ (fst (upsertRsc sd k v) = OK ->
      too_long v = false
      /\ holds (snd (upsertRsc sd k v)) k (c_string (store_value v))).
Proof.
  intros Hinv. unfold upsertRsc. destruct (too_long v) eqn:Hlong.
  - cbn [fst snd]. split; [exact Hinv |]. split; [reflexivity |].
    split; [intros k' w _ H; exact H | discriminate].
  - destruct (Z.eqb_spec (findEntry sd k (hash sd k)) (-1)) as [E | Hne]; cbn [negb].
    + destruct (rehashIfNeeded_spec sd Hinv)
        as [sd1 [Hre [Hinv1 [Hseed1 [_ [_ Hholds1]]]]]].
      rewrite Hre. change (negb (OK =? OK)) with false. cbv iota.
      assert (Eh : hash sd k = hash sd1 k) by (unfold hash; rewrite Hseed1; reflexivity).
      rewrite Eh.
      destruct (Z.eqb_spec (findEmptySlot sd1 k (hash sd1 k)) (-1)) as [E' | Hne'].
      * cbn [fst snd]. split; [exact Hinv1 |]. split; [exact Hseed1 |].
        split; [intros k' w _ H; apply Hholds1, H | discriminate].
      * destruct (insert_at_spec sd1 k v Hinv1 Hne') as [Hinv2 [Hseed2 [Hno Hholds2]]].
        cbn [fst snd]. split; [exact Hinv2 |].
        split; [rewrite Hseed2; exact Hseed1 |].
        split; [intros k' w _ H; apply Hholds2; right; apply Hholds1, H |].
        intros _. split; [reflexivity |].
        apply Hholds2. left. split; reflexivity.
    + pose proof (findEntry_found sd k Hne) as Ho.
      cbn [fst snd]. split; [eapply inv_overwrite; eassumption |].
      split; [reflexivity |]. split.
      * intros k' w Hk' H. apply (holds_overwrite sd k _ v k' w Hinv Ho).
        right. split; assumption.
      * intros _. split; [reflexivity |].
        apply (holds_overwrite sd k _ v k _ Hinv Ho). left. split; reflexivity.
Qed.

Lemma removeRsc_spec (sd : RWLockOptimizedSharedData) (k : Z) :
  table_inv sd ->
  table_inv (snd (removeRsc sd k))
  /\ hash_seed (snd (removeRsc sd k)) = hash_seed sd
  /\ (forall k' w, k' <> k -> holds sd k' w -> holds (snd (removeRsc sd k)) k' w)
  /\ ~ key_occupied (snd (removeRsc sd k)) k.
Proof.
  intros Hinv. unfold removeRsc.
  destruct (Z.eqb_spec (findEntry sd k (hash sd k)) (-1)) as [E | Hne].
  - cbn [fst snd]. split; [exact Hinv |]. split; [reflexivity |].
    split; [intros k' w _ H; exact H |].
    intros [i Hi]. rewrite (findEntry_occupied sd k i Hinv Hi) in E.
    destruct Hi as [Hi _]. unfold in_table in Hi. lia.
  - pose proof (findEntry_found sd k Hne) as Ho.
    cbn [fst snd]. split; [apply inv_tombstone; [exact Hinv | apply Ho] |].
    split; [reflexivity |]. split.
    + intros k' w Hk' H. apply (holds_tombstone sd k _ _ _ k' w Hinv Ho).
      split; assumption.
    + intros [i Hi].
      assert (Hh : holds (mkShared (current_count sd - 1) (deleted_count sd + 1)
                            (hash_seed sd)
                            (set_entry sd (findEntry sd k (hash sd k))
                               (set_state RWLOCK_DELETED
                                  (entry_at sd (findEntry sd k (hash sd k))))))
                     k (c_string (value (entry_at
                          (mkShared (current_count sd - 1) (deleted_count sd + 1)
                            (hash_seed sd)
                            (set_entry sd (findEntry sd k (hash sd k))
                               (set_state RWLOCK_DELETED
                                  (entry_at sd (findEntry sd k (hash sd k)))))) i))))
        by (exists i; split; [exact Hi | reflexivity]).
      apply (holds_tombstone sd k _ _ _ k _ Hinv Ho) in Hh. destruct Hh as [Hh _].
      apply Hh. reflexivity.
Qed.

Lemma clearRsc_spec (sd : RWLockOptimizedSharedData) :
  table_inv sd ->
  table_inv (snd (clearRsc sd)) /\ hash_seed (snd (clearRsc sd)) = hash_seed sd.
Proof.
  intros Hinv. split; [apply inv_cleared, Hinv | reflexivity].
Qed.

Lemma batch_step_spec (sd : RWLockOptimizedSharedData) (c : Z) (pair : Z * list byte) :
  table_inv sd ->
  table_inv (fst (batch_step (sd, c) pair))
  /\ hash_seed (fst (batch_step (sd, c) pair)) = hash_seed sd
  /\ forall k' w, k' <> fst pair -> holds sd k' w ->
                  holds (fst (batch_step (sd, c) pair)) k' w.
Proof.
  intros Hinv. unfold batch_step. destruct (too_long (snd pair)).
  - cbn [fst]. split; [exact Hinv |]. split; [reflexivity | intros k' w _ H; exact H].
  - destruct (Z.eqb_spec (findEntry sd (fst pair) (hash sd (fst pair))) (-1))
      as [E | Hne]; cbn [negb fst].
    + split; [exact Hinv |]. split; [reflexivity | intros k' w _ H; exact H].
    + pose proof (findEntry_found sd (fst pair) Hne) as Ho.
      split; [eapply inv_overwrite; eassumption |]. split; [reflexivity |].
      intros k' w Hk' H. apply (holds_overwrite sd (fst pair) _ (snd pair) k' w Hinv Ho).
      right. split; assumption.
Qed.

Lemma batch_fold_spec (m : cxx_map) :
  forall sd c,
    table_inv sd ->
    table_inv (fst (fold_left batch_step m (sd, c)))
    /\ hash_seed (fst (fold_left batch_step m (sd, c))) = hash_seed sd
    /\ forall k' w, ~ In k' (map fst m) -> holds sd k' w ->
                    holds (fst (fold_left batch_step m (sd, c))) k' w.
Proof.
  induction m as [| pair m IH]; intros sd c Hinv.
  - cbn. split; [exact Hinv |]. split; [reflexivity | intros k' w _ H; exact H].
  - cbn [fold_left].
    destruct (batch_step_spec sd c pair Hinv) as [Hinv1 [Hseed1 Hkeep1]].
    destruct (batch_step (sd, c) pair) as [sd1 c1] eqn:Hstep. cbn [fst] in *.
    destruct (IH sd1 c1 Hinv1) as [Hinv2 [Hseed2 Hkeep2]].
    split; [exact Hinv2 |]. split; [rewrite Hseed2; exact Hseed1 |].
    intros k' w Hnot H. apply Hkeep2.
    + intros Hin. apply Hnot. right. exact Hin.
    + apply Hkeep1; [| exact H]. intros ->. apply Hnot. left. reflexivity.
Qed.

Lemma batchUpdateRsc_snd (sd : RWLockOptimizedSharedData) (m : cxx_map) :
  snd (batchUpdateRsc sd m) = fst (fold_left batch_step m (sd, 0)).
Proof.
  unfold batchUpdateRsc. destruct (fold_left batch_step m (sd, 0)). reflexivity.
Qed.

Lemma exec_inv (sd : RWLockOptimizedSharedData) (o : op) :
  table_inv sd ->
  table_inv (snd (exec sd o)) /\ hash_seed (snd (exec sd o)) = hash_seed sd.
Proof.
  intros Hinv. destruct o as [k v | k v | k v | k | | m]; cbn [exec].
  - destruct (addRsc_spec sd k v Hinv) as [H1 [H2 _]]. split; assumption.
  - destruct (updateRsc_spec sd k v Hinv) as [H1 [H2 _]]. split; assumption.
  - destruct (upsertRsc_spec sd k v Hinv) as [H1 [H2 _]]. split; assumption.
  - destruct (removeRsc_spec sd k Hinv) as [H1 [H2 _]]. split; assumption.
  - apply clearRsc_spec, Hinv.
  - rewrite batchUpdateRsc_snd.
    destruct (batch_fold_spec m sd 0 Hinv) as [H1 [H2 _]]. split; assumption.
Qed.

Lemma exec_keeps (sd : RWLockOptimizedSharedData) (o : op) (k : Z) (w : list byte) :
  table_inv sd -> ~ touches k o -> holds sd k w -> holds (snd (exec sd o)) k w.
Proof.
  intros Hinv Hnt Hh. destruct o as [k' v | k' v | k' v | k' | | m]; cbn [exec touches] in *.
  - apply (addRsc_spec sd k' v Hinv), Hh.
  - apply (updateRsc_spec sd k' v Hinv); [congruence | exact Hh].
  - apply (upsertRsc_spec sd k' v Hinv); [congruence | exact Hh].
  - apply (removeRsc_spec sd k' Hinv); [congruence | exact Hh].
  - exfalso. apply Hnt. exact I.
  - rewrite batchUpdateRsc_snd. apply (batch_fold_spec m sd 0 Hinv); assumption.
Qed.

Lemma run_inv (ops : list op) :
  forall sd, table_inv sd ->
    table_inv (run sd ops) /\ hash_seed (run sd ops) = hash_seed sd.
Proof.
  induction ops as [| o ops IH]; intros sd Hinv; [split; [exact Hinv | reflexivity] |].
  unfold run in *. cbn [fold_left].
  destruct (exec_inv sd o Hinv) as [H1 H2].
  destruct (IH _ H1) as [H3 H4]. split; [exact H3 | rewrite H4; exact H2].
Qed.

Lemma run_keeps (ops : list op) (k : Z) (w : list byte) :
  forall sd, table_inv sd ->
    Forall (fun o => ~ touches k o) ops ->
    holds sd k w -> holds (run sd ops) k w.
Proof.
  induction ops as [| o ops IH]; intros sd Hinv Hnt Hh; [exact Hh |].
  unfold run in *. cbn [fold_left]. inversion Hnt as [| ? ? Ho Hops]; subst.
  apply IH; [apply exec_inv, Hinv | exact Hops |].
  apply exec_keeps; assumption.
Qed.

Lemma reachable_inv (sd : RWLockOptimizedSharedData) : reachable sd -> table_inv sd.
Proof.
  intros [seed [ops ->]]. apply run_inv, inv_init.
Qed.

(** ** The counters agree with the slot states *)

Lemma insert_at_counts (sd : RWLockOptimizedSharedData) (k h : Z) (v : list byte) :
  table_inv sd -> counts_ok sd ->
  findEmptySlot sd k (hash sd k) <> -1 ->
  counts_ok (insert_at sd (findEmptySlot sd k (hash sd k)) k v h).
Proof.
  intros Hinv [Hc Hd] Hr.
  destruct (findEmptySlot_slot sd k Hr) as [Hch Hfree].
  pose proof (chain_ok_in_table sd k _ Hch) as Hin.
  pose proof (inv_len sd Hinv) as Hlen.
  set (r := findEmptySlot sd k (hash sd k)) in *.
  pose proof (state_count_write RWLOCK_OCCUPIED sd (insert_at sd r k v h) r
                (new_entry k v h) Hlen Hin eq_refl) as Ho.
  pose proof (state_count_write RWLOCK_DELETED sd (insert_at sd r k v h) r
                (new_entry k v h) Hlen Hin eq_refl) as Ht.
  rewrite Hfree in Ho. cbn [new_entry is_state state state_eqb] in Ho, Ht.
  unfold counts_ok, occ_count, tomb_count, insert_at in *.
  cbn [current_count deleted_count hash_table] in *.
  destruct (is_state RWLOCK_DELETED (entry_at sd r)); split; lia.
Qed.

Lemma overwrite_at_counts (sd : RWLockOptimizedSharedData) (r : Z) (v : list byte) :
  length (hash_table sd) = 2048%nat -> in_table r -> counts_ok sd ->
  counts_ok (overwrite_at sd r v).
Proof.
  intros Hlen Hin [Hc Hd].
  pose proof (state_count_write RWLOCK_OCCUPIED sd (overwrite_at sd r v) r
                (set_value v (entry_at sd r)) Hlen Hin eq_refl) as Ho.
  pose proof (state_count_write RWLOCK_DELETED sd (overwrite_at sd r v) r
                (set_value v (entry_at sd r)) Hlen Hin eq_refl) as Ht.
  change (is_state RWLOCK_OCCUPIED (set_value v (entry_at sd r)))
    with (is_state RWLOCK_OCCUPIED (entry_at sd r)) in Ho.
  change (is_state RWLOCK_DELETED (set_value v (entry_at sd r)))
    with (is_state RWLOCK_DELETED (entry_at sd r)) in Ht.
  unfold counts_ok, occ_count, tomb_count, overwrite_at in *.
  cbn [current_count deleted_count hash_table] in *. split; lia.
Qed.

Lemma tombstone_counts (sd : RWLockOptimizedSharedData) (k r : Z) :
  length (hash_table sd) = 2048%nat -> occupied_by sd k r -> counts_ok sd ->
  counts_ok (mkShared (current_count sd - 1) (deleted_count sd + 1) (hash_seed sd)
               (set_entry sd r (set_state RWLOCK_DELETED (entry_at sd r)))).
Proof.
  intros Hlen [Hin Hk] [Hc Hd].
  set (sd' := mkShared _ _ _ _).
  pose proof (state_count_write RWLOCK_OCCUPIED sd sd' r
                (set_state RWLOCK_DELETED (entry_at sd r)) Hlen Hin eq_refl) as Ho.
  pose proof (state_count_write RWLOCK_DELETED sd sd' r
                (set_state RWLOCK_DELETED (entry_at sd r)) Hlen Hin eq_refl) as Ht.
  pose proof (key_matches_occupied _ _ Hk) as Hocc.
  destruct (state_cases (entry_at sd r)) as [C | [C | C]];
    destruct C as [CE [CO CD]]; try congruence.
  rewrite CO in Ho. rewrite CD in Ht.
  cbn [set_state is_state state state_eqb] in Ho, Ht.
  unfold counts_ok, occ_count, tomb_count, sd' in *.
  cbn [current_count deleted_count hash_table] in *. split; lia.
Qed.

Lemma cleared_counts (sd : RWLockOptimizedSharedData) :
  counts_ok (mkShared 0 0 (hash_seed sd) (clear_states (hash_table sd))).
Proof.
  unfold counts_ok. rewrite cleared_occ_count, cleared_tomb_count. split; reflexivity.
Qed.

Lemma rehashIfNeeded_counts (sd sd' : RWLockOptimizedSharedData) :
  table_inv sd -> counts_ok sd -> rehashIfNeeded sd = (OK, sd') ->
  counts_ok sd' /\ current_count sd' <= current_count sd.
Proof.
  intros Hinv Hc Hre.
  destruct (rehashIfNeeded_spec sd Hinv) as [sd1 [Hre1 [_ [_ [Hsame [Hnew _]]]]]].
  rewrite Hre in Hre1. inversion Hre1; subst sd1.
  destruct (needRehash sd) eqn:Hn.
  - destruct (Hnew eq_refl) as [Hd [Hcur [Hle Htomb]]].
    destruct Hc as [Hc _]. unfold counts_ok. rewrite Hd, Htomb. repeat split; lia.
  - rewrite (Hsame eq_refl). split; [exact Hc | lia].
Qed.

Lemma addRsc_counts (sd : RWLockOptimizedSharedData) (k : Z) (v : list byte) :
  table_inv sd -> counts_ok sd -> counts_ok (snd (addRsc sd k v)).
Proof.
  intros Hinv Hc. unfold addRsc. destruct (too_long v); [exact Hc |].
  destruct (rehashIfNeeded_spec sd Hinv) as [sd1 [Hre [Hinv1 _]]].
  destruct (rehashIfNeeded_counts sd sd1 Hinv Hc Hre) as [Hc1 _].
  rewrite Hre. change (negb (OK =? OK)) with false. cbv iota.
  destruct (Z.eqb_spec (findEmptySlot sd1 k (hash sd1 k)) (-1)) as [E | Hne];
    [exact Hc1 | apply insert_at_counts; assumption].
Qed.

Lemma updateRsc_counts (sd : RWLockOptimizedSharedData) (k : Z) (v : list byte) :
  table_inv sd -> counts_ok sd -> counts_ok (snd (updateRsc sd k v)).
Proof.
  intros Hinv Hc. unfold updateRsc. destruct (too_long v); [exact Hc |].
  destruct (Z.eqb_spec (findEntry sd k (hash sd k)) (-1)) as [E | Hne]; [exact Hc |].
  apply overwrite_at_counts; [apply (inv_len sd Hinv) | | exact Hc].
  apply (findEntry_found sd k Hne).
Qed.

Lemma upsertRsc_counts (sd : RWLockOptimizedSharedData) (k : Z) (v : list byte) :
  table_inv sd -> counts_ok sd -> counts_ok (snd (upsertRsc sd k v)).
Proof.
  intros Hinv Hc. unfold upsertRsc. destruct (too_long v); [exact Hc |].
  destruct (Z.eqb_spec (findEntry sd k (hash sd k)) (-1)) as [E | Hne]; cbn [negb].
  - destruct (rehashIfNeeded_spec sd Hinv) as [sd1 [Hre [Hinv1 [Hseed1 _]]]].
    destruct (rehashIfNeeded_counts sd sd1 Hinv Hc Hre) as [Hc1 _].
    rewrite Hre. change (negb (OK =? OK)) with false. cbv iota.
    assert (Eh : hash sd k = hash sd1 k) by (unfold hash; rewrite Hseed1; reflexivity).
    rewrite Eh.
    destruct (Z.eqb_spec (findEmptySlot sd1 k (hash sd1 k)) (-1)) as [E' | Hne'];
      [exact Hc1 | apply insert_at_counts; assumption].
  - apply overwrite_at_counts; [apply (inv_len sd Hinv) | | exact Hc].
    apply (findEntry_found sd k Hne).
Qed.

Lemma removeRsc_counts (sd : RWLockOptimizedSharedData) (k : Z) :
  table_inv sd -> counts_ok sd -> counts_ok (snd (removeRsc sd k)).
Proof.
  intros Hinv Hc. unfold removeRsc.
  destruct (Z.eqb_spec (findEntry sd k (hash sd k)) (-1)) as [E | Hne]; [exact Hc |].
  apply (tombstone_counts sd k); [apply (inv_len sd Hinv) | | exact Hc].
  apply (findEntry_found sd k Hne).
Qed.

Lemma batch_fold_counts (m : cxx_map) :
  forall sd c, table_inv sd -> counts_ok sd ->
    counts_ok (fst (fold_left batch_step m (sd, c))).
Proof.
  induction m as [| pair m IH]; intros sd c Hinv Hc; [exact Hc |].
  cbn [fold_left].
  destruct (batch_step_spec sd c pair Hinv) as [Hinv1 _].
  assert (Hc1 : counts_ok (fst (batch_step (sd, c) pair))).
  { unfold batch_step. destruct (too_long (snd pair)); [exact Hc |].
    destruct (Z.eqb_spec (findEntry sd (fst pair) (hash sd (fst pair))) (-1))
      as [E | Hne]; cbn [negb fst]; [exact Hc |].
    apply overwrite_at_counts; [apply (inv_len sd Hinv) | | exact Hc].
    apply (findEntry_found sd (fst pair) Hne). }
  destruct (batch_step (sd, c) pair) as [sd1 c1]. apply IH; assumption.
Qed.

Lemma exec_counts (sd : RWLockOptimizedSharedData) (o : op) :
  table_inv sd -> counts_ok sd -> counts_ok (snd (exec sd o)).
Proof.
  intros Hinv Hc. destruct o as [k v | k v | k v | k | | m]; cbn [exec].
  - apply addRsc_counts; assumption.
  - apply updateRsc_counts; assumption.
  - apply upsertRsc_counts; assumption.
  - apply removeRsc_counts; assumption.
  - apply cleared_counts.
  - rewrite batchUpdateRsc_snd. apply batch_fold_counts; assumption.
Qed.

Lemma run_counts (ops : list op) :
  forall sd, table_inv sd -> counts_ok sd -> counts_ok (run sd ops).
Proof.
  induction ops as [| o ops IH]; intros sd Hinv Hc; [exact Hc |].
  unfold run in *. cbn [fold_left].
  apply IH; [apply exec_inv, Hinv | apply exec_counts; assumption].
Qed.

Lemma init_counts (seed : Z) : counts_ok (init seed).
Proof.
  unfold counts_ok, occ_count, tomb_count, init. cbn [hash_table current_count deleted_count].
  assert (H : forall st n, st <> RWLOCK_EMPTY ->
            filter (is_state st) (repeat empty_entry n) = []).
  { intros st n Hst. induction n as [| n IH]; [reflexivity |].
    cbn [repeat filter]. destruct st; [congruence | exact IH | exact IH]. }
  rewrite !H by discriminate. split; reflexivity.
Qed.

Lemma reachable_counts (sd : RWLockOptimizedSharedData) : reachable sd -> counts_ok sd.
Proof.
  intros [seed [ops ->]]. apply run_counts; [apply inv_init | apply init_counts].
Qed.

Lemma state_counts_le (tab : list RWLockHashEntry) :
  (length (filter (is_state RWLOCK_OCCUPIED) tab)
   + length (filter (is_state RWLOCK_DELETED) tab) <= length tab)%nat.
Proof.
  induction tab as [| e tab IH]; [cbn; lia |].
  cbn [filter length].
  destruct (state_cases e) as [C | [C | C]]; destruct C as [CE [CO CD]];
    rewrite CO, CD; cbn [length]; lia.
Qed.

Lemma reachable_count_bounds (sd : RWLockOptimizedSharedData) :
  reachable sd ->
  0 <= current_count sd <= RWLOCK_HASH_TABLE_SIZE
  /\ 0 <= deleted_count sd
  /\ current_count sd + deleted_count sd <= RWLOCK_HASH_TABLE_SIZE.
Proof.
  intros Hr. destruct (reachable_counts sd Hr) as [Hc Hd].
  pose proof (inv_len sd (reachable_inv sd Hr)) as Hlen.
  pose proof (state_counts_le (hash_table sd)) as Hle.
  unfold occ_count, tomb_count, RWLOCK_HASH_TABLE_SIZE in *. lia.
Qed.

Lemma getRsc_ext (sd sd' : RWLockOptimizedSharedData) (k : Z) :
  table_inv sd -> table_inv sd' ->
  (forall k' w, holds sd' k' w <-> holds sd k' w) ->
  getRsc sd' k = getRsc sd k /\ isContain sd' k = isContain sd k.
Proof.
  intros Hinv Hinv' Hsame.
  assert (Hocc : key_occupied sd' k <-> key_occupied sd k).
  { split; intros [i Hi].
    - apply (holds_occupied sd k (c_string (value (entry_at sd' i)))).
      apply Hsame. exists i. split; [exact Hi | reflexivity].
    - apply (holds_occupied sd' k (c_string (value (entry_at sd i)))).
      apply Hsame. exists i. split; [exact Hi | reflexivity]. }
  destruct (isContain sd k) eqn:Hc.
  - pose proof (proj1 (isContain_occupied sd k Hinv) Hc) as [i Hi].
    assert (Hh : holds sd k (c_string (value (entry_at sd i))))
      by (exists i; split; [exact Hi | reflexivity]).
    rewrite (getRsc_holds sd k _ Hinv Hh).
    rewrite (getRsc_holds sd' k _ Hinv' (proj2 (Hsame _ _) Hh)).
    split; [reflexivity |].
    apply (isContain_occupied sd' k Hinv'), Hocc. exists i. exact Hi.
  - assert (Hno : ~ key_occupied sd k).
    { intros Ho. apply (isContain_occupied sd k Hinv) in Ho. congruence. }
    assert (Hno' : ~ key_occupied sd' k) by (intros Ho; apply Hno, Hocc, Ho).
    rewrite (getRsc_absent sd k Hno), (getRsc_absent sd' k Hno').
    split; [reflexivity |].
    destruct (isContain sd' k) eqn:Hc'; [| reflexivity].
    exfalso. apply Hno'. apply (isContain_occupied sd' k Hinv'), Hc'.
Qed.

(** ** Concrete runs *)

Lemma run_log_spec (ops : list op) :
  forall sd, run_log sd ops = (run_codes sd ops, run sd ops).
Proof.
  induction ops as [| o ops IH]; intros sd; [reflexivity |].
  cbn [run_log run_codes]. unfold run in *. cbn [fold_left].
  destruct (exec sd o) as [rc sd1]. rewrite IH. reflexivity.
Qed.

Lemma run_check_spec (sd : RWLockOptimizedSharedData) (ops : list op) (n : Z) :
  run_check sd ops n = true ->
  forallb (Z.eqb OK) (run_codes sd ops) = true
  /\ current_count (run sd ops) = n
  /\ needRehash (run sd ops) = true.
Proof.
  unfold run_check. rewrite run_log_spec. cbn [fst snd]. intros H.
  apply andb_true_iff in H. destruct H as [H H3].
  apply andb_true_iff in H. destruct H as [H1 H2].
  apply Z.eqb_eq in H2. split; [exact H1 | split; [exact H2 | exact H3]].
Qed.

Lemma add_check_spec (sd : RWLockOptimizedSharedData) (k : Z) (v : list byte)
    (d rc d' : Z) :
  add_check sd k v d rc d' = true ->
  isContain sd k = true
  /\ deleted_count sd = d
  /\ fst (addRsc sd k v) = rc
  /\ deleted_count (snd (addRsc sd k v)) = d'.
Proof.
  unfold add_check. cbv zeta. intros H.
  apply andb_true_iff in H. destruct H as [H H4].
  apply andb_true_iff in H. destruct H as [H H3].
  apply andb_true_iff in H. destruct H as [H1 H2].
  apply Z.eqb_eq in H2, H3, H4. repeat split; assumption.
Qed.

(* 1537 distinct keys added to a fresh segment with seed 0. *)
Lemma overfull_check : run_check (init 0) (distinct_adds 1537) 1537 = true.
Proof. vm_compute. reflexivity. Qed.

Lemma tombstoned_reachable : reachable tombstoned.
Proof. exists 0, (distinct_adds 1537 ++ removes 1 1536). reflexivity. Qed.

Lemma tombstoned_check : add_check tombstoned 0 [] 1536 DUPLICATE_KEY 0 = true.
Proof. vm_compute. reflexivity. Qed.

(** * Main results *)

(** C1.  The specification gives the s-th examined slot as
    (primary + s * secondary) mod CAPACITY.  The loops of findEntry and
    findEmptySlot examine the positions [probes], and because each call
    getNextProbe(pos, step + 1, hash2_val) adds the growing step to the
    running position, the s-th of them is
    (primary + s (s + 1) / 2 * secondary) mod CAPACITY.  For every seed and
    key the two sequences agree at s = 0 and s = 1 and differ at s = 2. *)
Theorem probe_sequence_is_triangular (sd : RWLockOptimizedSharedData) (k : Z) :
  findEntry sd k (hash sd k) = scan_entry sd k (probes (hash_seed sd) k)
  /\ findEmptySlot sd k (hash sd k) = scan_empty sd k (-1) (probes (hash_seed sd) k)
  /\ probes (hash_seed sd) k
     = map (fun s => (hash sd k + Z.of_nat s * (Z.of_nat s + 1) / 2 * hash2 sd k)
                     mod RWLOCK_HASH_TABLE_SIZE)
           (seq 0 2048)
  /\ nth 1 (probes (hash_seed sd) k) 0
     = (hash sd k + 1 * hash2 sd k) mod RWLOCK_HASH_TABLE_SIZE
  /\ nth 2 (probes (hash_seed sd) k) 0
     = (hash sd k + 3 * hash2 sd k) mod RWLOCK_HASH_TABLE_SIZE
  /\ nth 2 (probes (hash_seed sd) k) 0
     <> (hash sd k + 2 * hash2 sd k) mod RWLOCK_HASH_TABLE_SIZE.
Proof.
  pose proof (hash_with_range (hash_seed sd) k) as Hh.
  pose proof (hash2_with_range (hash_seed sd) k) as Hh2.
  pose proof (hash2_with_odd (hash_seed sd) k) as Hodd.
  assert (Hnth : forall s, (s < 2048)%nat ->
            nth s (probes (hash_seed sd) k) 0
            = (hash sd k + tri s * hash2 sd k) mod RWLOCK_HASH_TABLE_SIZE).
  { intros s Hs. rewrite probes_nth by exact Hs.
    apply probe_pos_closed, Hh. }
  split; [apply findEntry_scan |]. split; [apply findEmptySlot_scan |].
  split; [| split; [| split]].
  - unfold probes. apply map_ext. intros s.
    rewrite probe_pos_closed by exact Hh. rewrite <- tri_div. reflexivity.
  - apply (Hnth 1%nat). lia.
  - apply (Hnth 2%nat). lia.
  - rewrite (Hnth 2%nat) by lia. unfold hash, hash2, RWLOCK_HASH_TABLE_SIZE in *.
    cbn [tri Z.of_nat]. intros E. apply Z.cong_iff_0 in E.
    apply Z.mod_divide in E; [| lia].
    replace (hash_with (hash_seed sd) k + (0 + (0 + 1) + (1 + 1)) * hash2_with (hash_seed sd) k
             - (hash_with (hash_seed sd) k + 2 * hash2_with (hash_seed sd) k))
      with (hash2_with (hash_seed sd) k) in E by ring.
    apply Z.divide_pos_le in E; [lia |].
    destruct (Z.eq_dec (hash2_with (hash_seed sd) k) 0) as [E0 | E0]; [| lia].
    rewrite E0 in Hodd. discriminate Hodd.
Qed.

(** C2.  The specification bounds live_count by MAX_LIVE = 1536 and promises a
    NO_SPACE among MAX_LIVE + 1 inserts of distinct keys.  Adding the 1537
    keys 0 .. 1536 (empty values, seed 0) to a fresh segment returns OK every
    time and leaves current_count = 1537 > RWLOCK_MAX_ENTRIES: addRsc compares
    current_count with RWLOCK_MAX_ENTRIES only after findEmptySlot has
    failed. *)
Theorem capacity_bound_exceeded :
  forallb (Z.eqb OK) (run_codes (init 0) (distinct_adds 1537)) = true
  /\ current_count (run (init 0) (distinct_adds 1537)) = 1537
  /\ RWLOCK_MAX_ENTRIES < current_count (run (init 0) (distinct_adds 1537)).
Proof.
  destruct (run_check_spec _ _ _ overfull_check) as [H1 [H2 _]].
  split; [exact H1 |]. split; [exact H2 |]. rewrite H2. reflexivity.
Qed.

Lemma result_differs (r : Z * RWLockOptimizedSharedData) (c : Z)
    (sd : RWLockOptimizedSharedData) :
  deleted_count (snd r) <> deleted_count sd -> r <> (c, sd).
Proof. intros H E. apply H. rewrite E. reflexivity. Qed.

(** C3 (as written).  The specification says that add on an Occupied key always
    returns DUPLICATE and leaves the whole state unchanged.  In the reachable
    state [tombstoned] (key 0 Occupied, 1536 tombstones) add(0, empty) runs the
    rebuild of rehashIfNeeded before it looks for the key: it returns
    DUPLICATE_KEY, and deleted_count has gone from 1536 to 0. *)
Lemma add_duplicate_rebuilds :
  reachable tombstoned
  /\ key_occupied tombstoned 0
  /\ (length (@nil byte) < 256)%nat
  /\ fst (addRsc tombstoned 0 []) = DUPLICATE_KEY
  /\ deleted_count tombstoned = 1536
  /\ deleted_count (snd (addRsc tombstoned 0 [])) = 0
  /\ addRsc tombstoned 0 [] <> (DUPLICATE_KEY, tombstoned).
Proof.
  destruct (add_check_spec _ _ _ _ _ _ tombstoned_check) as [H1 [H2 [H4 H3]]].
  split; [exact tombstoned_reachable |].
  split; [apply isContain_occupied; [apply reachable_inv, tombstoned_reachable | exact H1] |].
  split; [apply Nat.lt_0_succ |].
  split; [exact H4 |].
  split; [exact H2 |]. split; [exact H3 |].
  apply result_differs. rewrite H2, H3. discriminate.
Qed.

(** C3 (amended).  In every reachable state in which key k is Occupied and
    live_count < MAX_LIVE, add(k, v) with length v < VALUE_CAP returns
    DUPLICATE.  When no rehash is due (live + tomb <= MAX_LIVE) the whole
    state is unchanged; otherwise the table is rebuilt first: tomb_count
    becomes 0, the seed is kept, and every key keeps its value and its
    presence. *)
Theorem add_duplicate_spec (sd : RWLockOptimizedSharedData) (k : Z) (v : list byte) :
  reachable sd ->
  key_occupied sd k ->
  (length v < 256)%nat ->
  current_count sd < RWLOCK_MAX_ENTRIES ->
  fst (addRsc sd k v) = DUPLICATE_KEY
  /\ (needRehash sd = false -> snd (addRsc sd k v) = sd)
  /\ (needRehash sd = true -> deleted_count (snd (addRsc sd k v)) = 0)
  /\ hash_seed (snd (addRsc sd k v)) = hash_seed sd
  /\ (forall k' w, holds (snd (addRsc sd k v)) k' w <-> holds sd k' w)
  /\ forall k', getRsc (snd (addRsc sd k v)) k' = getRsc sd k'
                /\ isContain (snd (addRsc sd k v)) k' = isContain sd k'.
Proof.
  intros Hreach Hocc Hlen Hcount.
  pose proof (reachable_inv sd Hreach) as Hinv.
  pose proof (reachable_counts sd Hreach) as Hc.
  destruct (rehashIfNeeded_spec sd Hinv)
    as [sd1 [Hre [Hinv1 [Hseed1 [Hsame [Hnew Hholds1]]]]]].
  destruct (rehashIfNeeded_counts sd sd1 Hinv Hc Hre) as [_ Hle].
  assert (Hocc1 : key_occupied sd1 k).
  { destruct Hocc as [i Hi].
    apply (holds_occupied sd1 k (c_string (value (entry_at sd i)))).
    apply Hholds1. exists i. split; [exact Hi | reflexivity]. }
  assert (Hadd : addRsc sd k v = (DUPLICATE_KEY, sd1)).
  { unfold addRsc, too_long, MAX_VALUE_LEN.
    destruct (Z.leb_spec 256 (Z.of_nat (length v))) as [Hl | _]; [lia |].
    rewrite Hre. change (negb (OK =? OK)) with false. cbv iota.
    rewrite (findEmptySlot_duplicate sd1 k Hinv1 Hocc1). cbn [Z.eqb].
    destruct (Z.leb_spec RWLOCK_MAX_ENTRIES (current_count sd1)) as [Hl | _];
      [lia | reflexivity]. }
  rewrite Hadd. cbn [fst snd].
  split; [reflexivity |]. split; [exact Hsame |].
  split; [intros Hn; apply (Hnew Hn) |].
  split; [exact Hseed1 |]. split; [exact Hholds1 |].
  intros k'. apply getRsc_ext; assumption.
Qed.

Lemma add_duplicate_spec_witness :
  fst (addRsc one_key 1 ["b"%byte]) = DUPLICATE_KEY
  /\ (needRehash one_key = false -> snd (addRsc one_key 1 ["b"%byte]) = one_key)
  /\ (needRehash one_key = true -> deleted_count (snd (addRsc one_key 1 ["b"%byte])) = 0)
  /\ hash_seed (snd (addRsc one_key 1 ["b"%byte])) = hash_seed one_key
  /\ (forall k' w, holds (snd (addRsc one_key 1 ["b"%byte])) k' w <-> holds one_key k' w)
  /\ forall k', getRsc (snd (addRsc one_key 1 ["b"%byte])) k' = getRsc one_key k'
                /\ isContain (snd (addRsc one_key 1 ["b"%byte])) k' = isContain one_key k'.
Proof.
  apply (add_duplicate_spec one_key 1 ["b"%byte]).
  - exists 0, [Add 1 ["a"%byte]]. reflexivity.
  - exists 183. split; [unfold in_table, RWLOCK_HASH_TABLE_SIZE; lia | vm_compute; reflexivity].
  - cbn. lia.
  - vm_compute. reflexivity.
Defined.

(** C4.  For every seed and key the 2048 positions generated from hash(k)
    by getNextProbe with step 1, 2, ..., 2047 are pairwise distinct and are
    exactly the slot indices 0 .. 2047: hash2(k) is odd and the capacity is a
    power of two. *)
Theorem probe_sequence_permutation (seed k : Z) :
  Z.odd (hash2_with seed k) = true
  /\ length (probes seed k) = 2048%nat
  /\ NoDup (probes seed k)
  /\ (forall i j, (i < 2048)%nat -> (j < 2048)%nat ->
        probe_pos (hash_with seed k) (hash2_with seed k) i
        = probe_pos (hash_with seed k) (hash2_with seed k) j -> i = j)
  /\ forall p, In p (probes seed k) <-> 0 <= p < RWLOCK_HASH_TABLE_SIZE.
Proof.
  split; [apply hash2_with_odd |]. split; [apply probes_length |].
  split; [apply probes_NoDup |]. split.
  - intros i j Hi Hj E. eapply probe_pos_inj; try exact E; try assumption.
    + apply hash_with_range.
    + apply hash2_with_odd.
  - intros p. split; [apply probes_range | apply probes_cover].
Qed.

(** C5.  When rehashIfNeeded rebuilds a table that satisfies the structural
    invariants, it returns OK, the Occupied (key, value) pairs after the
    rebuild are those before it, deleted_count is 0 and no slot is a
    tombstone, current_count is the number of Occupied slots, and hash_seed
    is unchanged. *)
Theorem rehash_preserves_content (sd : RWLockOptimizedSharedData) :
  table_inv sd ->
  needRehash sd = true ->
  exists sd',
    rehashIfNeeded sd = (OK, sd')
    /\ (forall k w, holds sd' k w <-> holds sd k w)
    /\ (forall k, getRsc sd' k = getRsc sd k /\ isContain sd' k = isContain sd k)
    /\ deleted_count sd' = 0
    /\ tomb_count sd' = 0%nat
    /\ current_count sd' = Z.of_nat (occ_count sd')
    /\ hash_seed sd' = hash_seed sd
    /\ table_inv sd'.
Proof.
  intros Hinv Hn.
  destruct (rehashIfNeeded_spec sd Hinv)
    as [sd' [Hre [Hinv' [Hseed [_ [Hnew Hholds]]]]]].
  destruct (Hnew Hn) as [Hd [Hcur [_ Htomb]]].
  exists sd'. split; [exact Hre |]. split; [exact Hholds |].
  split; [intros k; apply getRsc_ext; assumption |].
  split; [exact Hd |]. split; [exact Htomb |]. split; [exact Hcur |].
  split; [exact Hseed | exact Hinv'].
Qed.

Lemma rehash_preserves_content_witness :
  exists sd',
    rehashIfNeeded (run (init 0) (distinct_adds 1537)) = (OK, sd')
    /\ (forall k w, holds sd' k w <-> holds (run (init 0) (distinct_adds 1537)) k w)
    /\ (forall k, getRsc sd' k = getRsc (run (init 0) (distinct_adds 1537)) k
                  /\ isContain sd' k = isContain (run (init 0) (distinct_adds 1537)) k)
    /\ deleted_count sd' = 0
    /\ tomb_count sd' = 0%nat
    /\ current_count sd' = Z.of_nat (occ_count sd')
    /\ hash_seed sd' = hash_seed (run (init 0) (distinct_adds 1537))
    /\ table_inv sd'.
Proof.
  apply (rehash_preserves_content (run (init 0) (distinct_adds 1537))).
  - apply reachable_inv. exists 0, (distinct_adds 1537). reflexivity.
  - apply (run_check_spec _ _ _ overfull_check).
Defined.

(** ** Values with an interior NUL, and fresh keys *)

Lemma strncpy_c_string (v : list byte) (n : nat) :
  strncpy (c_string v) n = strncpy v n.
Proof.
  revert v. induction n as [| n IH]; intros v; [reflexivity |].
  destruct v as [| c v]; [reflexivity |].
  cbn [c_string strncpy]. destruct (Byte.eqb c x00) eqn:E; [reflexivity |].
  cbn [strncpy]. rewrite E, IH. reflexivity.
Qed.

Lemma store_value_c_string (v : list byte) : store_value (c_string v) = store_value v.
Proof. unfold store_value. rewrite strncpy_c_string. reflexivity. Qed.

Lemma too_long_c_string (v : list byte) :
  too_long v = false -> too_long (c_string v) = false.
Proof.
  unfold too_long, MAX_VALUE_LEN. intros H. apply Z.leb_gt in H. apply Z.leb_gt.
  pose proof (c_string_length v). lia.
Qed.

Lemma c_string_prefix (v : list byte) :
  In x00 v -> exists rest, v = c_string v ++ x00 :: rest.
Proof.
  induction v as [| c v IH]; intros Hin; [contradiction |].
  cbn [c_string]. destruct (Byte.eqb c x00) eqn:E.
  - apply byte_dec_bl in E. subst c. exists v. reflexivity.
  - destruct Hin as [-> | Hin]; [discriminate E |].
    destruct (IH Hin) as [rest Hrest]. exists rest. cbn. rewrite <- Hrest. reflexivity.
Qed.

Lemma addRsc_c_string (sd : RWLockOptimizedSharedData) (k : Z) (v : list byte) :
  too_long v = false -> addRsc sd k (c_string v) = addRsc sd k v.
Proof.
  intros Hl. unfold addRsc, insert_at, new_entry.
  rewrite Hl, (too_long_c_string v Hl), store_value_c_string. reflexivity.
Qed.

Lemma updateRsc_c_string (sd : RWLockOptimizedSharedData) (k : Z) (v : list byte) :
  too_long v = false -> updateRsc sd k (c_string v) = updateRsc sd k v.
Proof.
  intros Hl. unfold updateRsc, overwrite_at, set_value.
  rewrite Hl, (too_long_c_string v Hl), store_value_c_string. reflexivity.
Qed.

Lemma upsertRsc_c_string (sd : RWLockOptimizedSharedData) (k : Z) (v : list byte) :
  too_long v = false -> upsertRsc sd k (c_string v) = upsertRsc sd k v.
Proof.
  intros Hl. unfold upsertRsc, overwrite_at, set_value, insert_at, new_entry.
  rewrite Hl, (too_long_c_string v Hl), store_value_c_string. reflexivity.
Qed.

Lemma too_long_short (v : list byte) : (length v < 256)%nat -> too_long v = false.
Proof. unfold too_long, MAX_VALUE_LEN. intros H. apply Z.leb_gt. lia. Qed.

Lemma c_string_store_value (v : list byte) :
  too_long v = false -> c_string (store_value v) = c_string v.
Proof.
  intros Hl. apply c_string_store_short.
  pose proof (c_string_length v). apply too_long_false in Hl. lia.
Qed.

(* A fresh key is accepted as long as some slot is not Occupied. *)
Lemma addRsc_fresh_ok (sd : RWLockOptimizedSharedData) (k : Z) (v : list byte) :
  reachable sd -> ~ key_occupied sd k -> too_long v = false ->
  current_count sd < RWLOCK_HASH_TABLE_SIZE ->
  fst (addRsc sd k v) = OK.
Proof.
  intros Hreach Hno Hl Hroom.
  pose proof (reachable_inv sd Hreach) as Hinv.
  pose proof (reachable_counts sd Hreach) as Hc.
  destruct (rehashIfNeeded_spec sd Hinv)
    as [sd1 [Hre [Hinv1 [Hseed1 [_ [_ Hholds1]]]]]].
  destruct (rehashIfNeeded_counts sd sd1 Hinv Hc Hre) as [[Hc1 _] Hle].
  unfold addRsc. rewrite Hl, Hre. change (negb (OK =? OK)) with false. cbv iota.
  destruct (Z.eqb_spec (findEmptySlot sd1 k (hash sd1 k)) (-1)) as [E | _];
    [| reflexivity].
  exfalso. destruct (findEmptySlot_full sd1 k E) as [[i Hi] | Hall].
  - apply Hno. apply (holds_occupied sd k (c_string (value (entry_at sd1 i)))).
    apply Hholds1. exists i. split; [exact Hi | reflexivity].
  - destruct (exists_free_slot sd1 (inv_len sd1 Hinv1)) as [i [Hi Hf]].
    + unfold RWLOCK_HASH_TABLE_SIZE in Hroom. lia.
    + rewrite (Hall i Hi) in Hf. discriminate Hf.
Qed.

(* update of a present key with a short value succeeds. *)
Lemma updateRsc_present_ok (sd : RWLockOptimizedSharedData) (k : Z) (v : list byte) :
  isContain sd k = true -> too_long v = false -> fst (updateRsc sd k v) = OK.
Proof.
  unfold isContain, updateRsc. intros Hc Hl. rewrite Hl.
  apply negb_true_iff in Hc. rewrite Hc. reflexivity.
Qed.

(* upsert with a short value succeeds when the key is present or some slot is
   not Occupied. *)
Lemma upsertRsc_ok (sd : RWLockOptimizedSharedData) (k : Z) (v : list byte) :
  reachable sd -> too_long v = false ->
  isContain sd k = true \/ current_count sd < RWLOCK_HASH_TABLE_SIZE ->
  fst (upsertRsc sd k v) = OK.
Proof.
  intros Hreach Hl Hcase.
  pose proof (reachable_inv sd Hreach) as Hinv.
  pose proof (reachable_counts sd Hreach) as Hc.
  unfold upsertRsc. destruct (too_long v); [discriminate Hl |].
  destruct (Z.eqb_spec (findEntry sd k (hash sd k)) (-1)) as [E | Hne]; cbn [negb];
    [| reflexivity].
  assert (Hno : ~ key_occupied sd k).
  { intros [i Hi]. rewrite (findEntry_occupied sd k i Hinv Hi) in E.
    destruct Hi as [Hi _]. unfold in_table in Hi. lia. }
  assert (Hroom : current_count sd < RWLOCK_HASH_TABLE_SIZE).
  { destruct Hcase as [Hcont | Hroom]; [| exact Hroom].
    exfalso. apply Hno. apply (isContain_occupied sd k Hinv), Hcont. }
  destruct (rehashIfNeeded_spec sd Hinv)
    as [sd1 [Hre [Hinv1 [Hseed1 [_ [_ Hholds1]]]]]].
  destruct (rehashIfNeeded_counts sd sd1 Hinv Hc Hre) as [[Hc1 _] Hle].
  rewrite Hre. change (negb (OK =? OK)) with false. cbv iota.
  assert (Eh : hash sd k = hash sd1 k) by (unfold hash; rewrite Hseed1; reflexivity).
  rewrite Eh.
  destruct (Z.eqb_spec (findEmptySlot sd1 k (hash sd1 k)) (-1)) as [E1 | _];
    [| reflexivity].
  exfalso. destruct (findEmptySlot_full sd1 k E1) as [[i Hi] | Hall].
  - apply Hno. apply (holds_occupied sd k (c_string (value (entry_at sd1 i)))).
    apply Hholds1. exists i. split; [exact Hi | reflexivity].
  - destruct (exists_free_slot sd1 (inv_len sd1 Hinv1)) as [i [Hi Hf]].
    + clear - Hroom Hc1 Hle. unfold RWLOCK_HASH_TABLE_SIZE in Hroom. lia.
    + rewrite (Hall i Hi) in Hf. discriminate Hf.
Qed.

(** C6.  After add(k, v) has returned OK in a reachable state, get(k)
    returns the bytes of v up to its first NUL (all of v when v holds no NUL)
    after any further operations among which no update, upsert, remove or
    batch_update names k and no clear occurs; rehashes triggered on the way
    keep the value. *)
Theorem add_get_roundtrip (sd : RWLockOptimizedSharedData) (k : Z) (v : list byte)
    (ops : list op) :
  reachable sd ->
  fst (addRsc sd k v) = OK ->
  Forall (fun o => ~ touches k o) ops ->
  getRsc (run (snd (addRsc sd k v)) ops) k = c_string v
  /\ isContain (run (snd (addRsc sd k v)) ops) k = true
  /\ (~ In x00 v -> getRsc (run (snd (addRsc sd k v)) ops) k = v).
Proof.
  intros Hreach Hok Hops.
  pose proof (reachable_inv sd Hreach) as Hinv.
  destruct (addRsc_spec sd k v Hinv) as [Hinv1 [_ [_ Hadd]]].
  destruct (Hadd Hok) as [Hl [_ Hh]].
  rewrite (c_string_store_value v Hl) in Hh.
  pose proof (run_keeps ops k (c_string v) _ Hinv1 Hops Hh) as Hh'.
  pose proof (proj1 (run_inv ops _ Hinv1)) as Hinv'.
  pose proof (getRsc_holds _ k _ Hinv' Hh') as Hget.
  split; [exact Hget |]. split.
  - apply (isContain_occupied _ k Hinv'). eapply holds_occupied, Hh'.
  - intros Hn. rewrite Hget. apply c_string_no_nul, Hn.
Qed.

Lemma add_get_roundtrip_witness :
  getRsc (run (snd (addRsc (init 0) 1 ["a"%byte]))
              [Add 2 ["b"%byte]; Update 2 ["c"%byte]; Remove 2; Add 1 ["z"%byte]]) 1
  = c_string ["a"%byte]
  /\ isContain (run (snd (addRsc (init 0) 1 ["a"%byte]))
                    [Add 2 ["b"%byte]; Update 2 ["c"%byte]; Remove 2; Add 1 ["z"%byte]]) 1
     = true
  /\ (~ In x00 ["a"%byte] ->
      getRsc (run (snd (addRsc (init 0) 1 ["a"%byte]))
                  [Add 2 ["b"%byte]; Update 2 ["c"%byte]; Remove 2; Add 1 ["z"%byte]]) 1
      = ["a"%byte]).
Proof.
  apply (add_get_roundtrip (init 0) 1 ["a"%byte]
           [Add 2 ["b"%byte]; Update 2 ["c"%byte]; Remove 2; Add 1 ["z"%byte]]).
  - exists 0, []. reflexivity.
  - vm_compute. reflexivity.
  - repeat constructor; cbn; intros H; try discriminate H; exact H.
Defined.

(** C7.  A value of length >= VALUE_CAP makes add, update and upsert return
    NO_SPACE with the segment unchanged, for every segment and key; in
    batch_update such an entry changes neither the segment nor the success
    count, so the batch behaves as if the entry were absent. *)
Theorem value_length_gate (sd : RWLockOptimizedSharedData) (k : Z) (v : list byte) :
  MAX_VALUE_LEN <= Z.of_nat (length v) ->
  addRsc sd k v = (NO_SPACE_ERR, sd)
  /\ updateRsc sd k v = (NO_SPACE_ERR, sd)
  /\ upsertRsc sd k v = (NO_SPACE_ERR, sd)
  /\ (forall c, batch_step (sd, c) (k, v) = (sd, c))
  /\ (forall m1 m2, batchUpdateRsc sd (m1 ++ (k, v) :: m2) = batchUpdateRsc sd (m1 ++ m2)).
Proof.
  intros Hlen.
  assert (Hl : too_long v = true) by (unfold too_long; apply Z.leb_le, Hlen).
  assert (Hstep : forall acc, batch_step acc (k, v) = acc).
  { intros [sd' c]. unfold batch_step. cbn [snd]. rewrite Hl. reflexivity. }
  unfold addRsc, updateRsc, upsertRsc. rewrite Hl.
  repeat (split; [reflexivity |]).
  split; [intros c; apply Hstep |].
  intros m1 m2. unfold batchUpdateRsc.
  rewrite !fold_left_app. cbn [fold_left]. rewrite Hstep. reflexivity.
Qed.

Lemma value_length_gate_witness :
  addRsc one_key 1 (repeat "a"%byte 256) = (NO_SPACE_ERR, one_key)
  /\ updateRsc one_key 1 (repeat "a"%byte 256) = (NO_SPACE_ERR, one_key)
  /\ upsertRsc one_key 1 (repeat "a"%byte 256) = (NO_SPACE_ERR, one_key)
  /\ (forall c, batch_step (one_key, c) (1, repeat "a"%byte 256) = (one_key, c))
  /\ (forall m1 m2,
        batchUpdateRsc one_key (m1 ++ (1, repeat "a"%byte 256) :: m2)
        = batchUpdateRsc one_key (m1 ++ m2)).
Proof.
  apply (value_length_gate one_key 1 (repeat "a"%byte 256)).
  rewrite repeat_length. unfold MAX_VALUE_LEN. lia.
Defined.

(** C8.  In a reachable state in which key k is Occupied, in slot i say,
    remove(k) returns OK and its only effects are state[i] = Tombstone,
    live_count - 1 and tomb_count + 1; afterwards a second remove(k) returns
    NOT_FOUND and changes nothing, contains(k) is false and get(k) is
    empty. *)
Theorem remove_twice (sd : RWLockOptimizedSharedData) (k : Z) :
  reachable sd ->
  key_occupied sd k ->
  exists i sd1,
    occupied_by sd k i
    /\ removeRsc sd k = (OK, sd1)
    /\ sd1 = mkShared (current_count sd - 1) (deleted_count sd + 1) (hash_seed sd)
                      (set_entry sd i (set_state RWLOCK_DELETED (entry_at sd i)))
    /\ entry_at sd1 i = set_state RWLOCK_DELETED (entry_at sd i)
    /\ (forall p, in_table p -> p <> i -> entry_at sd1 p = entry_at sd p)
    /\ removeRsc sd1 k = (NOT_FOUND, sd1)
    /\ isContain sd1 k = false
    /\ getRsc sd1 k = [].
Proof.
  intros Hreach [i Hi].
  pose proof (reachable_inv sd Hreach) as Hinv.
  pose proof (findEntry_occupied sd k i Hinv Hi) as Hfind.
  pose proof Hi as [Hin _].
  set (sd1 := mkShared (current_count sd - 1) (deleted_count sd + 1) (hash_seed sd)
                       (set_entry sd i (set_state RWLOCK_DELETED (entry_at sd i)))).
  assert (Hrm : removeRsc sd k = (OK, sd1)).
  { unfold removeRsc. rewrite Hfind.
    destruct (Z.eqb_spec i (-1)) as [E | _]; [unfold in_table in Hin; lia | reflexivity]. }
  destruct (removeRsc_spec sd k Hinv) as [_ [_ [_ Hno]]].
  rewrite Hrm in Hno. cbn [snd] in Hno.
  assert (Hat : forall p, in_table p ->
            entry_at sd1 p
            = if p =? i then set_state RWLOCK_DELETED (entry_at sd i) else entry_at sd p).
  { intros p Hp. apply entry_at_set; [reflexivity | apply (inv_len sd Hinv) | | ]; assumption. }
  exists i, sd1. split; [exact Hi |]. split; [exact Hrm |]. split; [reflexivity |].
  split; [rewrite (Hat i Hin), Z.eqb_refl; reflexivity |].
  split.
  { intros p Hp Hne. rewrite (Hat p Hp).
    destruct (Z.eqb_spec p i) as [E | _]; [contradiction | reflexivity]. }
  split; [unfold removeRsc; rewrite (findEntry_absent sd1 k Hno); reflexivity |].
  split; [unfold isContain; rewrite (findEntry_absent sd1 k Hno); reflexivity |].
  apply getRsc_absent, Hno.
Qed.

Lemma remove_twice_witness :
  exists i sd1,
    occupied_by one_key 1 i
    /\ removeRsc one_key 1 = (OK, sd1)
    /\ sd1 = mkShared (current_count one_key - 1) (deleted_count one_key + 1)
                      (hash_seed one_key)
                      (set_entry one_key i (set_state RWLOCK_DELETED (entry_at one_key i)))
    /\ entry_at sd1 i = set_state RWLOCK_DELETED (entry_at one_key i)
    /\ (forall p, in_table p -> p <> i -> entry_at sd1 p = entry_at one_key p)
    /\ removeRsc sd1 1 = (NOT_FOUND, sd1)
    /\ isContain sd1 1 = false
    /\ getRsc sd1 1 = [].
Proof.
  apply (remove_twice one_key 1).
  - exists 0, [Add 1 ["a"%byte]]. reflexivity.
  - exists 183. split; [unfold in_table, RWLOCK_HASH_TABLE_SIZE; lia | vm_compute; reflexivity].
Defined.

(** C9.  cleanup returns 0 when shm_unlink succeeds and when it fails with
    ENOENT (no such segment), returns -1 exactly when shm_unlink fails with
    another errno, and never touches the mapped table. *)
Theorem cleanup_result (w : World) :
  (fst (shm_unlink w) = 0 -> fst (cleanup w) = 0)
  /\ (fst (shm_unlink w) = -1 -> errno (snd (shm_unlink w)) = ENOENT ->
      fst (cleanup w) = 0)
  /\ (shm_fault w = None -> shm_linked w = false ->
      fst (shm_unlink w) = -1 /\ errno (snd (shm_unlink w)) = ENOENT
      /\ fst (cleanup w) = 0)
  /\ (fst (cleanup w) = -1
      <-> fst (shm_unlink w) = -1 /\ errno (snd (shm_unlink w)) <> ENOENT)
  /\ (fst (cleanup w) = 0 \/ fst (cleanup w) = -1)
  /\ shared_data_ (snd (cleanup w)) = shared_data_ w.
Proof.
  unfold cleanup, shm_unlink, OK.
  destruct (shm_fault w) as [e |]; [| destruct (shm_linked w)]; cbn.
  - destruct (Z.eqb_spec e ENOENT) as [E | E]; cbn;
      repeat split; try congruence; try discriminate; try tauto;
      try (intros [_ H]; congruence); auto.
  - repeat split; try congruence; try discriminate; try tauto;
      try (intros [H _]; discriminate H); auto.
  - repeat split; try congruence; try discriminate; try tauto;
      try (intros [_ H]; congruence); auto.
Qed.

(** C10.  For a value v shorter than VALUE_CAP that holds a NUL byte, in a
    reachable state: the bytes of v before its first NUL are a proper prefix
    of v; add, update and upsert behave exactly as for that prefix; the value
    is not rejected: add of an absent key returns OK while a slot is free,
    update of a present key returns OK, upsert returns OK for a present key
    or while a slot is free; and after each of these a following get(k)
    returns the prefix and not v.  Whenever one of the three returns OK,
    get(k) returns the prefix.  Each value array has VALUE_CAP bytes and
    holds a NUL. *)
Theorem interior_nul_truncates (sd : RWLockOptimizedSharedData) (k : Z) (v : list byte) :
  reachable sd ->
  (length v < 256)%nat ->
  In x00 v ->
  (exists rest, v = c_string v ++ x00 :: rest)
  /\ c_string v <> v
  /\ addRsc sd k v = addRsc sd k (c_string v)
  /\ updateRsc sd k v = updateRsc sd k (c_string v)
  /\ upsertRsc sd k v = upsertRsc sd k (c_string v)
  /\ (~ key_occupied sd k -> current_count sd < RWLOCK_HASH_TABLE_SIZE ->
      fst (addRsc sd k v) = OK)
  /\ (isContain sd k = false -> current_count sd < RWLOCK_HASH_TABLE_SIZE ->
      fst (addRsc sd k v) = OK
      /\ getRsc (snd (addRsc sd k v)) k = c_string v)
  /\ (isContain sd k = true ->
      fst (updateRsc sd k v) = OK
      /\ getRsc (snd (updateRsc sd k v)) k = c_string v)
  /\ (isContain sd k = true \/ current_count sd < RWLOCK_HASH_TABLE_SIZE ->
      fst (upsertRsc sd k v) = OK
      /\ getRsc (snd (upsertRsc sd k v)) k = c_string v)
  /\ (fst (addRsc sd k v) = OK -> getRsc (snd (addRsc sd k v)) k = c_string v)
  /\ (fst (updateRsc sd k v) = OK -> getRsc (snd (updateRsc sd k v)) k = c_string v)
  /\ (fst (upsertRsc sd k v) = OK -> getRsc (snd (upsertRsc sd k v)) k = c_string v)
  /\ forall i, in_table i ->
       length (value (entry_at sd i)) = 256%nat /\ In x00 (value (entry_at sd i)).
Proof.
  intros Hreach Hlen Hnul.
  pose proof (reachable_inv sd Hreach) as Hinv.
  pose proof (too_long_short v Hlen) as Hl.
  assert (Hadd : fst (addRsc sd k v) = OK ->
                 getRsc (snd (addRsc sd k v)) k = c_string v).
  { intros Hok. destruct (addRsc_spec sd k v Hinv) as [Hinv1 [_ [_ Hadd]]].
    destruct (Hadd Hok) as [_ [_ Hh]]. rewrite (c_string_store_value v Hl) in Hh.
    apply getRsc_holds; assumption. }
  assert (Hupd : fst (updateRsc sd k v) = OK ->
                 getRsc (snd (updateRsc sd k v)) k = c_string v).
  { intros Hok. destruct (updateRsc_spec sd k v Hinv) as [Hinv1 [_ [_ Hupd]]].
    destruct (Hupd Hok) as [_ Hh]. rewrite (c_string_store_value v Hl) in Hh.
    apply getRsc_holds; assumption. }
  assert (Hups : fst (upsertRsc sd k v) = OK ->
                 getRsc (snd (upsertRsc sd k v)) k = c_string v).
  { intros Hok. destruct (upsertRsc_spec sd k v Hinv) as [Hinv1 [_ [_ Hups]]].
    destruct (Hups Hok) as [_ Hh]. rewrite (c_string_store_value v Hl) in Hh.
    apply getRsc_holds; assumption. }
  split; [apply c_string_prefix, Hnul |].
  split; [intros E; apply (c_string_has_no_nul v); rewrite E; exact Hnul |].
  split; [symmetry; apply addRsc_c_string, Hl |].
  split; [symmetry; apply updateRsc_c_string, Hl |].
  split; [symmetry; apply upsertRsc_c_string, Hl |].
  split; [intros Hno Hroom; apply addRsc_fresh_ok; assumption |].
  split.
  { intros Hcont Hroom.
    assert (Hok : fst (addRsc sd k v) = OK).
    { apply addRsc_fresh_ok; try assumption.
      intros Ho. apply (isContain_occupied sd k Hinv) in Ho. congruence. }
    split; [exact Hok | apply Hadd, Hok]. }
  split.
  { intros Hcont. pose proof (updateRsc_present_ok sd k v Hcont Hl) as Hok.
    split; [exact Hok | apply Hupd, Hok]. }
  split.
  { intros Hcase. pose proof (upsertRsc_ok sd k v Hreach Hl Hcase) as Hok.
    split; [exact Hok | apply Hups, Hok]. }
  split; [exact Hadd |]. split; [exact Hupd |]. split; [exact Hups |].
  apply (inv_nul sd Hinv).
Qed.

Lemma interior_nul_truncates_witness :
  (length ["a"%byte; x00; "b"%byte] < 256)%nat
  /\ In x00 ["a"%byte; x00; "b"%byte]
  /\ isContain one_key 1 = true
  /\ isContain one_key 2 = false
  /\ c_string ["a"%byte; x00; "b"%byte] <> ["a"%byte; x00; "b"%byte]
  /\ (fst (updateRsc one_key 1 ["a"%byte; x00; "b"%byte]) = OK
      /\ getRsc (snd (updateRsc one_key 1 ["a"%byte; x00; "b"%byte])) 1
         = c_string ["a"%byte; x00; "b"%byte])
  /\ (fst (upsertRsc one_key 1 ["a"%byte; x00; "b"%byte]) = OK
      /\ getRsc (snd (upsertRsc one_key 1 ["a"%byte; x00; "b"%byte])) 1
         = c_string ["a"%byte; x00; "b"%byte])
  /\ (fst (addRsc one_key 2 ["a"%byte; x00; "b"%byte]) = OK
      /\ getRsc (snd (addRsc one_key 2 ["a"%byte; x00; "b"%byte])) 2
         = c_string ["a"%byte; x00; "b"%byte])
  /\ (fst (upsertRsc one_key 2 ["a"%byte; x00; "b"%byte]) = OK
      /\ getRsc (snd (upsertRsc one_key 2 ["a"%byte; x00; "b"%byte])) 2
         = c_string ["a"%byte; x00; "b"%byte]).
Proof.
  assert (Hreach : reachable one_key) by (exists 0, [Add 1 ["a"%byte]]; reflexivity).
  assert (Hlen : (length ["a"%byte; x00; "b"%byte] < 256)%nat) by (cbn; lia).
  assert (Hnul : In x00 ["a"%byte; x00; "b"%byte]) by (right; left; reflexivity).
  assert (Hc1 : isContain one_key 1 = true) by (vm_compute; reflexivity).
  assert (Hc2 : isContain one_key 2 = false) by (vm_compute; reflexivity).
  assert (Hroom : current_count one_key < RWLOCK_HASH_TABLE_SIZE) by (vm_compute; reflexivity).
  destruct (interior_nul_truncates one_key 1 ["a"%byte; x00; "b"%byte] Hreach Hlen Hnul)
    as [_ [Hne [_ [_ [_ [_ [_ [Hupd1 [Hups1 _]]]]]]]]].
  destruct (interior_nul_truncates one_key 2 ["a"%byte; x00; "b"%byte] Hreach Hlen Hnul)
    as [_ [_ [_ [_ [_ [_ [Hadd2 [_ [Hups2 _]]]]]]]]].
  split; [exact Hlen |]. split; [exact Hnul |]. split; [exact Hc1 |]. split; [exact Hc2 |].
  split; [exact Hne |].
  split; [exact (Hupd1 Hc1) |].
  split; [exact (Hups1 (or_introl Hc1)) |].
  split; [exact (Hadd2 Hc2 Hroom) |].
  exact (Hups2 (or_intror Hroom)).
Defined.

(* On a fresh segment add(1, v) with v the three bytes a, NUL, b returns OK
   and get(1) returns the single byte a. *)
Example interior_nul_example :
  fst (addRsc (init 0) 1 ["a"%byte; x00; "b"%byte]) = OK
  /\ getRsc (snd (addRsc (init 0) 1 ["a"%byte; x00; "b"%byte])) 1 = ["a"%byte].
Proof. split; vm_compute; reflexivity. Qed.

(** ** The end-to-end scenarios of the design, on a fresh segment *)

Example scenario_basic :
  run_codes (init 0) [Add 1 ["a"%byte]; Add 2 ["b"%byte]] = [OK; OK]
  /\ getRsc (run (init 0) [Add 1 ["a"%byte]; Add 2 ["b"%byte]]) 1 = ["a"%byte]
  /\ getRsc (run (init 0) [Add 1 ["a"%byte]; Add 2 ["b"%byte]]) 2 = ["b"%byte]
  /\ rscNum (run (init 0) [Add 1 ["a"%byte]; Add 2 ["b"%byte]]) = 2.
Proof. repeat split; vm_compute; reflexivity. Qed.

Example scenario_duplicate :
  run_codes (init 0) [Add 1 ["a"%byte]; Add 1 ["b"%byte]] = [OK; DUPLICATE_KEY]
  /\ getRsc (run (init 0) [Add 1 ["a"%byte]; Add 1 ["b"%byte]]) 1 = ["a"%byte].
Proof. repeat split; vm_compute; reflexivity. Qed.

Example scenario_upsert_update :
  run_codes (init 0) [Upsert 1 ["a"%byte]; Upsert 1 ["b"%byte]; Update 2 ["x"%byte]]
  = [OK; OK; NOT_FOUND]
  /\ getRsc (run (init 0) [Upsert 1 ["a"%byte]; Upsert 1 ["b"%byte]; Update 2 ["x"%byte]]) 1
     = ["b"%byte].
Proof. repeat split; vm_compute; reflexivity. Qed.

Example scenario_remove :
  run_codes (init 0) [Add 1 ["a"%byte]; Remove 1; Remove 1; Add 1 ["c"%byte]]
  = [OK; OK; NOT_FOUND; OK]
  /\ getRsc (run (init 0) [Add 1 ["a"%byte]; Remove 1; Remove 1; Add 1 ["c"%byte]]) 1
     = ["c"%byte]
  /\ deleted_count (run (init 0) [Add 1 ["a"%byte]; Remove 1; Remove 1; Add 1 ["c"%byte]]) = 0.
Proof. repeat split; vm_compute; reflexivity. Qed.

(* The third slot probed for key 1 under seed 0. *)
Example third_probe :
  hash_with 0 1 = 183 /\ hash2_with 0 1 = 1163
  /\ probe_pos (hash_with 0 1) (hash2_with 0 1) 2 = 1624
  /\ (hash_with 0 1 + 2 * hash2_with 0 1) mod RWLOCK_HASH_TABLE_SIZE = 461.
Proof. repeat split; vm_compute; reflexivity. Qed.

(** * Further properties *)

(** * Further properties of the operations *)

(** ** Reading one key *)

Lemma getRsc_same_key (sd sd' : RWLockOptimizedSharedData) (k : Z) :
  table_inv sd -> table_inv sd' ->
  (forall w, holds sd' k w <-> holds sd k w) ->
  getRsc sd' k = getRsc sd k /\ isContain sd' k = isContain sd k.
Proof.
  intros Hinv Hinv' Hsame.
  assert (Hocc : key_occupied sd' k <-> key_occupied sd k).
  { split; intros [i Hi].
    - apply (holds_occupied sd k (c_string (value (entry_at sd' i)))).
      apply Hsame. exists i. split; [exact Hi | reflexivity].
    - apply (holds_occupied sd' k (c_string (value (entry_at sd i)))).
      apply Hsame. exists i. split; [exact Hi | reflexivity]. }
  destruct (isContain sd k) eqn:Hc.
  - pose proof (proj1 (isContain_occupied sd k Hinv) Hc) as [i Hi].
    assert (Hh : holds sd k (c_string (value (entry_at sd i))))
      by (exists i; split; [exact Hi | reflexivity]).
    rewrite (getRsc_holds sd k _ Hinv Hh).
    rewrite (getRsc_holds sd' k _ Hinv' (proj2 (Hsame _) Hh)).
    split; [reflexivity |].
    apply (isContain_occupied sd' k Hinv'), Hocc. exists i. exact Hi.
  - assert (Hno : ~ key_occupied sd k).
    { intros Ho. apply (isContain_occupied sd k Hinv) in Ho. congruence. }
    assert (Hno' : ~ key_occupied sd' k) by (intros Ho; apply Hno, Hocc, Ho).
    rewrite (getRsc_absent sd k Hno), (getRsc_absent sd' k Hno').
    split; [reflexivity |].
    destruct (isContain sd' k) eqn:Hc'; [| reflexivity].
    exfalso. apply Hno'. apply (isContain_occupied sd' k Hinv'), Hc'.
Qed.

Lemma isContain_false (sd : RWLockOptimizedSharedData) (k : Z) :
  table_inv sd -> isContain sd k = false -> ~ key_occupied sd k.
Proof.
  intros Hinv Hc Ho. apply (isContain_occupied sd k Hinv) in Ho. congruence.
Qed.

Lemma isContain_absent (sd : RWLockOptimizedSharedData) (k : Z) :
  ~ key_occupied sd k -> isContain sd k = false.
Proof.
  intros Hno. unfold isContain. rewrite (findEntry_absent sd k Hno). reflexivity.
Qed.

(** ** The snapshot has one entry per Occupied slot *)

Lemma NoDup_map_filter_nth {A B : Type} (f : A -> bool) (g : A -> B) (d : A) (l : list A) :
  (forall i j, (i < length l)%nat -> (j < length l)%nat ->
     f (nth i l d) = true -> f (nth j l d) = true ->
     g (nth i l d) = g (nth j l d) -> i = j) ->
  NoDup (map g (filter f l)).
Proof.
  induction l as [| a l IH]; intros H; [constructor |].
  assert (IH' : NoDup (map g (filter f l))).
  { apply IH. intros i j Hi Hj Hfi Hfj Hg.
    assert (E : S i = S j) by (apply H; cbn; try lia; assumption).
    lia. }
  cbn [filter]. destruct (f a) eqn:Hfa; [| exact IH'].
  cbn [map]. constructor; [| exact IH'].
  intros Hin. apply in_map_iff in Hin. destruct Hin as [x [Hgx Hx]].
  apply filter_In in Hx. destruct Hx as [Hx Hfx].
  destruct (In_nth l x d Hx) as [j [Hj Hnth]].
  assert (E : 0%nat = S j).
  { apply H; cbn [length nth]; try lia; try assumption.
    - rewrite Hnth. exact Hfx.
    - rewrite Hnth. symmetry. exact Hgx. }
  discriminate E.
Qed.

Lemma occupied_keys_NoDup (sd : RWLockOptimizedSharedData) :
  table_inv sd ->
  NoDup (map key (filter (is_state RWLOCK_OCCUPIED) (hash_table sd))).
Proof.
  intros Hinv. pose proof (inv_len sd Hinv) as Hlen.
  apply (NoDup_map_filter_nth _ _ empty_entry).
  intros i j Hi Hj Hfi Hfj Hk.
  assert (Hoi : occupied_by sd (key (nth i (hash_table sd) empty_entry)) (Z.of_nat i)).
  { split; [unfold in_table, RWLOCK_HASH_TABLE_SIZE; lia |].
    unfold entry_at. rewrite Nat2Z.id. unfold key_matches.
    rewrite Hfi, Z.eqb_refl. reflexivity. }
  assert (Hoj : occupied_by sd (key (nth i (hash_table sd) empty_entry)) (Z.of_nat j)).
  { split; [unfold in_table, RWLOCK_HASH_TABLE_SIZE; lia |].
    unfold entry_at. rewrite Nat2Z.id. unfold key_matches.
    rewrite Hfj, Hk, Z.eqb_refl. reflexivity. }
  pose proof (inv_unique sd Hinv _ _ _ Hoi Hoj). lia.
Qed.

Lemma snapshot_sorted (tab : list RWLockHashEntry) :
  StronglySorted key_lt (snapshot tab).
Proof. rewrite snapshot_fold. apply fold_snap_sorted. constructor. Qed.

Lemma snapshot_key_in (tab : list RWLockHashEntry) (k : Z) :
  In k (map fst (snapshot tab))
  <-> In k (map key (filter (is_state RWLOCK_OCCUPIED) tab)).
Proof.
  rewrite snapshot_fold. split.
  - intros Hin. apply in_map_iff in Hin. destruct Hin as [[k' w] [E Hin]].
    cbn in E. subst k'.
    destruct (fold_snap_in _ _ _ _ Hin) as [[] | [e [He [Hk _]]]].
    apply in_map_iff. exists e. apply key_matches_spec in Hk. destruct Hk as [Hs Hkey].
    split; [exact Hkey |]. apply filter_In. split; [exact He |].
    apply is_state_eq, Hs.
  - intros Hin. apply in_map_iff in Hin. destruct Hin as [e [Hkey He]].
    apply filter_In in He. destruct He as [He Hs].
    apply fold_snap_keys. right. exists e. split; [exact He |].
    unfold key_matches. rewrite Hs, Hkey, Z.eqb_refl. reflexivity.
Qed.

Lemma snapshot_length (sd : RWLockOptimizedSharedData) :
  table_inv sd -> length (snapshot (hash_table sd)) = occ_count sd.
Proof.
  intros Hinv. unfold occ_count.
  rewrite <- (length_map fst (snapshot (hash_table sd))).
  rewrite <- (length_map key (filter _ _)).
  apply Nat.le_antisymm; apply NoDup_incl_length.
  - apply sorted_keys_NoDup, snapshot_sorted.
  - intros k Hk. apply snapshot_key_in, Hk.
  - apply occupied_keys_NoDup, Hinv.
  - intros k Hk. apply snapshot_key_in, Hk.
Qed.

(* The rebuild keeps the number of Occupied slots. *)
Lemma rebuild_occ_count (sd sd' : RWLockOptimizedSharedData) :
  table_inv sd -> rebuild sd = (OK, sd') -> occ_count sd' = occ_count sd.
Proof.
  intros Hinv Hre. unfold rebuild in Hre.
  destruct (reinsert_spec (snapshot (hash_table sd))
              (mkShared 0 0 (hash_seed sd) (clear_states (hash_table sd))))
    as [sd1 [Hre1 [_ [_ [_ [_ [Hocc _]]]]]]].
  - apply inv_cleared, Hinv.
  - apply sorted_keys_NoDup, snapshot_sorted.
  - intros k _. apply cleared_no_key.
  - rewrite cleared_occ_count, (snapshot_length sd Hinv).
    pose proof (occ_count_le sd). rewrite (inv_len sd Hinv) in *. lia.
  - apply snapshot_clean, Hinv.
  - rewrite Hre in Hre1. inversion Hre1; subst sd1.
    rewrite Hocc, cleared_occ_count, (snapshot_length sd Hinv). reflexivity.
Qed.

Lemma rehashIfNeeded_count (sd sd' : RWLockOptimizedSharedData) :
  table_inv sd -> counts_ok sd -> rehashIfNeeded sd = (OK, sd') ->
  current_count sd' = current_count sd.
Proof.
  intros Hinv Hc Hre.
  destruct (rehashIfNeeded_counts sd sd' Hinv Hc Hre) as [[Hc' _] _].
  unfold rehashIfNeeded in Hre. destruct (needRehash sd); cbn [negb] in Hre.
  - rewrite Hc', (rebuild_occ_count sd sd' Hinv Hre). symmetry. apply Hc.
  - inversion Hre. reflexivity.
Qed.

(** ** A full table *)

Lemma filter_length_all {A : Type} (f : A -> bool) (l : list A) :
  length (filter f l) = length l -> Forall (fun x => f x = true) l.
Proof.
  induction l as [| a l IH]; intros H; [constructor |].
  cbn [filter] in H. pose proof (filter_length_le f l) as Hle.
  destruct (f a) eqn:E; cbn [length] in H.
  - constructor; [exact E | apply IH; lia].
  - lia.
Qed.

Lemma all_occupied (sd : RWLockOptimizedSharedData) :
  length (hash_table sd) = 2048%nat -> occ_count sd = 2048%nat ->
  forall i, in_table i -> is_state RWLOCK_OCCUPIED (entry_at sd i) = true.
Proof.
  intros Hlen Hocc i Hi.
  assert (Hall : Forall (fun e => is_state RWLOCK_OCCUPIED e = true) (hash_table sd)).
  { apply filter_length_all. unfold occ_count in Hocc. lia. }
  rewrite Forall_forall in Hall. apply Hall, entry_at_in; assumption.
Qed.

Lemma scan_empty_all_occupied (sd : RWLockOptimizedSharedData) (k : Z) (ps : list Z) :
  Forall (fun p => is_state RWLOCK_OCCUPIED (entry_at sd p) = true) ps ->
  scan_empty sd k (-1) ps = -1.
Proof.
  induction 1 as [| p ps Hp Hps IH]; [reflexivity |].
  cbn [scan_empty].
  destruct (state_cases (entry_at sd p)) as [C | [C | C]];
    destruct C as [CE [CO CD]]; try congruence.
  rewrite CE, CD. cbn [andb]. destruct (key_matches k (entry_at sd p)); [reflexivity | exact IH].
Qed.

Lemma findEmptySlot_table_full (sd : RWLockOptimizedSharedData) (k : Z) :
  length (hash_table sd) = 2048%nat -> occ_count sd = 2048%nat ->
  findEmptySlot sd k (hash sd k) = -1.
Proof.
  intros Hlen Hocc. rewrite findEmptySlot_scan. apply scan_empty_all_occupied.
  apply Forall_forall. intros p Hp. apply all_occupied; try assumption.
  eapply probes_range, Hp.
Qed.

Lemma findEmptySlot_free (sd : RWLockOptimizedSharedData) (k : Z) :
  table_inv sd -> ~ key_occupied sd k -> (occ_count sd < 2048)%nat ->
  findEmptySlot sd k (hash sd k) <> -1.
Proof.
  intros Hinv Hno Hroom E.
  destruct (findEmptySlot_full sd k E) as [Ho | Hall]; [exact (Hno Ho) |].
  destruct (exists_free_slot sd (inv_len sd Hinv) Hroom) as [i [Hi Hf]].
  rewrite (Hall i Hi) in Hf. discriminate Hf.
Qed.

Lemma key_occupied_holds (sd : RWLockOptimizedSharedData) (k : Z) :
  key_occupied sd k <-> exists w, holds sd k w.
Proof.
  split.
  - intros [i Hi]. exists (c_string (value (entry_at sd i))), i.
    split; [exact Hi | reflexivity].
  - intros [w Hw]. eapply holds_occupied, Hw.
Qed.

Lemma key_occupied_same (sd sd' : RWLockOptimizedSharedData) (k : Z) :
  (forall w, holds sd' k w <-> holds sd k w) ->
  (key_occupied sd' k <-> key_occupied sd k).
Proof.
  intros H. rewrite !key_occupied_holds. split; intros [w Hw]; exists w; apply H, Hw.
Qed.

(** ** addRsc case by case *)

Lemma addRsc_shape (sd : RWLockOptimizedSharedData) (k : Z) (v : list byte) :
  table_inv sd ->
  (too_long v = true /\ addRsc sd k v = (NO_SPACE_ERR, sd))
  \/ (too_long v = false
      /\ exists sd1,
           rehashIfNeeded sd = (OK, sd1)
           /\ ((findEmptySlot sd1 k (hash sd1 k) = -1
                /\ addRsc sd k v
                   = ((if RWLOCK_MAX_ENTRIES <=? current_count sd1
                       then NO_SPACE_ERR else DUPLICATE_KEY), sd1))
               \/ (findEmptySlot sd1 k (hash sd1 k) <> -1
                   /\ addRsc sd k v
                      = (OK, insert_at sd1 (findEmptySlot sd1 k (hash sd1 k)) k v
                               (hash sd1 k))))).
Proof.
  intros Hinv. unfold addRsc. destruct (too_long v) eqn:Hl; [left; split; reflexivity |].
  right. split; [reflexivity |].
  destruct (rehashIfNeeded_spec sd Hinv) as [sd1 [Hre _]].
  exists sd1. split; [exact Hre |]. rewrite Hre.
  change (negb (OK =? OK)) with false. cbv iota.
  destruct (Z.eqb_spec (findEmptySlot sd1 k (hash sd1 k)) (-1)) as [E | Hne].
  - left. split; [exact E | reflexivity].
  - right. split; [exact Hne | reflexivity].
Qed.

Lemma NO_SPACE_not_OK : NO_SPACE_ERR <> OK.
Proof. discriminate. Qed.

Lemma dup_code_not_OK (c : Z) :
  (if RWLOCK_MAX_ENTRIES <=? c then NO_SPACE_ERR else DUPLICATE_KEY) <> OK.
Proof. destruct (RWLOCK_MAX_ENTRIES <=? c); discriminate. Qed.

(* What add returns, from the state before the call. *)
Lemma addRsc_code (sd : RWLockOptimizedSharedData) (k : Z) (v : list byte) :
  table_inv sd -> counts_ok sd ->
  fst (addRsc sd k v)
  = if too_long v then NO_SPACE_ERR
    else if isContain sd k then
           (if RWLOCK_MAX_ENTRIES <=? current_count sd then NO_SPACE_ERR else DUPLICATE_KEY)
    else if current_count sd <? RWLOCK_HASH_TABLE_SIZE then OK else NO_SPACE_ERR.
Proof.
  intros Hinv Hc.
  destruct (addRsc_shape sd k v Hinv) as [[Hl Hadd] | [Hl [sd1 [Hre Hcase]]]];
    rewrite Hl; [rewrite Hadd; reflexivity |].
  destruct (rehashIfNeeded_spec sd Hinv) as [sd1' [Hre' [Hinv1 [_ [_ [_ Hholds1]]]]]].
  rewrite Hre in Hre'. inversion Hre'; subst sd1'. clear Hre'.
  pose proof (rehashIfNeeded_count sd sd1 Hinv Hc Hre) as Hcount.
  destruct (rehashIfNeeded_counts sd sd1 Hinv Hc Hre) as [[Hc1 _] _].
  pose proof (key_occupied_same sd sd1 k (Hholds1 k)) as Hocc.
  pose proof (occ_count_le sd1) as Hle. rewrite (inv_len sd1 Hinv1) in Hle.
  destruct (isContain sd k) eqn:Hcont.
  - apply (isContain_occupied sd k Hinv) in Hcont. apply Hocc in Hcont.
    pose proof (findEmptySlot_duplicate sd1 k Hinv1 Hcont) as E.
    destruct Hcase as [[_ Hadd] | [Hne _]]; [| contradiction].
    rewrite Hadd, Hcount. reflexivity.
  - apply (isContain_false sd k Hinv) in Hcont.
    assert (Hno : ~ key_occupied sd1 k) by (intros H; apply Hcont, Hocc, H).
    unfold RWLOCK_HASH_TABLE_SIZE.
    destruct (Z.ltb_spec (current_count sd) 2048) as [Hlt | Hge].
    + destruct Hcase as [[E _] | [_ Hadd]]; [| rewrite Hadd; reflexivity].
      exfalso. apply (findEmptySlot_free sd1 k Hinv1 Hno); [lia | exact E].
    + destruct Hcase as [[_ Hadd] | [Hne _]].
      * rewrite Hadd. cbn [fst]. unfold RWLOCK_MAX_ENTRIES.
        destruct (Z.leb_spec 1536 (current_count sd1)); [reflexivity | lia].
      * exfalso. apply Hne. apply findEmptySlot_table_full; [apply (inv_len sd1 Hinv1) | lia].
Qed.

Lemma insert_at_count (sd : RWLockOptimizedSharedData) (pos k h : Z) (v : list byte) :
  current_count (insert_at sd pos k v h) = current_count sd + 1.
Proof. reflexivity. Qed.

(* What add changes. *)
Lemma addRsc_effect (sd : RWLockOptimizedSharedData) (k : Z) (v : list byte) :
  table_inv sd -> counts_ok sd ->
  current_count (snd (addRsc sd k v))
  = current_count sd + (if fst (addRsc sd k v) =? OK then 1 else 0)
  /\ (fst (addRsc sd k v) = OK -> holds (snd (addRsc sd k v)) k (c_string v))
  /\ (fst (addRsc sd k v) <> OK ->
      forall k' w, holds (snd (addRsc sd k v)) k' w <-> holds sd k' w)
  /\ (forall k' w, k' <> k -> (holds (snd (addRsc sd k v)) k' w <-> holds sd k' w)).
Proof.
  intros Hinv Hc.
  destruct (addRsc_shape sd k v Hinv) as [[Hl Hadd] | [Hl [sd1 [Hre Hcase]]]].
  - rewrite Hadd. cbn [fst snd]. split; [cbn; lia |].
    split; [discriminate |]. split; [reflexivity | reflexivity].
  - destruct (rehashIfNeeded_spec sd Hinv) as [sd1' [Hre' [Hinv1 [_ [_ [_ Hholds1]]]]]].
    rewrite Hre in Hre'. inversion Hre'; subst sd1'. clear Hre'.
    pose proof (rehashIfNeeded_count sd sd1 Hinv Hc Hre) as Hcount.
    destruct Hcase as [[E Hadd] | [Hne Hadd]]; rewrite Hadd; cbn [fst snd].
    + pose proof (dup_code_not_OK (current_count sd1)) as Hcode.
      destruct (Z.eqb_spec (if RWLOCK_MAX_ENTRIES <=? current_count sd1
                            then NO_SPACE_ERR else DUPLICATE_KEY) OK) as [E' | _];
        [contradiction |].
      split; [lia |]. split; [intros H; contradiction |].
      split; [intros _; exact Hholds1 | intros k' w _; apply Hholds1].
    + destruct (insert_at_spec sd1 k v Hinv1 Hne) as [_ [_ [_ Hholds2]]].
      rewrite insert_at_count. change (OK =? OK) with true.
      split; [lia |].
      split; [intros _; apply Hholds2; left; split;
              [reflexivity | apply c_string_store_value, Hl] |].
      split; [intros H; exfalso; apply H; reflexivity |].
      intros k' w Hk'. rewrite Hholds2, Hholds1. split; [| intros H; right; exact H].
      intros [[Hk _] | H]; [contradiction | exact H].
Qed.

(** ** upsertRsc, updateRsc and removeRsc case by case *)

Lemma isContain_findEntry (sd : RWLockOptimizedSharedData) (k : Z) :
  isContain sd k = negb (findEntry sd k (hash sd k) =? -1).
Proof. reflexivity. Qed.

Lemma upsertRsc_shape (sd : RWLockOptimizedSharedData) (k : Z) (v : list byte) :
  table_inv sd ->
  (too_long v = true /\ upsertRsc sd k v = (NO_SPACE_ERR, sd))
  \/ (too_long v = false /\ isContain sd k = true
      /\ occupied_by sd k (findEntry sd k (hash sd k))
      /\ upsertRsc sd k v = (OK, overwrite_at sd (findEntry sd k (hash sd k)) v))
  \/ (too_long v = false /\ isContain sd k = false
      /\ exists sd1,
           rehashIfNeeded sd = (OK, sd1)
           /\ ((findEmptySlot sd1 k (hash sd1 k) = -1
                /\ upsertRsc sd k v = (NO_SPACE_ERR, sd1))
               \/ (findEmptySlot sd1 k (hash sd1 k) <> -1
                   /\ upsertRsc sd k v
                      = (OK, insert_at sd1 (findEmptySlot sd1 k (hash sd1 k)) k v
                               (hash sd1 k))))).
Proof.
  intros Hinv. unfold upsertRsc, isContain.
  destruct (too_long v) eqn:Hl; [left; split; reflexivity |]. right.
  destruct (Z.eqb_spec (findEntry sd k (hash sd k)) (-1)) as [E | Hne]; cbn [negb].
  - right. split; [reflexivity |]. split; [reflexivity |].
    destruct (rehashIfNeeded_spec sd Hinv) as [sd1 [Hre [_ [Hseed1 _]]]].
    exists sd1. split; [exact Hre |]. rewrite Hre.
    change (negb (OK =? OK)) with false. cbv iota.
    assert (Eh : hash sd k = hash sd1 k) by (unfold hash; rewrite Hseed1; reflexivity).
    rewrite Eh.
    destruct (Z.eqb_spec (findEmptySlot sd1 k (hash sd1 k)) (-1)) as [E' | Hne'].
    + left. split; [exact E' | reflexivity].
    + right. split; [exact Hne' | reflexivity].
  - left. split; [reflexivity |]. split; [reflexivity |].
    split; [apply findEntry_found, Hne | reflexivity].
Qed.

Lemma upsertRsc_code (sd : RWLockOptimizedSharedData) (k : Z) (v : list byte) :
  table_inv sd -> counts_ok sd ->
  fst (upsertRsc sd k v)
  = if too_long v then NO_SPACE_ERR
    else if isContain sd k then OK
    else if current_count sd <? RWLOCK_HASH_TABLE_SIZE then OK else NO_SPACE_ERR.
Proof.
  intros Hinv Hc.
  destruct (upsertRsc_shape sd k v Hinv)
    as [[Hl Hup] | [[Hl [Hcont [_ Hup]]] | [Hl [Hcont [sd1 [Hre Hcase]]]]]];
    rewrite Hl; try rewrite Hcont; [rewrite Hup; reflexivity .. |].
  destruct (rehashIfNeeded_spec sd Hinv) as [sd1' [Hre' [Hinv1 [_ [_ [_ Hholds1]]]]]].
  rewrite Hre in Hre'. inversion Hre'; subst sd1'. clear Hre'.
  pose proof (rehashIfNeeded_count sd sd1 Hinv Hc Hre) as Hcount.
  destruct (rehashIfNeeded_counts sd sd1 Hinv Hc Hre) as [[Hc1 _] _].
  pose proof (key_occupied_same sd sd1 k (Hholds1 k)) as Hocc.
  pose proof (occ_count_le sd1) as Hle. rewrite (inv_len sd1 Hinv1) in Hle.
  apply (isContain_false sd k Hinv) in Hcont.
  assert (Hno : ~ key_occupied sd1 k) by (intros H; apply Hcont, Hocc, H).
  unfold RWLOCK_HASH_TABLE_SIZE.
  destruct (Z.ltb_spec (current_count sd) 2048) as [Hlt | Hge].
  - destruct Hcase as [[E _] | [_ Hup]]; [| rewrite Hup; reflexivity].
    exfalso. apply (findEmptySlot_free sd1 k Hinv1 Hno); [lia | exact E].
  - destruct Hcase as [[_ Hup] | [Hne _]]; [rewrite Hup; reflexivity |].
    exfalso. apply Hne. apply findEmptySlot_table_full; [apply (inv_len sd1 Hinv1) | lia].
Qed.

Lemma upsertRsc_effect (sd : RWLockOptimizedSharedData) (k : Z) (v : list byte) :
  table_inv sd -> counts_ok sd ->
  current_count (snd (upsertRsc sd k v))
  = current_count sd
    + (if (fst (upsertRsc sd k v) =? OK) && negb (isContain sd k) then 1 else 0)
  /\ (fst (upsertRsc sd k v) = OK -> holds (snd (upsertRsc sd k v)) k (c_string v))
  /\ (fst (upsertRsc sd k v) <> OK ->
      forall k' w, holds (snd (upsertRsc sd k v)) k' w <-> holds sd k' w)
  /\ (forall k' w, k' <> k -> (holds (snd (upsertRsc sd k v)) k' w <-> holds sd k' w)).
Proof.
  intros Hinv Hc.
  destruct (upsertRsc_shape sd k v Hinv)
    as [[Hl Hup] | [[Hl [Hcont [Ho Hup]]] | [Hl [Hcont [sd1 [Hre Hcase]]]]]].
  - rewrite Hup. cbn [fst snd]. split; [cbn; lia |].
    split; [discriminate |]. split; [reflexivity | reflexivity].
  - rewrite Hup, Hcont. cbn [fst snd negb]. rewrite andb_false_r.
    split; [cbn; lia |].
    split; [intros _; apply (holds_overwrite sd k _ v k _ Hinv Ho); left; split;
            [reflexivity | apply c_string_store_value, Hl] |].
    split; [intros H; exfalso; apply H; reflexivity |].
    intros k' w Hk'. rewrite (holds_overwrite sd k _ v k' w Hinv Ho).
    split; [intros [[E _] | [_ H]]; [contradiction | exact H] |].
    intros H. right. split; assumption.
  - destruct (rehashIfNeeded_spec sd Hinv) as [sd1' [Hre' [Hinv1 [_ [_ [_ Hholds1]]]]]].
    rewrite Hre in Hre'. inversion Hre'; subst sd1'. clear Hre'.
    pose proof (rehashIfNeeded_count sd sd1 Hinv Hc Hre) as Hcount.
    rewrite Hcont. cbn [negb].
    destruct Hcase as [[E Hup] | [Hne Hup]]; rewrite Hup; cbn [fst snd].
    + change (NO_SPACE_ERR =? OK) with false. cbn [andb].
      split; [lia |]. split; [discriminate |].
      split; [intros _; exact Hholds1 | intros k' w _; apply Hholds1].
    + destruct (insert_at_spec sd1 k v Hinv1 Hne) as [_ [_ [_ Hholds2]]].
      rewrite insert_at_count. change (OK =? OK) with true. cbn [andb].
      split; [lia |].
      split; [intros _; apply Hholds2; left; split;
              [reflexivity | apply c_string_store_value, Hl] |].
      split; [intros H; exfalso; apply H; reflexivity |].
      intros k' w Hk'. rewrite Hholds2, Hholds1. split; [| intros H; right; exact H].
      intros [[Hk _] | H]; [contradiction | exact H].
Qed.

Lemma updateRsc_shape (sd : RWLockOptimizedSharedData) (k : Z) (v : list byte) :
  (too_long v = true /\ updateRsc sd k v = (NO_SPACE_ERR, sd))
  \/ (too_long v = false /\ isContain sd k = false
      /\ updateRsc sd k v = (NOT_FOUND, sd))
  \/ (too_long v = false /\ isContain sd k = true
      /\ occupied_by sd k (findEntry sd k (hash sd k))
      /\ updateRsc sd k v = (OK, overwrite_at sd (findEntry sd k (hash sd k)) v)).
Proof.
  unfold updateRsc, isContain.
  destruct (too_long v) eqn:Hl; [left; split; reflexivity |]. right.
  destruct (Z.eqb_spec (findEntry sd k (hash sd k)) (-1)) as [E | Hne]; cbn [negb].
  - left. repeat split; reflexivity.
  - right. split; [reflexivity |]. split; [reflexivity |].
    split; [apply findEntry_found, Hne | reflexivity].
Qed.

Lemma removeRsc_shape (sd : RWLockOptimizedSharedData) (k : Z) :
  (isContain sd k = false /\ removeRsc sd k = (NOT_FOUND, sd))
  \/ (isContain sd k = true
      /\ occupied_by sd k (findEntry sd k (hash sd k))
      /\ removeRsc sd k
         = (OK, mkShared (current_count sd - 1) (deleted_count sd + 1) (hash_seed sd)
                  (set_entry sd (findEntry sd k (hash sd k))
                     (set_state RWLOCK_DELETED
                        (entry_at sd (findEntry sd k (hash sd k))))))).
Proof.
  unfold removeRsc, isContain.
  destruct (Z.eqb_spec (findEntry sd k (hash sd k)) (-1)) as [E | Hne]; cbn [negb].
  - left. split; reflexivity.
  - right. split; [reflexivity |].
    split; [apply findEntry_found, Hne | reflexivity].
Qed.

(* Overwriting a value keeps which keys are present. *)
Lemma overwrite_presence (sd : RWLockOptimizedSharedData) (k r : Z) (v : list byte)
    (k' : Z) :
  table_inv sd -> occupied_by sd k r ->
  (key_occupied (overwrite_at sd r v) k' <-> key_occupied sd k').
Proof.
  intros Hinv Ho. rewrite !key_occupied_holds. split.
  - intros [w Hw]. apply (holds_overwrite sd k r v k' w Hinv Ho) in Hw.
    destruct Hw as [[-> _] | [_ Hw]]; [| exists w; exact Hw].
    apply key_occupied_holds. exists r. exact Ho.
  - intros [w Hw]. destruct (Z.eq_dec k' k) as [-> | Hne].
    + exists (c_string (store_value v)).
      apply (holds_overwrite sd k r v k _ Hinv Ho). left. split; reflexivity.
    + exists w. apply (holds_overwrite sd k r v k' w Hinv Ho). right. split; assumption.
Qed.

Lemma isContain_same (sd sd' : RWLockOptimizedSharedData) (k : Z) :
  table_inv sd -> table_inv sd' ->
  (key_occupied sd' k <-> key_occupied sd k) ->
  isContain sd' k = isContain sd k.
Proof.
  intros Hinv Hinv' H.
  destruct (isContain sd k) eqn:Hc.
  - apply (isContain_occupied sd' k Hinv'), H, (isContain_occupied sd k Hinv), Hc.
  - apply isContain_absent. intros Ho. apply H in Ho.
    apply (isContain_occupied sd k Hinv) in Ho. congruence.
Qed.

(** ** Outcomes of the mutators in reachable states *)

Lemma holds_get (sd : RWLockOptimizedSharedData) (k : Z) (w : list byte) :
  table_inv sd -> holds sd k w -> getRsc sd k = w /\ isContain sd k = true.
Proof.
  intros Hinv Hh. split; [apply getRsc_holds; assumption |].
  apply (isContain_occupied sd k Hinv). eapply holds_occupied, Hh.
Qed.

(** X1.  addRsc in a reachable state: the return code is NO_SPACE for a
    value of VALUE_CAP bytes or more; otherwise, for a key already present,
    NO_SPACE when current_count >= RWLOCK_MAX_ENTRIES and DUPLICATE below it;
    otherwise OK while current_count < RWLOCK_HASH_TABLE_SIZE and NO_SPACE
    when all slots are Occupied.  count() grows by one exactly on OK, get(k)
    then returns the stored prefix of v, a failed add changes no key, and no
    add changes another key. *)
Theorem addRsc_outcome (sd : RWLockOptimizedSharedData) (k : Z) (v : list byte) :
  reachable sd ->
  fst (addRsc sd k v)
  = (if too_long v then NO_SPACE_ERR
     else if isContain sd k then
            (if RWLOCK_MAX_ENTRIES <=? current_count sd then NO_SPACE_ERR else DUPLICATE_KEY)
     else if current_count sd <? RWLOCK_HASH_TABLE_SIZE then OK else NO_SPACE_ERR)
  /\ rscNum (snd (addRsc sd k v))
     = rscNum sd + (if fst (addRsc sd k v) =? OK then 1 else 0)
  /\ (fst (addRsc sd k v) = OK ->
      getRsc (snd (addRsc sd k v)) k = c_string v
      /\ isContain (snd (addRsc sd k v)) k = true)
  /\ (fst (addRsc sd k v) <> OK ->
      getRsc (snd (addRsc sd k v)) k = getRsc sd k
      /\ isContain (snd (addRsc sd k v)) k = isContain sd k)
  /\ (forall k', k' <> k ->
        getRsc (snd (addRsc sd k v)) k' = getRsc sd k'
        /\ isContain (snd (addRsc sd k v)) k' = isContain sd k').
Proof.
  intros Hreach.
  pose proof (reachable_inv sd Hreach) as Hinv.
  pose proof (reachable_counts sd Hreach) as Hc.
  destruct (addRsc_spec sd k v Hinv) as [Hinv' _].
  destruct (addRsc_effect sd k v Hinv Hc) as [Hcount [Hok [Hfail Hframe]]].
  split; [apply addRsc_code; assumption |].
  split; [exact Hcount |].
  split; [intros H; apply holds_get; [exact Hinv' | apply Hok, H] |].
  split; [intros H; apply getRsc_same_key; try assumption; intros w; apply Hfail, H |].
  intros k' Hk'. apply getRsc_same_key; try assumption. intros w. apply Hframe, Hk'.
Qed.

Lemma addRsc_outcome_witness :
  fst (addRsc one_key 2 ["b"%byte])
  = (if too_long ["b"%byte] then NO_SPACE_ERR
     else if isContain one_key 2 then
            (if RWLOCK_MAX_ENTRIES <=? current_count one_key
             then NO_SPACE_ERR else DUPLICATE_KEY)
     else if current_count one_key <? RWLOCK_HASH_TABLE_SIZE then OK else NO_SPACE_ERR)
  /\ rscNum (snd (addRsc one_key 2 ["b"%byte]))
     = rscNum one_key + (if fst (addRsc one_key 2 ["b"%byte]) =? OK then 1 else 0)
  /\ (fst (addRsc one_key 2 ["b"%byte]) = OK ->
      getRsc (snd (addRsc one_key 2 ["b"%byte])) 2 = c_string ["b"%byte]
      /\ isContain (snd (addRsc one_key 2 ["b"%byte])) 2 = true)
  /\ (fst (addRsc one_key 2 ["b"%byte]) <> OK ->
      getRsc (snd (addRsc one_key 2 ["b"%byte])) 2 = getRsc one_key 2
      /\ isContain (snd (addRsc one_key 2 ["b"%byte])) 2 = isContain one_key 2)
  /\ (forall k', k' <> 2 ->
        getRsc (snd (addRsc one_key 2 ["b"%byte])) k' = getRsc one_key k'
        /\ isContain (snd (addRsc one_key 2 ["b"%byte])) k' = isContain one_key k').
Proof.
  apply (addRsc_outcome one_key 2 ["b"%byte]).
  exists 0, [Add 1 ["a"%byte]]. reflexivity.
Defined.

(** X2.  upsertRsc in a reachable state returns NO_SPACE for a value of
    VALUE_CAP bytes or more, otherwise OK when the key is present or
    current_count < RWLOCK_HASH_TABLE_SIZE, and NO_SPACE when the key is
    absent and every slot is Occupied.  After OK, get(k) returns the stored
    prefix of v, count() has grown by one exactly when the key was absent,
    and a following add of k is never OK.  A failed upsert changes no key and
    no upsert changes another key. *)
Theorem upsertRsc_outcome (sd : RWLockOptimizedSharedData) (k : Z) (v : list byte) :
  reachable sd ->
  fst (upsertRsc sd k v)
  = (if too_long v then NO_SPACE_ERR
     else if isContain sd k then OK
     else if current_count sd <? RWLOCK_HASH_TABLE_SIZE then OK else NO_SPACE_ERR)
  /\ rscNum (snd (upsertRsc sd k v))
     = rscNum sd
       + (if (fst (upsertRsc sd k v) =? OK) && negb (isContain sd k) then 1 else 0)
  /\ (fst (upsertRsc sd k v) = OK ->
      getRsc (snd (upsertRsc sd k v)) k = c_string v
      /\ isContain (snd (upsertRsc sd k v)) k = true
      /\ forall v', fst (addRsc (snd (upsertRsc sd k v)) k v') <> OK)
  /\ (fst (upsertRsc sd k v) <> OK ->
      getRsc (snd (upsertRsc sd k v)) k = getRsc sd k
      /\ isContain (snd (upsertRsc sd k v)) k = isContain sd k)
  /\ (forall k', k' <> k ->
        getRsc (snd (upsertRsc sd k v)) k' = getRsc sd k'
        /\ isContain (snd (upsertRsc sd k v)) k' = isContain sd k').
Proof.
  intros Hreach.
  pose proof (reachable_inv sd Hreach) as Hinv.
  pose proof (reachable_counts sd Hreach) as Hc.
  destruct (upsertRsc_spec sd k v Hinv) as [Hinv' _].
  pose proof (upsertRsc_counts sd k v Hinv Hc) as Hc'.
  destruct (upsertRsc_effect sd k v Hinv Hc) as [Hcount [Hok [Hfail Hframe]]].
  split; [apply upsertRsc_code; assumption |].
  split; [exact Hcount |].
  split.
  { intros H. destruct (holds_get _ k _ Hinv' (Hok H)) as [Hg Hcont].
    split; [exact Hg |]. split; [exact Hcont |].
    intros v'. rewrite (addRsc_code _ k v' Hinv' Hc'), Hcont.
    destruct (too_long v'); [discriminate |]. apply dup_code_not_OK. }
  split; [intros H; apply getRsc_same_key; try assumption; intros w; apply Hfail, H |].
  intros k' Hk'. apply getRsc_same_key; try assumption. intros w. apply Hframe, Hk'.
Qed.

Lemma upsertRsc_outcome_witness :
  fst (upsertRsc one_key 1 ["b"%byte])
  = (if too_long ["b"%byte] then NO_SPACE_ERR
     else if isContain one_key 1 then OK
     else if current_count one_key <? RWLOCK_HASH_TABLE_SIZE then OK else NO_SPACE_ERR)
  /\ rscNum (snd (upsertRsc one_key 1 ["b"%byte]))
     = rscNum one_key
       + (if (fst (upsertRsc one_key 1 ["b"%byte]) =? OK) && negb (isContain one_key 1)
          then 1 else 0)
  /\ (fst (upsertRsc one_key 1 ["b"%byte]) = OK ->
      getRsc (snd (upsertRsc one_key 1 ["b"%byte])) 1 = c_string ["b"%byte]
      /\ isContain (snd (upsertRsc one_key 1 ["b"%byte])) 1 = true
      /\ forall v', fst (addRsc (snd (upsertRsc one_key 1 ["b"%byte])) 1 v') <> OK)
  /\ (fst (upsertRsc one_key 1 ["b"%byte]) <> OK ->
      getRsc (snd (upsertRsc one_key 1 ["b"%byte])) 1 = getRsc one_key 1
      /\ isContain (snd (upsertRsc one_key 1 ["b"%byte])) 1 = isContain one_key 1)
  /\ (forall k', k' <> 1 ->
        getRsc (snd (upsertRsc one_key 1 ["b"%byte])) k' = getRsc one_key k'
        /\ isContain (snd (upsertRsc one_key 1 ["b"%byte])) k' = isContain one_key k').
Proof.
  apply (upsertRsc_outcome one_key 1 ["b"%byte]).
  exists 0, [Add 1 ["a"%byte]]. reflexivity.
Defined.

(** X3.  updateRsc in a reachable state returns NO_SPACE for a value of
    VALUE_CAP bytes or more, NOT_FOUND for an absent key and OK otherwise.
    Unless it returns OK the segment is unchanged.  After OK, get(k) returns
    the stored prefix of v; in every case both counters, the presence of
    every key and the value of every other key stay as they were. *)
Theorem updateRsc_outcome (sd : RWLockOptimizedSharedData) (k : Z) (v : list byte) :
  reachable sd ->
  fst (updateRsc sd k v)
  = (if too_long v then NO_SPACE_ERR else if isContain sd k then OK else NOT_FOUND)
  /\ (fst (updateRsc sd k v) <> OK -> snd (updateRsc sd k v) = sd)
  /\ (fst (updateRsc sd k v) = OK -> getRsc (snd (updateRsc sd k v)) k = c_string v)
  /\ current_count (snd (updateRsc sd k v)) = current_count sd
  /\ deleted_count (snd (updateRsc sd k v)) = deleted_count sd
  /\ (forall k', isContain (snd (updateRsc sd k v)) k' = isContain sd k')
  /\ (forall k', k' <> k -> getRsc (snd (updateRsc sd k v)) k' = getRsc sd k').
Proof.
  intros Hreach.
  pose proof (reachable_inv sd Hreach) as Hinv.
  destruct (updateRsc_shape sd k v) as [[Hl Hup] | [[Hl [Hcont Hup]] | [Hl [Hcont [Ho Hup]]]]];
    rewrite Hup, Hl; try rewrite Hcont; cbn [fst snd].
  - repeat split; try reflexivity. discriminate.
  - repeat split; try reflexivity. discriminate.
  - pose proof (inv_overwrite sd k _ v Hinv Ho) as Hinv'.
    split; [reflexivity |].
    split; [intros H; exfalso; apply H; reflexivity |].
    split.
    { intros _. apply getRsc_holds; [exact Hinv' |].
      apply (holds_overwrite sd k _ v k _ Hinv Ho). left.
      split; [reflexivity | apply c_string_store_value, Hl]. }
    split; [reflexivity |]. split; [reflexivity |].
    split.
    { intros k'. apply isContain_same; try assumption.
      apply (overwrite_presence sd k _ v k' Hinv Ho). }
    intros k' Hk'. apply getRsc_same_key; try assumption. intros w.
    rewrite (holds_overwrite sd k _ v k' w Hinv Ho).
    split; [intros [[E _] | [_ H]]; [contradiction | exact H] |].
    intros H. right. split; assumption.
Qed.

Lemma updateRsc_outcome_witness :
  fst (updateRsc one_key 1 ["b"%byte])
  = (if too_long ["b"%byte] then NO_SPACE_ERR
     else if isContain one_key 1 then OK else NOT_FOUND)
  /\ (fst (updateRsc one_key 1 ["b"%byte]) <> OK ->
      snd (updateRsc one_key 1 ["b"%byte]) = one_key)
  /\ (fst (updateRsc one_key 1 ["b"%byte]) = OK ->
      getRsc (snd (updateRsc one_key 1 ["b"%byte])) 1 = c_string ["b"%byte])
  /\ current_count (snd (updateRsc one_key 1 ["b"%byte])) = current_count one_key
  /\ deleted_count (snd (updateRsc one_key 1 ["b"%byte])) = deleted_count one_key
  /\ (forall k', isContain (snd (updateRsc one_key 1 ["b"%byte])) k' = isContain one_key k')
  /\ (forall k', k' <> 1 ->
        getRsc (snd (updateRsc one_key 1 ["b"%byte])) k' = getRsc one_key k').
Proof.
  apply (updateRsc_outcome one_key 1 ["b"%byte]).
  exists 0, [Add 1 ["a"%byte]]. reflexivity.
Defined.

(** X4.  removeRsc in a reachable state returns OK for a present key and
    NOT_FOUND, with the segment unchanged, for an absent one.  On OK
    current_count drops by one and deleted_count grows by one.  Afterwards
    the key is absent, and every other key keeps its presence and value. *)
Theorem removeRsc_outcome (sd : RWLockOptimizedSharedData) (k : Z) :
  reachable sd ->
  fst (removeRsc sd k) = (if isContain sd k then OK else NOT_FOUND)
  /\ (isContain sd k = false -> snd (removeRsc sd k) = sd)
  /\ current_count (snd (removeRsc sd k))
     = current_count sd - (if isContain sd k then 1 else 0)
  /\ deleted_count (snd (removeRsc sd k))
     = deleted_count sd + (if isContain sd k then 1 else 0)
  /\ isContain (snd (removeRsc sd k)) k = false
  /\ getRsc (snd (removeRsc sd k)) k = []
  /\ (forall k', k' <> k ->
        getRsc (snd (removeRsc sd k)) k' = getRsc sd k'
        /\ isContain (snd (removeRsc sd k)) k' = isContain sd k').
Proof.
  intros Hreach.
  pose proof (reachable_inv sd Hreach) as Hinv.
  destruct (removeRsc_spec sd k Hinv) as [Hinv' [_ [_ Hno]]].
  assert (Hframe : forall k', k' <> k ->
            getRsc (snd (removeRsc sd k)) k' = getRsc sd k'
            /\ isContain (snd (removeRsc sd k)) k' = isContain sd k').
  { intros k' Hk'. apply getRsc_same_key; try assumption. intros w.
    destruct (removeRsc_shape sd k) as [[_ Hrm] | [_ [Ho Hrm]]]; rewrite Hrm; cbn [snd].
    - reflexivity.
    - rewrite (holds_tombstone sd k _ _ _ k' w Hinv Ho).
      split; [intros [_ H]; exact H | intros H; split; assumption]. }
  split; [| split; [| split; [| split; [| split; [| split]]]]];
    try (apply isContain_absent, Hno); try (apply getRsc_absent, Hno);
    try exact Hframe;
    destruct (removeRsc_shape sd k) as [[Hcont Hrm] | [Hcont [_ Hrm]]];
    rewrite Hrm, Hcont; cbn [fst snd current_count deleted_count];
    try reflexivity; try lia; try discriminate.
Qed.

Lemma removeRsc_outcome_witness :
  fst (removeRsc one_key 1) = (if isContain one_key 1 then OK else NOT_FOUND)
  /\ (isContain one_key 1 = false -> snd (removeRsc one_key 1) = one_key)
  /\ current_count (snd (removeRsc one_key 1))
     = current_count one_key - (if isContain one_key 1 then 1 else 0)
  /\ deleted_count (snd (removeRsc one_key 1))
     = deleted_count one_key + (if isContain one_key 1 then 1 else 0)
  /\ isContain (snd (removeRsc one_key 1)) 1 = false
  /\ getRsc (snd (removeRsc one_key 1)) 1 = []
  /\ (forall k', k' <> 1 ->
        getRsc (snd (removeRsc one_key 1)) k' = getRsc one_key k'
        /\ isContain (snd (removeRsc one_key 1)) k' = isContain one_key k').
Proof.
  apply (removeRsc_outcome one_key 1).
  exists 0, [Add 1 ["a"%byte]]. reflexivity.
Defined.

(** ** clearRsc and batchGetRsc *)

Lemma snapshot_none (tab : list RWLockHashEntry) :
  Forall (fun e => is_state RWLOCK_OCCUPIED e = false) tab -> snapshot tab = [].
Proof.
  rewrite snapshot_fold. induction 1 as [| e tab He Htab IH]; [reflexivity |].
  cbn [fold_left]. unfold snap_step at 2. rewrite He. exact IH.
Qed.

Lemma snapshot_cleared (tab : list RWLockHashEntry) : snapshot (clear_states tab) = [].
Proof.
  apply snapshot_none, Forall_forall. intros e He.
  apply in_map_iff in He. destruct He as [e0 [<- _]]. reflexivity.
Qed.

(** X5.  clearRsc returns OK and leaves count() = 0, deleted_count = 0 and
    the seed unchanged; afterwards no key is present, every get is empty and
    batchGetRsc returns no entry.  After a clear of a reachable state, add of
    any key with a value shorter than VALUE_CAP returns OK. *)
Theorem clearRsc_outcome (sd : RWLockOptimizedSharedData) :
  reachable sd ->
  fst (clearRsc sd) = OK
  /\ rscNum (snd (clearRsc sd)) = 0
  /\ deleted_count (snd (clearRsc sd)) = 0
  /\ hash_seed (snd (clearRsc sd)) = hash_seed sd
  /\ (forall k, isContain (snd (clearRsc sd)) k = false
                /\ getRsc (snd (clearRsc sd)) k = [])
  /\ batchGetRsc (snd (clearRsc sd)) = (0, [])
  /\ (forall k v, too_long v = false -> fst (addRsc (snd (clearRsc sd)) k v) = OK).
Proof.
  intros Hreach. pose proof (reachable_inv sd Hreach) as Hinv.
  unfold clearRsc. cbn [fst snd].
  split; [reflexivity |]. split; [reflexivity |]. split; [reflexivity |].
  split; [reflexivity |].
  split.
  { intros k. split; [apply isContain_absent | apply getRsc_absent]; apply cleared_no_key. }
  split.
  { unfold batchGetRsc. cbn [hash_table]. rewrite snapshot_cleared. reflexivity. }
  intros k v Hl.
  rewrite (addRsc_code _ k v (inv_cleared sd Hinv) (cleared_counts sd)), Hl.
  rewrite (isContain_absent _ k (cleared_no_key sd k)). reflexivity.
Qed.

Lemma clearRsc_outcome_witness :
  fst (clearRsc one_key) = OK
  /\ rscNum (snd (clearRsc one_key)) = 0
  /\ deleted_count (snd (clearRsc one_key)) = 0
  /\ hash_seed (snd (clearRsc one_key)) = hash_seed one_key
  /\ (forall k, isContain (snd (clearRsc one_key)) k = false
                /\ getRsc (snd (clearRsc one_key)) k = [])
  /\ batchGetRsc (snd (clearRsc one_key)) = (0, [])
  /\ (forall k v, too_long v = false -> fst (addRsc (snd (clearRsc one_key)) k v) = OK).
Proof.
  apply (clearRsc_outcome one_key).
  exists 0, [Add 1 ["a"%byte]]. reflexivity.
Defined.

(** X6.  batchGetRsc in a reachable state returns exactly the present keys
    with the values that get returns for them, in strictly ascending key
    order, and its return value is the number of entries, which is
    count(). *)
Theorem batchGetRsc_snapshot (sd : RWLockOptimizedSharedData) :
  reachable sd ->
  fst (batchGetRsc sd) = rscNum sd
  /\ fst (batchGetRsc sd) = Z.of_nat (length (snd (batchGetRsc sd)))
  /\ StronglySorted key_lt (snd (batchGetRsc sd))
  /\ NoDup (map fst (snd (batchGetRsc sd)))
  /\ forall k w, In (k, w) (snd (batchGetRsc sd))
                 <-> isContain sd k = true /\ getRsc sd k = w.
Proof.
  intros Hreach.
  pose proof (reachable_inv sd Hreach) as Hinv.
  destruct (reachable_counts sd Hreach) as [Hc _].
  unfold batchGetRsc, rscNum. cbn [fst snd].
  split; [rewrite (snapshot_length sd Hinv); symmetry; exact Hc |].
  split; [reflexivity |].
  split; [apply snapshot_sorted |].
  split; [apply sorted_keys_NoDup, snapshot_sorted |].
  intros k w. rewrite (snapshot_in sd k w Hinv). split.
  - intros Hh. destruct (holds_get sd k w Hinv Hh) as [Hg Hcont]. split; assumption.
  - intros [Hcont Hg]. apply (isContain_occupied sd k Hinv) in Hcont.
    apply key_occupied_holds in Hcont. destruct Hcont as [w' Hw'].
    rewrite (getRsc_holds sd k w' Hinv Hw') in Hg. subst w'. exact Hw'.
Qed.

Lemma batchGetRsc_snapshot_witness :
  fst (batchGetRsc one_key) = rscNum one_key
  /\ fst (batchGetRsc one_key) = Z.of_nat (length (snd (batchGetRsc one_key)))
  /\ StronglySorted key_lt (snd (batchGetRsc one_key))
  /\ NoDup (map fst (snd (batchGetRsc one_key)))
  /\ forall k w, In (k, w) (snd (batchGetRsc one_key))
                 <-> isContain one_key k = true /\ getRsc one_key k = w.
Proof.
  apply (batchGetRsc_snapshot one_key).
  exists 0, [Add 1 ["a"%byte]]. reflexivity.
Defined.

(** ** batchUpdateRsc *)

Lemma getRsc_keep (sd sd' : RWLockOptimizedSharedData) (k : Z) :
  table_inv sd -> table_inv sd' ->
  (forall w, holds sd k w -> holds sd' k w) ->
  (key_occupied sd' k -> key_occupied sd k) ->
  getRsc sd' k = getRsc sd k.
Proof.
  intros Hinv Hinv' Hkeep Hback.
  destruct (isContain sd k) eqn:Hc.
  - apply (isContain_occupied sd k Hinv), key_occupied_holds in Hc.
    destruct Hc as [w Hw].
    rewrite (getRsc_holds sd k w Hinv Hw).
    apply getRsc_holds; [exact Hinv' | apply Hkeep, Hw].
  - apply (isContain_false sd k Hinv) in Hc.
    rewrite (getRsc_absent sd k Hc). apply getRsc_absent.
    intros H. apply Hc, Hback, H.
Qed.

Lemma batch_step_full (sd : RWLockOptimizedSharedData) (c : Z) (pair : Z * list byte) :
  table_inv sd ->
  snd (batch_step (sd, c) pair)
  = c + (if negb (too_long (snd pair)) && isContain sd (fst pair) then 1 else 0)
  /\ current_count (fst (batch_step (sd, c) pair)) = current_count sd
  /\ deleted_count (fst (batch_step (sd, c) pair)) = deleted_count sd
  /\ (forall k, key_occupied (fst (batch_step (sd, c) pair)) k <-> key_occupied sd k)
  /\ (too_long (snd pair) = false -> key_occupied sd (fst pair) ->
      holds (fst (batch_step (sd, c) pair)) (fst pair) (c_string (snd pair)))
  /\ (too_long (snd pair) = true -> fst (batch_step (sd, c) pair) = sd).
Proof.
  intros Hinv. unfold batch_step, isContain.
  destruct (too_long (snd pair)) eqn:Hl; cbn [negb andb fst snd].
  - split; [lia |]. repeat split; try reflexivity; try tauto. discriminate.
  - destruct (Z.eqb_spec (findEntry sd (fst pair) (hash sd (fst pair))) (-1))
      as [E | Hne]; cbn [negb fst snd].
    + split; [lia |]. split; [reflexivity |]. split; [reflexivity |].
      split; [reflexivity |]. split; [| discriminate].
      intros _ [i Hi]. rewrite (findEntry_occupied sd _ i Hinv Hi) in E.
      destruct Hi as [Hi _]. unfold in_table in Hi. lia.
    + pose proof (findEntry_found sd (fst pair) Hne) as Ho.
      split; [reflexivity |]. split; [reflexivity |]. split; [reflexivity |].
      split; [intros k; apply (overwrite_presence sd (fst pair) _ _ k Hinv Ho) |].
      split; [| discriminate].
      intros _ _. apply (holds_overwrite sd (fst pair) _ (snd pair) _ _ Hinv Ho).
      left. split; [reflexivity | apply c_string_store_value, Hl].
Qed.

Lemma batch_hits_ext (sd sd' : RWLockOptimizedSharedData) (m : cxx_map) :
  (forall k, isContain sd' k = isContain sd k) -> batch_hits sd' m = batch_hits sd m.
Proof.
  intros H. unfold batch_hits. f_equal. apply filter_ext. intros kv. rewrite H. reflexivity.
Qed.

Lemma batch_fold_full (m : cxx_map) :
  forall sd c,
    table_inv sd ->
    snd (fold_left batch_step m (sd, c)) = c + Z.of_nat (batch_hits sd m)
    /\ current_count (fst (fold_left batch_step m (sd, c))) = current_count sd
    /\ deleted_count (fst (fold_left batch_step m (sd, c))) = deleted_count sd
    /\ (forall k, key_occupied (fst (fold_left batch_step m (sd, c))) k
                  <-> key_occupied sd k)
    /\ (NoDup (map fst m) ->
        forall k v, In (k, v) m ->
          (too_long v = false -> key_occupied sd k ->
           holds (fst (fold_left batch_step m (sd, c))) k (c_string v))
          /\ (too_long v = true ->
              forall w, holds sd k w -> holds (fst (fold_left batch_step m (sd, c))) k w)).
Proof.
  induction m as [| pair m IH]; intros sd c Hinv.
  - cbn [fold_left fst snd]. unfold batch_hits. cbn [filter length].
    split; [cbn; lia |]. split; [reflexivity |]. split; [reflexivity |].
    split; [reflexivity |]. intros _ k v [].
  - cbn [fold_left].
    destruct (batch_step_full sd c pair Hinv) as [Hs [Hcur [Hdel [Hpres [Hhit Hskip]]]]].
    destruct (batch_step_spec sd c pair Hinv) as [Hinv1 [_ Hkeep1]].
    destruct (batch_step (sd, c) pair) as [sd1 c1] eqn:Hstep. cbn [fst snd] in *.
    destruct (IH sd1 c1 Hinv1) as [Hs2 [Hcur2 [Hdel2 [Hpres2 Hvals2]]]].
    destruct (batch_fold_spec m sd1 c1 Hinv1) as [Hinv2 [_ Hkeep2]].
    assert (Hcont : forall k, isContain sd1 k = isContain sd k).
    { intros k. apply isContain_same; try assumption. apply Hpres. }
    split.
    { rewrite Hs2, Hs, (batch_hits_ext sd sd1 m Hcont).
      unfold batch_hits. cbn [filter].
      destruct (negb (too_long (snd pair)) && isContain sd (fst pair));
        cbn [length]; lia. }
    split; [rewrite Hcur2; exact Hcur |].
    split; [rewrite Hdel2; exact Hdel |].
    split; [intros k; rewrite Hpres2; apply Hpres |].
    intros Hnd k v Hin. cbn [map] in Hnd.
    inversion Hnd as [| ? ? Hnotin Hnd']; subst.
    destruct Hin as [-> | Hin].
    + cbn [fst snd] in *. split.
      * intros Hl Ho. apply Hkeep2; [exact Hnotin | apply Hhit; assumption].
      * intros Hl w Hw. apply Hkeep2; [exact Hnotin |]. rewrite (Hskip Hl). exact Hw.
    + assert (Hne : k <> fst pair).
      { intros ->. apply Hnotin. apply in_map_iff. exists (fst pair, v).
        split; [reflexivity | exact Hin]. }
      destruct (Hvals2 Hnd' k v Hin) as [Hshort Hlong]. split.
      * intros Hl Ho. apply Hshort; [exact Hl | apply Hpres, Ho].
      * intros Hl w Hw. apply Hlong; [exact Hl | apply Hkeep1; assumption].
Qed.

(** X7.  batchUpdateRsc over a map (distinct keys) in a reachable state
    returns the number of entries whose value is shorter than VALUE_CAP and
    whose key is present.  For those entries get(k) afterwards returns the
    stored prefix of the new value; entries with a longer value, and keys not
    in the map, keep their value.  No key is inserted or removed and both
    counters are unchanged. *)
Theorem batchUpdateRsc_outcome (sd : RWLockOptimizedSharedData) (m : cxx_map) :
  reachable sd ->
  NoDup (map fst m) ->
  fst (batchUpdateRsc sd m) = Z.of_nat (batch_hits sd m)
  /\ 0 <= fst (batchUpdateRsc sd m) <= Z.of_nat (length m)
  /\ current_count (snd (batchUpdateRsc sd m)) = current_count sd
  /\ deleted_count (snd (batchUpdateRsc sd m)) = deleted_count sd
  /\ (forall k, isContain (snd (batchUpdateRsc sd m)) k = isContain sd k)
  /\ (forall k v, In (k, v) m -> too_long v = false -> isContain sd k = true ->
        getRsc (snd (batchUpdateRsc sd m)) k = c_string v)
  /\ (forall k v, In (k, v) m -> too_long v = true ->
        getRsc (snd (batchUpdateRsc sd m)) k = getRsc sd k)
  /\ (forall k, ~ In k (map fst m) ->
        getRsc (snd (batchUpdateRsc sd m)) k = getRsc sd k).
Proof.
  intros Hreach Hnd. pose proof (reachable_inv sd Hreach) as Hinv.
  destruct (batch_fold_full m sd 0 Hinv) as [Hs [Hcur [Hdel [Hpres Hvals]]]].
  destruct (batch_fold_spec m sd 0 Hinv) as [Hinv' [_ Hkeep]].
  rewrite batchUpdateRsc_snd.
  assert (Hfst : fst (batchUpdateRsc sd m) = snd (fold_left batch_step m (sd, 0))).
  { unfold batchUpdateRsc. destruct (fold_left batch_step m (sd, 0)). reflexivity. }
  rewrite Hfst, Hs. cbn [Z.add].
  split; [reflexivity |].
  split.
  { unfold batch_hits. pose proof (filter_length_le
      (fun kv : Z * list byte => negb (too_long (snd kv)) && isContain sd (fst kv)) m). lia. }
  split; [exact Hcur |]. split; [exact Hdel |].
  split; [intros k; apply isContain_same; try assumption; apply Hpres |].
  split.
  { intros k v Hin Hl Hcont. apply getRsc_holds; [exact Hinv' |].
    apply (proj1 (Hvals Hnd k v Hin)); [exact Hl | apply (isContain_occupied sd k Hinv), Hcont]. }
  split.
  { intros k v Hin Hl. apply getRsc_keep; try assumption.
    - apply (proj2 (Hvals Hnd k v Hin)), Hl.
    - apply Hpres. }
  intros k Hk. apply getRsc_keep; try assumption.
  - intros w. apply Hkeep, Hk.
  - apply Hpres.
Qed.

Lemma batchUpdateRsc_outcome_witness :
  fst (batchUpdateRsc one_key [(1, ["b"%byte]); (2, ["c"%byte])])
  = Z.of_nat (batch_hits one_key [(1, ["b"%byte]); (2, ["c"%byte])])
  /\ 0 <= fst (batchUpdateRsc one_key [(1, ["b"%byte]); (2, ["c"%byte])])
     <= Z.of_nat (length [(1, ["b"%byte]); (2, ["c"%byte])])
  /\ current_count (snd (batchUpdateRsc one_key [(1, ["b"%byte]); (2, ["c"%byte])]))
     = current_count one_key
  /\ deleted_count (snd (batchUpdateRsc one_key [(1, ["b"%byte]); (2, ["c"%byte])]))
     = deleted_count one_key
  /\ (forall k, isContain (snd (batchUpdateRsc one_key [(1, ["b"%byte]); (2, ["c"%byte])])) k
                = isContain one_key k)
  /\ (forall k v, In (k, v) [(1, ["b"%byte]); (2, ["c"%byte])] ->
        too_long v = false -> isContain one_key k = true ->
        getRsc (snd (batchUpdateRsc one_key [(1, ["b"%byte]); (2, ["c"%byte])])) k
        = c_string v)
  /\ (forall k v, In (k, v) [(1, ["b"%byte]); (2, ["c"%byte])] -> too_long v = true ->
        getRsc (snd (batchUpdateRsc one_key [(1, ["b"%byte]); (2, ["c"%byte])])) k
        = getRsc one_key k)
  /\ (forall k, ~ In k (map fst [(1, ["b"%byte]); (2, ["c"%byte])]) ->
        getRsc (snd (batchUpdateRsc one_key [(1, ["b"%byte]); (2, ["c"%byte])])) k
        = getRsc one_key k).
Proof.
  apply (batchUpdateRsc_outcome one_key [(1, ["b"%byte]); (2, ["c"%byte])]).
  - exists 0, [Add 1 ["a"%byte]]. reflexivity.
  - repeat constructor; cbn; intuition discriminate.
Defined.

(** X8.  In every reachable state current_count is the number of Occupied
    slots and deleted_count the number of Tombstone slots of a 2048-slot
    array, so 0 <= count() <= 2048 and count() + deleted_count <= 2048. *)
Theorem counters_match_slots (sd : RWLockOptimizedSharedData) :
  reachable sd ->
  length (hash_table sd) = 2048%nat
  /\ rscNum sd = Z.of_nat (occ_count sd)
  /\ deleted_count sd = Z.of_nat (tomb_count sd)
  /\ 0 <= rscNum sd <= RWLOCK_HASH_TABLE_SIZE
  /\ 0 <= deleted_count sd
  /\ rscNum sd + deleted_count sd <= RWLOCK_HASH_TABLE_SIZE.
Proof.
  intros Hreach.
  destruct (reachable_counts sd Hreach) as [Hc Hd].
  pose proof (inv_len sd (reachable_inv sd Hreach)) as Hlen.
  pose proof (state_counts_le (hash_table sd)) as Hle.
  unfold rscNum, occ_count, tomb_count, RWLOCK_HASH_TABLE_SIZE in *.
  split; [exact Hlen |]. split; [exact Hc |]. split; [exact Hd |]. lia.
Qed.

Lemma counters_match_slots_witness :
  length (hash_table one_key) = 2048%nat
  /\ rscNum one_key = Z.of_nat (occ_count one_key)
  /\ deleted_count one_key = Z.of_nat (tomb_count one_key)
  /\ 0 <= rscNum one_key <= RWLOCK_HASH_TABLE_SIZE
  /\ 0 <= deleted_count one_key
  /\ rscNum one_key + deleted_count one_key <= RWLOCK_HASH_TABLE_SIZE.
Proof.
  apply (counters_match_slots one_key).
  exists 0, [Add 1 ["a"%byte]]. reflexivity.
Defined.

(** ** The probe engine on reachable states *)

(** X9.  For every segment and key, the hash values and every slot index
    that findEntry and findEmptySlot examine or return lie inside the
    2048-slot array (a return value is -1 or an index); findEntry returns
    only a slot that is Occupied with the key and findEmptySlot only a slot
    that is not Occupied. *)
Theorem probing_in_bounds (sd : RWLockOptimizedSharedData) (k : Z) :
  0 <= hash sd k < RWLOCK_HASH_TABLE_SIZE
  /\ 1 <= hash2 sd k < RWLOCK_HASH_TABLE_SIZE
  /\ Forall in_table (probes (hash_seed sd) k)
  /\ (findEntry sd k (hash sd k) = -1
      \/ occupied_by sd k (findEntry sd k (hash sd k)))
  /\ (findEmptySlot sd k (hash sd k) = -1
      \/ (in_table (findEmptySlot sd k (hash sd k))
          /\ is_state RWLOCK_OCCUPIED (entry_at sd (findEmptySlot sd k (hash sd k)))
             = false)).
Proof.
  split; [apply hash_with_range |].
  split.
  { pose proof (hash2_with_range (hash_seed sd) k) as Hr.
    pose proof (hash2_with_odd (hash_seed sd) k) as Ho.
    unfold hash2. split; [| apply Hr].
    destruct (Z.eq_dec (hash2_with (hash_seed sd) k) 0) as [E | E]; [| lia].
    rewrite E in Ho. discriminate Ho. }
  split; [apply Forall_forall; intros p Hp; eapply probes_range, Hp |].
  split.
  - destruct (Z.eq_dec (findEntry sd k (hash sd k)) (-1)) as [E | Hne];
      [left; exact E | right; apply findEntry_found, Hne].
  - destruct (Z.eq_dec (findEmptySlot sd k (hash sd k)) (-1)) as [E | Hne];
      [left; exact E | right].
    destruct (findEmptySlot_slot sd k Hne) as [Hch Hfree].
    split; [eapply chain_ok_in_table, Hch | exact Hfree].
Qed.

(** X10.  In a reachable state findEntry returns slot i exactly when key k
    is Occupied in slot i, and -1 exactly when k is in no slot; so contains(k)
    is true exactly when k is Occupied somewhere, and a non-empty get(k)
    implies contains(k). *)
Theorem findEntry_correct (sd : RWLockOptimizedSharedData) (k : Z) :
  reachable sd ->
  (forall i, occupied_by sd k i <-> findEntry sd k (hash sd k) = i /\ i <> -1)
  /\ (findEntry sd k (hash sd k) = -1 <-> ~ key_occupied sd k)
  /\ (isContain sd k = true <-> key_occupied sd k)
  /\ (getRsc sd k <> [] -> isContain sd k = true).
Proof.
  intros Hreach. pose proof (reachable_inv sd Hreach) as Hinv.
  split.
  { intros i. split.
    - intros Ho. split; [apply findEntry_occupied; assumption |].
      destruct Ho as [Hi _]. unfold in_table in Hi. lia.
    - intros [E Hne]. subst i. apply findEntry_found, Hne. }
  split.
  { split.
    - intros E [i Hi]. rewrite (findEntry_occupied sd k i Hinv Hi) in E.
      destruct Hi as [Hi _]. unfold in_table in Hi. lia.
    - apply findEntry_absent. }
  split; [apply isContain_occupied, Hinv |].
  intros Hg. destruct (isContain sd k) eqn:Hc; [reflexivity |].
  exfalso. apply Hg, getRsc_absent, isContain_false; assumption.
Qed.

Lemma findEntry_correct_witness :
  (forall i, occupied_by one_key 1 i <-> findEntry one_key 1 (hash one_key 1) = i /\ i <> -1)
  /\ (findEntry one_key 1 (hash one_key 1) = -1 <-> ~ key_occupied one_key 1)
  /\ (isContain one_key 1 = true <-> key_occupied one_key 1)
  /\ (getRsc one_key 1 <> [] -> isContain one_key 1 = true).
Proof.
  apply (findEntry_correct one_key 1).
  exists 0, [Add 1 ["a"%byte]]. reflexivity.
Defined.

Lemma scan_empty_first_free (sd : RWLockOptimizedSharedData) (k : Z) (ps : list Z) :
  Forall (fun p => 0 <= p) ps ->
  scan_empty sd k (-1) ps <> -1 ->
  exists l1 l2, ps = l1 ++ scan_empty sd k (-1) ps :: l2
                /\ Forall (fun p => is_state RWLOCK_OCCUPIED (entry_at sd p) = true) l1
                /\ is_state RWLOCK_OCCUPIED (entry_at sd (scan_empty sd k (-1) ps)) = false.
Proof.
  intros Hps. induction Hps as [| p ps Hp Hps IH]; intros Hr; [cbn in Hr; lia |].
  cbn [scan_empty] in *. change (-1 =? -1) with true in *. cbn [negb] in *.
  rewrite andb_true_r in *.
  destruct (state_cases (entry_at sd p)) as [C | [C | C]];
    destruct C as [CE [CO CD]]; rewrite CE in *.
  - exists [], ps. repeat split; [constructor | exact CO].
  - rewrite CD in *. destruct (key_matches k (entry_at sd p)); [lia |].
    destruct (IH Hr) as [l1 [l2 [E [Hocc Ho]]]].
    exists (p :: l1), l2. split; [cbn; rewrite <- E; reflexivity |].
    split; [constructor; [exact CO | exact Hocc] | exact Ho].
  - rewrite CD in *. destruct (key_matches k (entry_at sd p)); [lia |].
    destruct (scan_empty_set sd k p ps) as [E | [E _]]; [lia | | lia].
    rewrite E. exists [], ps. repeat split; [constructor | exact CO].
Qed.

Lemma occ_count_full (sd : RWLockOptimizedSharedData) :
  length (hash_table sd) = 2048%nat ->
  (forall i, in_table i -> is_state RWLOCK_OCCUPIED (entry_at sd i) = true) ->
  occ_count sd = 2048%nat.
Proof.
  intros Hlen Hall. unfold occ_count. rewrite <- Hlen. f_equal.
  apply forallb_filter_id, forallb_forall. intros e He.
  destruct (in_entry_at sd e Hlen He) as [p [Hp <-]]. apply Hall, Hp.
Qed.

(** X11.  In a reachable state findEmptySlot returns -1 exactly when the
    key is already present or all 2048 slots are Occupied; otherwise it
    returns the first slot on the key's probe sequence that is not Occupied
    (a Tombstone or an Empty slot, every slot probed before it being
    Occupied). *)
Theorem findEmptySlot_correct (sd : RWLockOptimizedSharedData) (k : Z) :
  reachable sd ->
  (findEmptySlot sd k (hash sd k) = -1
   <-> key_occupied sd k \/ rscNum sd = RWLOCK_HASH_TABLE_SIZE)
  /\ (findEmptySlot sd k (hash sd k) <> -1 ->
      in_table (findEmptySlot sd k (hash sd k))
      /\ is_state RWLOCK_OCCUPIED (entry_at sd (findEmptySlot sd k (hash sd k))) = false
      /\ exists l1 l2,
           probes (hash_seed sd) k = l1 ++ findEmptySlot sd k (hash sd k) :: l2
           /\ Forall (fun p => is_state RWLOCK_OCCUPIED (entry_at sd p) = true) l1).
Proof.
  intros Hreach.
  pose proof (reachable_inv sd Hreach) as Hinv.
  destruct (reachable_counts sd Hreach) as [Hc _].
  pose proof (inv_len sd Hinv) as Hlen.
  unfold rscNum, RWLOCK_HASH_TABLE_SIZE. split.
  - split.
    + intros E. destruct (findEmptySlot_full sd k E) as [Ho | Hall]; [left; exact Ho |].
      right. rewrite Hc, (occ_count_full sd Hlen Hall). reflexivity.
    + intros [Ho | Hfull]; [apply findEmptySlot_duplicate; assumption |].
      apply findEmptySlot_table_full; [exact Hlen | lia].
  - intros Hne. pose proof Hne as Hne'. rewrite findEmptySlot_scan in Hne'.
    destruct (scan_empty_first_free sd k _ (probes_nonneg (hash_seed sd) k) Hne')
      as [l1 [l2 [E [Hocc Ho]]]].
    rewrite <- findEmptySlot_scan in E, Ho.
    split; [| split; [exact Ho | exists l1, l2; split; assumption]].
    apply (probes_range (hash_seed sd) k). rewrite E. apply in_or_app. right. left. reflexivity.
Qed.

Lemma findEmptySlot_correct_witness :
  (findEmptySlot one_key 2 (hash one_key 2) = -1
   <-> key_occupied one_key 2 \/ rscNum one_key = RWLOCK_HASH_TABLE_SIZE)
  /\ (findEmptySlot one_key 2 (hash one_key 2) <> -1 ->
      in_table (findEmptySlot one_key 2 (hash one_key 2))
      /\ is_state RWLOCK_OCCUPIED (entry_at one_key (findEmptySlot one_key 2 (hash one_key 2)))
         = false
      /\ exists l1 l2,
           probes (hash_seed one_key) 2 = l1 ++ findEmptySlot one_key 2 (hash one_key 2) :: l2
           /\ Forall (fun p => is_state RWLOCK_OCCUPIED (entry_at one_key p) = true) l1).
Proof.
  apply (findEmptySlot_correct one_key 2).
  exists 0, [Add 1 ["a"%byte]]. reflexivity.
Defined.

(** X12.  rehashIfNeeded never fails in a reachable state: it returns OK,
    keeps count(), the seed and what every key maps to, is the identity when
    live + tomb <= RWLOCK_MAX_ENTRIES, and otherwise leaves deleted_count = 0,
    so that a rehash is still due afterwards only if count() itself exceeds
    RWLOCK_MAX_ENTRIES. *)
Theorem rehashIfNeeded_total (sd : RWLockOptimizedSharedData) :
  reachable sd ->
  fst (rehashIfNeeded sd) = OK
  /\ rscNum (snd (rehashIfNeeded sd)) = rscNum sd
  /\ hash_seed (snd (rehashIfNeeded sd)) = hash_seed sd
  /\ (forall k, getRsc (snd (rehashIfNeeded sd)) k = getRsc sd k
                /\ isContain (snd (rehashIfNeeded sd)) k = isContain sd k)
  /\ (needRehash sd = false -> snd (rehashIfNeeded sd) = sd)
  /\ (needRehash sd = true ->
      deleted_count (snd (rehashIfNeeded sd)) = 0
      /\ needRehash (snd (rehashIfNeeded sd)) = (RWLOCK_MAX_ENTRIES <? rscNum sd)).
Proof.
  intros Hreach.
  pose proof (reachable_inv sd Hreach) as Hinv.
  pose proof (reachable_counts sd Hreach) as Hc.
  destruct (rehashIfNeeded_spec sd Hinv)
    as [sd1 [Hre [Hinv1 [Hseed1 [Hsame [Hnew Hholds1]]]]]].
  pose proof (rehashIfNeeded_count sd sd1 Hinv Hc Hre) as Hcount.
  rewrite Hre. cbn [fst snd]. unfold rscNum.
  split; [reflexivity |]. split; [exact Hcount |]. split; [exact Hseed1 |].
  split; [intros k; apply getRsc_same_key; try assumption; intros w; apply Hholds1 |].
  split; [exact Hsame |].
  intros Hn. destruct (Hnew Hn) as [Hd _]. split; [exact Hd |].
  unfold needRehash. rewrite Hd, Hcount, Z.add_0_r. reflexivity.
Qed.

Lemma rehashIfNeeded_total_witness :
  fst (rehashIfNeeded one_key) = OK
  /\ rscNum (snd (rehashIfNeeded one_key)) = rscNum one_key
  /\ hash_seed (snd (rehashIfNeeded one_key)) = hash_seed one_key
  /\ (forall k, getRsc (snd (rehashIfNeeded one_key)) k = getRsc one_key k
                /\ isContain (snd (rehashIfNeeded one_key)) k = isContain one_key k)
  /\ (needRehash one_key = false -> snd (rehashIfNeeded one_key) = one_key)
  /\ (needRehash one_key = true ->
      deleted_count (snd (rehashIfNeeded one_key)) = 0
      /\ needRehash (snd (rehashIfNeeded one_key)) = (RWLOCK_MAX_ENTRIES <? rscNum one_key)).
Proof.
  apply (rehashIfNeeded_total one_key).
  exists 0, [Add 1 ["a"%byte]]. reflexivity.
Defined.

(** ** Adding and removing again *)

Lemma add_remove_pair (sd : RWLockOptimizedSharedData) (k : Z) (v : list byte) :
  table_inv sd -> counts_ok sd ->
  isContain sd k = false -> too_long v = false ->
  current_count sd < RWLOCK_HASH_TABLE_SIZE ->
  fst (addRsc sd k v) = OK
  /\ fst (removeRsc (snd (addRsc sd k v)) k) = OK
  /\ table_inv (snd (removeRsc (snd (addRsc sd k v)) k))
  /\ counts_ok (snd (removeRsc (snd (addRsc sd k v)) k))
  /\ current_count (snd (removeRsc (snd (addRsc sd k v)) k)) = current_count sd
  /\ forall k' w, holds (snd (removeRsc (snd (addRsc sd k v)) k)) k' w <-> holds sd k' w.
Proof.
  intros Hinv Hc Hcont Hl Hroom.
  assert (Hok : fst (addRsc sd k v) = OK).
  { rewrite (addRsc_code sd k v Hinv Hc), Hl, Hcont.
    destruct (Z.ltb_spec (current_count sd) RWLOCK_HASH_TABLE_SIZE); [reflexivity | lia]. }
  destruct (addRsc_spec sd k v Hinv) as [Hinv1 _].
  pose proof (addRsc_counts sd k v Hinv Hc) as Hc1.
  destruct (addRsc_effect sd k v Hinv Hc) as [Hcount1 [Hadd [_ Hframe1]]].
  rewrite Hok in Hcount1. change (OK =? OK) with true in Hcount1. cbv iota in Hcount1.
  set (sd1 := snd (addRsc sd k v)) in *.
  destruct (holds_get sd1 k _ Hinv1 (Hadd Hok)) as [_ Hcont1].
  destruct (removeRsc_spec sd1 k Hinv1) as [Hinv2 [_ [_ Hno2]]].
  pose proof (removeRsc_counts sd1 k Hinv1 Hc1) as Hc2.
  destruct (removeRsc_shape sd1 k) as [[Hf _] | [_ [Ho Hrm]]]; [congruence |].
  split; [exact Hok |].
  split; [rewrite Hrm; reflexivity |].
  split; [exact Hinv2 |]. split; [exact Hc2 |].
  split; [rewrite Hrm; cbn [snd current_count]; lia |].
  intros k' w. destruct (Z.eq_dec k' k) as [-> | Hne].
  - split; intros Hh; exfalso.
    + apply Hno2. eapply holds_occupied, Hh.
    + apply (isContain_false sd k Hinv Hcont). eapply holds_occupied, Hh.
  - rewrite <- (Hframe1 k' w Hne). rewrite Hrm in *. cbn [snd] in *.
    rewrite (holds_tombstone sd1 k _ _ _ k' w Hinv1 Ho).
    split; [intros [_ H]; exact H | intros H; split; assumption].
Qed.

Lemma run_codes_app (ops1 ops2 : list op) :
  forall sd, run_codes sd (ops1 ++ ops2)
             = run_codes sd ops1 ++ run_codes (run sd ops1) ops2.
Proof.
  induction ops1 as [| o ops1 IH]; intros sd; [reflexivity |].
  cbn [app run_codes]. unfold run in *. cbn [fold_left]. rewrite IH. reflexivity.
Qed.

Lemma run_app (ops1 ops2 : list op) (sd : RWLockOptimizedSharedData) :
  run sd (ops1 ++ ops2) = run (run sd ops1) ops2.
Proof. unfold run. apply fold_left_app. Qed.

Lemma churn_spec (l : cxx_map) :
  forall sd,
    table_inv sd -> counts_ok sd ->
    current_count sd < RWLOCK_HASH_TABLE_SIZE ->
    Forall (fun kv => isContain sd (fst kv) = false /\ too_long (snd kv) = false) l ->
    run_codes sd (churn l) = repeat OK (2 * length l)
    /\ table_inv (run sd (churn l))
    /\ current_count (run sd (churn l)) = current_count sd
    /\ forall k' w, holds (run sd (churn l)) k' w <-> holds sd k' w.
Proof.
  induction l as [| [k v] l IH]; intros sd Hinv Hc Hroom Hall.
  - cbn [churn flat_map run_codes length Nat.mul repeat]. unfold run. cbn [fold_left].
    split; [reflexivity |]. split; [exact Hinv |]. split; [reflexivity |].
    intros k' w. reflexivity.
  - inversion Hall as [| ? ? [Hcont Hl] Hall']; subst. cbn [fst snd] in *.
    destruct (add_remove_pair sd k v Hinv Hc Hcont Hl Hroom)
      as [Hok1 [Hok2 [Hinv2 [Hc2 [Hcount2 Hholds2]]]]].
    set (sd2 := snd (removeRsc (snd (addRsc sd k v)) k)) in *.
    assert (Hrun : run sd [Add k v; Remove k] = sd2) by reflexivity.
    destruct (IH sd2 Hinv2 Hc2) as [Hcodes [Hinv3 [Hcount3 Hholds3]]].
    + lia.
    + rewrite Forall_forall in *. intros kv Hkv. destruct (Hall' kv Hkv) as [Hk Hv].
      split; [| exact Hv]. rewrite <- Hk.
      apply isContain_same; try assumption.
      apply key_occupied_same. intros w. apply Hholds2.
    + change (churn ((k, v) :: l)) with ([Add k v; Remove k] ++ churn l).
      rewrite run_codes_app, run_app, Hrun.
      split.
      { rewrite Hcodes. cbn [run_codes exec]. rewrite Hok1.
        change (snd (addRsc sd k v)) with (snd (exec sd (Add k v))) in Hok2.
        cbn [exec] in Hok2. rewrite Hok2.
        replace (2 * length ((k, v) :: l))%nat with (S (S (2 * length l))) by (cbn; lia).
        reflexivity. }
      split; [exact Hinv3 |]. split; [lia |].
      intros k' w. rewrite Hholds3. apply Hholds2.
Qed.

(** X13.  In a reachable state with count() < 2048, any number of
    add(k, v); remove(k) pairs on absent keys with values shorter than
    VALUE_CAP returns OK every time, however many tombstones pile up, and
    leaves count() and what every key maps to as they were. *)
Theorem churn_never_fails (sd : RWLockOptimizedSharedData) (l : cxx_map) :
  reachable sd ->
  rscNum sd < RWLOCK_HASH_TABLE_SIZE ->
  Forall (fun kv => isContain sd (fst kv) = false /\ too_long (snd kv) = false) l ->
  run_codes sd (churn l) = repeat OK (2 * length l)
  /\ rscNum (run sd (churn l)) = rscNum sd
  /\ forall k, getRsc (run sd (churn l)) k = getRsc sd k
               /\ isContain (run sd (churn l)) k = isContain sd k.
Proof.
  intros Hreach Hroom Hall.
  pose proof (reachable_inv sd Hreach) as Hinv.
  pose proof (reachable_counts sd Hreach) as Hc.
  destruct (churn_spec l sd Hinv Hc Hroom Hall) as [Hcodes [Hinv' [Hcount Hholds]]].
  split; [exact Hcodes |]. split; [exact Hcount |].
  intros k. apply getRsc_same_key; try assumption. intros w. apply Hholds.
Qed.

Lemma churn_never_fails_witness :
  run_codes one_key (churn [(2, ["b"%byte]); (3, []); (2, ["c"%byte])])
  = repeat OK (2 * length [(2, ["b"%byte]); (3, []); (2, ["c"%byte])])
  /\ rscNum (run one_key (churn [(2, ["b"%byte]); (3, []); (2, ["c"%byte])])) = rscNum one_key
  /\ forall k,
       getRsc (run one_key (churn [(2, ["b"%byte]); (3, []); (2, ["c"%byte])])) k
       = getRsc one_key k
       /\ isContain (run one_key (churn [(2, ["b"%byte]); (3, []); (2, ["c"%byte])])) k
          = isContain one_key k.
Proof.
  apply (churn_never_fails one_key [(2, ["b"%byte]); (3, []); (2, ["c"%byte])]).
  - exists 0, [Add 1 ["a"%byte]]. reflexivity.
  - vm_compute. reflexivity.
  - repeat constructor; vm_compute; reflexivity.
Defined.

(** ** The cached primary hash *)

Lemma hash_cached_write (sd sd' : RWLockOptimizedSharedData) (r : Z) (e : RWLockHashEntry) :
  length (hash_table sd) = 2048%nat -> in_table r ->
  hash_seed sd' = hash_seed sd ->
  hash_table sd' = set_entry sd r e ->
  hash_cached sd ->
  (is_state RWLOCK_OCCUPIED e = true -> hash_value e = hash_with (hash_seed sd) (key e)) ->
  hash_cached sd'.
Proof.
  intros Hlen Hr Hseed Htab Hold He i Hi Ho.
  rewrite (entry_at_set sd sd' r i e Htab Hlen Hr Hi) in *.
  unfold hash. rewrite Hseed.
  destruct (i =? r); [apply He, Ho | apply (Hold i Hi Ho)].
Qed.

Lemma hash_cached_cleared (sd : RWLockOptimizedSharedData) :
  hash_cached (mkShared 0 0 (hash_seed sd) (clear_states (hash_table sd))).
Proof.
  intros i _ Ho.
  rewrite (entry_at_clear sd (mkShared 0 0 (hash_seed sd) (clear_states (hash_table sd)))
             i eq_refl) in Ho.
  discriminate Ho.
Qed.

Lemma hash_cached_init (seed : Z) : hash_cached (init seed).
Proof.
  intros i Hi Ho. exfalso.
  assert (Hk : key_occupied (init seed) (key (entry_at (init seed) i))).
  { exists i. split; [exact Hi |]. unfold key_matches. rewrite Ho, Z.eqb_refl. reflexivity. }
  destruct Hk as [j [_ Hj]].
  assert (Hat : entry_at (init seed) j = empty_entry).
  { unfold entry_at, init. cbn [hash_table].
    destruct (nth_in_or_default (Z.to_nat j) (repeat empty_entry 2048) empty_entry)
      as [Hin | E]; [apply repeat_spec in Hin; exact Hin | exact E]. }
  rewrite Hat in Hj. discriminate Hj.
Qed.

Lemma new_entry_hash_cached (sd : RWLockOptimizedSharedData) (k c d : Z) (v : list byte) :
  length (hash_table sd) = 2048%nat ->
  findEmptySlot sd k (hash sd k) <> -1 ->
  hash_cached sd ->
  hash_cached (mkShared c d (hash_seed sd)
                 (set_entry sd (findEmptySlot sd k (hash sd k)) (new_entry k v (hash sd k)))).
Proof.
  intros Hlen Hne Hold.
  destruct (findEmptySlot_slot sd k Hne) as [Hch _].
  apply (hash_cached_write sd _ (findEmptySlot sd k (hash sd k)) (new_entry k v (hash sd k)));
    try reflexivity; try assumption.
  eapply chain_ok_in_table, Hch.
Qed.

Lemma reinsert_hash_cached (l : cxx_map) :
  forall sd,
    length (hash_table sd) = 2048%nat -> hash_cached sd ->
    hash_cached (snd (reinsert sd l)).
Proof.
  induction l as [| [k v] l IH]; intros sd Hlen Hold; [exact Hold |].
  cbn [reinsert].
  destruct (Z.eqb_spec (findEmptySlot sd k (hash sd k)) (-1)) as [E | Hne]; [exact Hold |].
  apply IH.
  - cbn [hash_table]. unfold set_entry. rewrite length_upd. exact Hlen.
  - apply new_entry_hash_cached; assumption.
Qed.

Lemma rehashIfNeeded_hash_cached (sd : RWLockOptimizedSharedData) :
  length (hash_table sd) = 2048%nat -> hash_cached sd ->
  hash_cached (snd (rehashIfNeeded sd)).
Proof.
  intros Hlen Hold. unfold rehashIfNeeded, rebuild.
  destruct (needRehash sd); cbn [negb]; [| exact Hold].
  apply reinsert_hash_cached; [| apply hash_cached_cleared].
  cbn [hash_table]. unfold clear_states. rewrite length_map. exact Hlen.
Qed.

Lemma overwrite_hash_cached (sd : RWLockOptimizedSharedData) (r : Z) (v : list byte) :
  length (hash_table sd) = 2048%nat -> in_table r -> hash_cached sd ->
  hash_cached (overwrite_at sd r v).
Proof.
  intros Hlen Hr Hold.
  apply (hash_cached_write sd _ r (set_value v (entry_at sd r)));
    try reflexivity; try assumption.
  intros Ho. apply (Hold r Hr Ho).
Qed.

Lemma exec_hash_cached (sd : RWLockOptimizedSharedData) (o : op) :
  table_inv sd -> hash_cached sd -> hash_cached (snd (exec sd o)).
Proof.
  intros Hinv Hold. pose proof (inv_len sd Hinv) as Hlen.
  destruct o as [k v | k v | k v | k | | m]; cbn [exec].
  - destruct (addRsc_shape sd k v Hinv) as [[_ Hadd] | [_ [sd1 [Hre Hcase]]]];
      [rewrite Hadd; exact Hold |].
    pose proof (rehashIfNeeded_hash_cached sd Hlen Hold) as H1.
    destruct (rehashIfNeeded_spec sd Hinv) as [sd1' [Hre' [Hinv1 _]]].
    rewrite Hre in Hre'. inversion Hre'; subst sd1'. rewrite Hre in H1. cbn [snd] in H1.
    destruct Hcase as [[_ Hadd] | [Hne Hadd]]; rewrite Hadd; cbn [snd]; [exact H1 |].
    apply new_entry_hash_cached; [apply (inv_len sd1 Hinv1) | exact Hne | exact H1].
  - destruct (updateRsc_shape sd k v) as [[_ Hup] | [[_ [_ Hup]] | [_ [_ [Ho Hup]]]]];
      rewrite Hup; cbn [snd]; try exact Hold.
    apply overwrite_hash_cached; [exact Hlen | apply Ho | exact Hold].
  - destruct (upsertRsc_shape sd k v Hinv)
      as [[_ Hup] | [[_ [_ [Ho Hup]]] | [_ [_ [sd1 [Hre Hcase]]]]]].
    + rewrite Hup. exact Hold.
    + rewrite Hup. cbn [snd]. apply overwrite_hash_cached; [exact Hlen | apply Ho | exact Hold].
    + pose proof (rehashIfNeeded_hash_cached sd Hlen Hold) as H1.
      destruct (rehashIfNeeded_spec sd Hinv) as [sd1' [Hre' [Hinv1 _]]].
      rewrite Hre in Hre'. inversion Hre'; subst sd1'. rewrite Hre in H1. cbn [snd] in H1.
      destruct Hcase as [[_ Hup] | [Hne Hup]]; rewrite Hup; cbn [snd]; [exact H1 |].
      apply new_entry_hash_cached; [apply (inv_len sd1 Hinv1) | exact Hne | exact H1].
  - destruct (removeRsc_shape sd k) as [[_ Hrm] | [_ [Ho Hrm]]]; rewrite Hrm; cbn [snd];
      [exact Hold |].
    apply (hash_cached_write sd _ (findEntry sd k (hash sd k))
             (set_state RWLOCK_DELETED (entry_at sd (findEntry sd k (hash sd k)))));
      try reflexivity; try assumption; [apply Ho | discriminate].
  - apply hash_cached_cleared.
  - rewrite batchUpdateRsc_snd. generalize 0 as c. revert sd Hinv Hold Hlen.
    induction m as [| pair m IH]; intros sd Hinv Hold Hlen c; [exact Hold |].
    cbn [fold_left].
    destruct (batch_step_spec sd c pair Hinv) as [Hinv1 _].
    assert (H1 : hash_cached (fst (batch_step (sd, c) pair))).
    { unfold batch_step. destruct (too_long (snd pair)); [exact Hold |].
      destruct (Z.eqb_spec (findEntry sd (fst pair) (hash sd (fst pair))) (-1))
        as [E | Hne]; cbn [negb fst]; [exact Hold |].
      apply overwrite_hash_cached; [exact Hlen | | exact Hold].
      apply (findEntry_found sd (fst pair) Hne). }
    destruct (batch_step (sd, c) pair) as [sd1 c1]. cbn [fst] in *.
    apply IH; [exact Hinv1 | exact H1 | apply (inv_len sd1 Hinv1)].
Qed.

Lemma run_hash_cached (ops : list op) :
  forall sd, table_inv sd -> hash_cached sd -> hash_cached (run sd ops).
Proof.
  induction ops as [| o ops IH]; intros sd Hinv Hold; [exact Hold |].
  unfold run in *. cbn [fold_left].
  apply IH; [apply exec_inv, Hinv | apply exec_hash_cached; assumption].
Qed.

Lemma reachable_hash_cached (sd : RWLockOptimizedSharedData) :
  reachable sd -> hash_cached sd.
Proof.
  intros [seed [ops ->]]. apply run_hash_cached; [apply inv_init | apply hash_cached_init].
Qed.

(** X14.  The structural invariants of every reachable state: a key is
    Occupied in at most one slot; every Occupied slot lies on the probe
    sequence of its key with no Empty slot before it; every Occupied slot
    caches hash(key) in hash_value; every value array has 256 bytes and holds
    a NUL. *)
Theorem reachable_invariants (sd : RWLockOptimizedSharedData) :
  reachable sd ->
  (forall k i j, occupied_by sd k i -> occupied_by sd k j -> i = j)
  /\ (forall k i, occupied_by sd k i ->
        exists l1 l2, probes (hash_seed sd) k = l1 ++ i :: l2
                      /\ Forall (non_empty sd) l1)
  /\ (forall k i, occupied_by sd k i -> hash_value (entry_at sd i) = hash sd k)
  /\ (forall i, in_table i ->
        length (value (entry_at sd i)) = 256%nat /\ In x00 (value (entry_at sd i))).
Proof.
  intros Hreach. pose proof (reachable_inv sd Hreach) as Hinv.
  pose proof (reachable_hash_cached sd Hreach) as Hcache.
  split; [apply (inv_unique sd Hinv) |].
  split; [apply (inv_chain sd Hinv) |].
  split; [| apply (inv_nul sd Hinv)].
  intros k i [Hi Hk]. rewrite (Hcache i Hi (key_matches_occupied _ _ Hk)).
  apply key_matches_spec in Hk. destruct Hk as [_ ->]. reflexivity.
Qed.

Lemma reachable_invariants_witness :
  (forall k i j, occupied_by one_key k i -> occupied_by one_key k j -> i = j)
  /\ (forall k i, occupied_by one_key k i ->
        exists l1 l2, probes (hash_seed one_key) k = l1 ++ i :: l2
                      /\ Forall (non_empty one_key) l1)
  /\ (forall k i, occupied_by one_key k i ->
        hash_value (entry_at one_key i) = hash one_key k)
  /\ (forall i, in_table i ->
        length (value (entry_at one_key i)) = 256%nat
        /\ In x00 (value (entry_at one_key i))).
Proof.
  apply (reachable_invariants one_key).
  exists 0, [Add 1 ["a"%byte]]. reflexivity.
Defined.

(** ** The probe distance of printStats *)

Lemma probe_distance_loop_finds (h h2 i : Z) (s : nat) :
  probe_pos h h2 s = i ->
  forall n s0,
    (s0 <= s < s0 + n)%nat ->
    (forall j, (s0 <= j < s)%nat -> probe_pos h h2 j <> i) ->
    probe_distance_loop i h2 n (Z.of_nat s0) (probe_pos h h2 s0) 1 = Z.of_nat s + 1.
Proof.
  intros Hs. induction n as [| n IH]; intros s0 Hrange Hbefore; [lia |].
  cbn [probe_distance_loop].
  destruct (Z.eqb_spec (probe_pos h h2 s0) i) as [E | Hne].
  - destruct (Nat.eq_dec s0 s) as [-> | Hd]; [reflexivity |].
    exfalso. apply (Hbefore s0); [lia | exact E].
  - assert (Hlt : (s0 < s)%nat).
    { destruct (Nat.eq_dec s0 s) as [-> | Hd]; [contradiction | lia]. }
    replace (Z.of_nat s0 + 1) with (Z.of_nat (S s0)) by lia.
    change (getNextProbe (probe_pos h h2 s0) (Z.of_nat (S s0)) h2)
      with (getNextProbe (probe_pos h h2 s0) (Z.of_nat (S s0)) h2).
    replace (getNextProbe (probe_pos h h2 s0) (Z.of_nat (S s0)) h2)
      with (probe_pos h h2 (S s0))
      by (cbn [probe_pos]; f_equal; lia).
    apply IH; [lia |]. intros j Hj. apply Hbefore. lia.
Qed.

Lemma chain_index (sd : RWLockOptimizedSharedData) (k i : Z) :
  chain_ok sd k i ->
  exists s, (s < 2048)%nat
            /\ probe_pos (hash sd k) (hash2 sd k) s = i
            /\ nth s (probes (hash_seed sd) k) 0 = i
            /\ Forall (non_empty sd) (firstn s (probes (hash_seed sd) k))
            /\ forall j, (j < 2048)%nat -> probe_pos (hash sd k) (hash2 sd k) j = i -> j = s.
Proof.
  intros [l1 [l2 [E Hne]]].
  assert (Hlen : (length l1 < 2048)%nat).
  { pose proof (probes_length (hash_seed sd) k) as Hl. rewrite E, length_app in Hl.
    cbn [length] in Hl. lia. }
  assert (Hnth : nth (length l1) (probes (hash_seed sd) k) 0 = i).
  { rewrite E, app_nth2, Nat.sub_diag by lia. reflexivity. }
  assert (Hpos : probe_pos (hash sd k) (hash2 sd k) (length l1) = i).
  { rewrite <- Hnth. symmetry. apply probes_nth, Hlen. }
  exists (length l1). split; [exact Hlen |]. split; [exact Hpos |].
  split; [exact Hnth |]. split.
  - rewrite E, firstn_app, Nat.sub_diag, firstn_all. cbn [firstn].
    rewrite app_nil_r. exact Hne.
  - intros j Hj Ej.
    apply (probe_pos_inj (hash sd k) (hash2 sd k)); try assumption.
    + apply hash_with_range.
    + apply hash2_with_odd.
    + rewrite Ej, Hpos. reflexivity.
Qed.

Lemma probe_distance_steps (sd : RWLockOptimizedSharedData) (k i : Z) :
  table_inv sd -> hash_cached sd ->
  occupied_by sd k i ->
  exists s,
    (s < 2048)%nat
    /\ nth s (probes (hash_seed sd) k) 0 = i
    /\ Forall (non_empty sd) (firstn s (probes (hash_seed sd) k))
    /\ probe_distance sd i = Z.of_nat s + 1.
Proof.
  intros Hinv Hcache Ho.
  destruct (chain_index sd k i (inv_chain sd Hinv k i Ho)) as [s [Hs [Hpos [Hnth [Hne Huniq]]]]].
  destruct Ho as [Hi Hk].
  assert (Hkey : key (entry_at sd i) = k) by (apply key_matches_spec in Hk; apply Hk).
  assert (Hhv : hash_value (entry_at sd i) = hash sd k).
  { rewrite (Hcache i Hi (key_matches_occupied _ _ Hk)), Hkey. reflexivity. }
  exists s. split; [exact Hs |]. split; [exact Hnth |]. split; [exact Hne |].
  unfold probe_distance. rewrite Hhv, Hkey.
  destruct (Z.eqb_spec i (hash sd k)) as [E | Hneq]; cbn [negb].
  - assert (s = 0)%nat by (symmetry; apply Huniq; [lia | cbn; symmetry; exact E]).
    subst s. reflexivity.
  - apply (probe_distance_loop_finds (hash sd k) (hash2 sd k) i s Hpos 2048 0).
    + lia.
    + intros j Hj Ej. assert (j = s) by (apply Huniq; [lia | exact Ej]). lia.
Qed.

(** X15.  For an Occupied slot of a reachable state the probe count that
    printStats computes is s + 1, where s is the one step at which the probe
    sequence of the slot's key reaches the slot; every slot probed before that
    step is non-Empty, so s + 1 is the number of slots findEntry examines to
    find the key, and it lies between 1 and 2048. *)
Theorem probe_distance_correct (sd : RWLockOptimizedSharedData) (k i : Z) :
  reachable sd ->
  occupied_by sd k i ->
  exists s,
    (s < 2048)%nat
    /\ nth s (probes (hash_seed sd) k) 0 = i
    /\ Forall (non_empty sd) (firstn s (probes (hash_seed sd) k))
    /\ probe_distance sd i = Z.of_nat s + 1
    /\ 1 <= probe_distance sd i <= RWLOCK_HASH_TABLE_SIZE.
Proof.
  intros Hreach Ho.
  destruct (probe_distance_steps sd k i (reachable_inv sd Hreach)
              (reachable_hash_cached sd Hreach) Ho) as [s [Hs [Hnth [Hne Hd]]]].
  exists s. split; [exact Hs |]. split; [exact Hnth |]. split; [exact Hne |].
  split; [exact Hd |]. unfold RWLOCK_HASH_TABLE_SIZE. lia.
Qed.

Lemma probe_distance_correct_witness :
  exists s,
    (s < 2048)%nat
    /\ nth s (probes (hash_seed one_key) 1) 0 = 183
    /\ Forall (non_empty one_key) (firstn s (probes (hash_seed one_key) 1))
    /\ probe_distance one_key 183 = Z.of_nat s + 1
    /\ 1 <= probe_distance one_key 183 <= RWLOCK_HASH_TABLE_SIZE.
Proof.
  apply (probe_distance_correct one_key 1 183).
  - exists 0, [Add 1 ["a"%byte]]. reflexivity.
  - split; [unfold in_table, RWLOCK_HASH_TABLE_SIZE; lia | vm_compute; reflexivity].
Defined.

(** ** The totals of printStats *)

Lemma occupied_indices (sd : RWLockOptimizedSharedData) :
  length (hash_table sd) = 2048%nat ->
  length (filter (fun i => is_state RWLOCK_OCCUPIED (entry_at sd i)) indices) = occ_count sd.
Proof.
  intros Hlen. unfold occ_count, indices, entry_at.
  assert (Hmap : forall (l : list RWLockHashEntry),
             map (fun n => nth n l empty_entry) (seq 0 (length l)) = l).
  { induction l as [| e l IH]; [reflexivity |].
    cbn [length seq map nth]. f_equal.
    rewrite <- seq_shift, map_map. exact IH. }
  transitivity (length (filter (is_state RWLOCK_OCCUPIED)
                          (map (fun n => nth n (hash_table sd) empty_entry) (seq 0 2048))));
    [| rewrite <- Hlen, Hmap; reflexivity].
  generalize (seq 0 2048). intros l. induction l as [| n l IH]; [reflexivity |].
  cbn [map filter]. rewrite Nat2Z.id.
  destruct (is_state RWLOCK_OCCUPIED (nth n (hash_table sd) empty_entry));
    cbn [length]; rewrite IH; reflexivity.
Qed.

Lemma stats_fold (sd : RWLockOptimizedSharedData) (ps : list Z) :
  (forall i, In i ps -> is_state RWLOCK_OCCUPIED (entry_at sd i) = true ->
             1 <= probe_distance sd i <= 2048) ->
  forall acc n,
    occupied_slots acc = n -> 0 <= n ->
    n <= total_probes acc <= 2048 * n ->
    0 <= max_probes acc <= total_probes acc ->
    max_probes acc <= 2048 ->
    (0 < n -> 1 <= max_probes acc) ->
    let st := fold_left (stats_step sd) ps acc in
    let n' := n + Z.of_nat (length (filter (fun i => is_state RWLOCK_OCCUPIED (entry_at sd i))
                                      ps)) in
    occupied_slots st = n'
    /\ n' <= total_probes st <= 2048 * n'
    /\ 0 <= max_probes st <= total_probes st
    /\ max_probes st <= 2048
    /\ (0 < n' -> 1 <= max_probes st).
Proof.
  induction ps as [| p ps IH]; intros Hb acc n Ho Hn Ht Hm Hmax Hpos; cbv zeta.
  - cbn [fold_left filter length]. rewrite Z.add_0_r. repeat split; try tauto; lia.
  - cbn [fold_left filter].
    destruct (is_state RWLOCK_OCCUPIED (entry_at sd p)) eqn:E.
    + pose proof (Hb p (or_introl eq_refl) E) as Hp.
      assert (Hstep : stats_step sd acc p
                      = mkStats (total_probes acc + probe_distance sd p)
                                (Z.max (max_probes acc) (probe_distance sd p))
                                (occupied_slots acc + 1))
        by (unfold stats_step; rewrite E; reflexivity).
      rewrite Hstep. cbn [length]. rewrite Nat2Z.inj_succ.
      replace (n + Z.succ (Z.of_nat (length (filter (fun i =>
                  is_state RWLOCK_OCCUPIED (entry_at sd i)) ps))))
        with ((n + 1) + Z.of_nat (length (filter (fun i =>
                  is_state RWLOCK_OCCUPIED (entry_at sd i)) ps))) by lia.
      apply IH; cbn [occupied_slots total_probes max_probes]; try lia.
      intros i Hi. apply Hb. right. exact Hi.
    + assert (Hstep : stats_step sd acc p = acc)
        by (unfold stats_step; rewrite E; reflexivity).
      rewrite Hstep. apply IH; try assumption. intros i Hi. apply Hb. right. exact Hi.
Qed.

(** X16.  The three integers that printStats accumulates, in a reachable
    state: occupied_slots equals count(), so the two probe-distance lines are
    printed exactly when count() > 0; total_probes lies between
    occupied_slots and 2048 * occupied_slots (the printed average is between
    1 and 2048) and stays below 2^31; max_probes is at most 2048, at most
    total_probes, and at least 1 when a key is stored. *)
Theorem printStats_probes_bounds (sd : RWLockOptimizedSharedData) :
  reachable sd ->
  occupied_slots (printStats_probes sd) = rscNum sd
  /\ occupied_slots (printStats_probes sd) <= total_probes (printStats_probes sd)
     <= RWLOCK_HASH_TABLE_SIZE * occupied_slots (printStats_probes sd)
  /\ total_probes (printStats_probes sd) < 2 ^ 31
  /\ 0 <= max_probes (printStats_probes sd) <= total_probes (printStats_probes sd)
  /\ max_probes (printStats_probes sd) <= RWLOCK_HASH_TABLE_SIZE
  /\ (0 < rscNum sd -> 1 <= max_probes (printStats_probes sd)).
Proof.
  intros Hreach.
  pose proof (reachable_inv sd Hreach) as Hinv.
  pose proof (reachable_hash_cached sd Hreach) as Hcache.
  destruct (reachable_counts sd Hreach) as [Hc _].
  destruct (reachable_count_bounds sd Hreach) as [Hb _].
  assert (Hslot : forall i, In i indices ->
            is_state RWLOCK_OCCUPIED (entry_at sd i) = true ->
            1 <= probe_distance sd i <= 2048).
  { intros i Hi Ho. apply indices_spec in Hi.
    assert (Hocc : occupied_by sd (key (entry_at sd i)) i).
    { split; [exact Hi |]. unfold key_matches. rewrite Ho, Z.eqb_refl. reflexivity. }
    destruct (probe_distance_steps sd _ i Hinv Hcache Hocc) as [s [Hs [_ [_ Hd]]]].
    lia. }
  pose proof (stats_fold sd indices Hslot (mkStats 0 0 0) 0 eq_refl) as H.
  cbn [occupied_slots total_probes max_probes] in H. cbv zeta in H.
  rewrite (occupied_indices sd (inv_len sd Hinv)), <- Hc, Z.add_0_l in H.
  destruct H as [H1 [H2 [H3 [H4 H5]]]]; try lia.
  unfold printStats_probes, rscNum, RWLOCK_HASH_TABLE_SIZE in *.
  repeat split; lia.
Qed.

Lemma printStats_probes_bounds_witness :
  occupied_slots (printStats_probes one_key) = rscNum one_key
  /\ occupied_slots (printStats_probes one_key) <= total_probes (printStats_probes one_key)
     <= RWLOCK_HASH_TABLE_SIZE * occupied_slots (printStats_probes one_key)
  /\ total_probes (printStats_probes one_key) < 2 ^ 31
  /\ 0 <= max_probes (printStats_probes one_key) <= total_probes (printStats_probes one_key)
  /\ max_probes (printStats_probes one_key) <= RWLOCK_HASH_TABLE_SIZE
  /\ (0 < rscNum one_key -> 1 <= max_probes (printStats_probes one_key)).
Proof.
  apply (printStats_probes_bounds one_key).
  exists 0, [Add 1 ["a"%byte]]. reflexivity.
Defined.

(** ** Reuse of tombstones *)

Lemma rehashIfNeeded_idle (sd : RWLockOptimizedSharedData) :
  needRehash sd = false -> rehashIfNeeded sd = (OK, sd).
Proof. intros H. unfold rehashIfNeeded. rewrite H. reflexivity. Qed.

(* With a Tombstone on the chain before any Empty slot and the key absent,
   the slot chosen is a Tombstone. *)
Lemma scan_empty_tombstone (sd : RWLockOptimizedSharedData) (k i : Z) (l1 : list Z) :
  forall l2,
    Forall (fun p => 0 <= p) (l1 ++ i :: l2) ->
    (forall p, In p (l1 ++ i :: l2) -> key_matches k (entry_at sd p) = false) ->
    Forall (non_empty sd) l1 ->
    is_state RWLOCK_DELETED (entry_at sd i) = true ->
    is_state RWLOCK_DELETED (entry_at sd (scan_empty sd k (-1) (l1 ++ i :: l2))) = true.
Proof.
  assert (Hset : forall p ps,
             0 <= p -> (forall q, In q ps -> key_matches k (entry_at sd q) = false) ->
             scan_empty sd k p ps = p).
  { intros p ps Hp Hno. destruct (scan_empty_set sd k p ps) as [E | [_ [q [Hq1 Hq2]]]];
      [lia | exact E |]. rewrite (Hno q Hq1) in Hq2. discriminate Hq2. }
  induction l1 as [| p l1 IH]; intros l2 Hpos Hno Hne Hdel.
  - cbn [app scan_empty] in *. change (-1 =? -1) with true. cbn [negb].
    rewrite andb_true_r.
    destruct (state_cases (entry_at sd i)) as [C | [C | C]];
      destruct C as [CE [CO CD]]; try congruence.
    rewrite CE, CD, (Hno i (or_introl eq_refl)).
    rewrite Hset; [exact Hdel | apply (Forall_inv Hpos) |].
    intros q Hq. apply Hno. right. exact Hq.
  - cbn [app scan_empty] in *. change (-1 =? -1) with true. cbn [negb].
    rewrite andb_true_r.
    pose proof (Forall_inv Hne) as Hp. unfold non_empty in Hp. rewrite Hp.
    rewrite (Hno p (or_introl eq_refl)).
    destruct (is_state RWLOCK_DELETED (entry_at sd p)) eqn:CD.
    + rewrite Hset; [exact CD | apply (Forall_inv Hpos) |].
      intros q Hq. apply Hno. right. exact Hq.
    + apply IH; [apply (Forall_inv_tail Hpos) | | apply (Forall_inv_tail Hne) | exact Hdel].
      intros q Hq. apply Hno. right. exact Hq.
Qed.

Lemma remove_then_add (sd : RWLockOptimizedSharedData) (k : Z) (v : list byte) :
  table_inv sd -> counts_ok sd ->
  isContain sd k = true -> too_long v = false ->
  current_count sd + deleted_count sd <= RWLOCK_MAX_ENTRIES ->
  exists sd1,
    removeRsc sd k = (OK, sd1)
    /\ table_inv sd1 /\ counts_ok sd1
    /\ (forall k' w, holds sd1 k' w <-> k' <> k /\ holds sd k' w)
    /\ findEmptySlot sd1 k (hash sd1 k) <> -1
    /\ is_state RWLOCK_DELETED (entry_at sd1 (findEmptySlot sd1 k (hash sd1 k))) = true
    /\ addRsc sd1 k v
       = (OK, insert_at sd1 (findEmptySlot sd1 k (hash sd1 k)) k v (hash sd1 k))
    /\ current_count sd1 = current_count sd - 1
    /\ deleted_count sd1 = deleted_count sd + 1.
Proof.
  intros Hinv Hc Hcont Hl Hsum.
  pose proof (inv_len sd Hinv) as Hlen.
  destruct (removeRsc_spec sd k Hinv) as [Hinv1 [_ [_ Hno1]]].
  pose proof (removeRsc_counts sd k Hinv Hc) as Hc1.
  destruct (removeRsc_shape sd k) as [[Hf _] | [_ [Ho Hrm]]]; [congruence |].
  rewrite Hrm in Hinv1, Hc1, Hno1. cbn [snd] in Hinv1, Hc1, Hno1.
  set (i := findEntry sd k (hash sd k)) in *.
  set (sd1 := mkShared (current_count sd - 1) (deleted_count sd + 1) (hash_seed sd)
                (set_entry sd i (set_state RWLOCK_DELETED (entry_at sd i)))) in *.
  pose proof Ho as [Hi Hk].
  assert (Hat : forall p, in_table p ->
            entry_at sd1 p
            = if p =? i then set_state RWLOCK_DELETED (entry_at sd i) else entry_at sd p).
  { intros p Hp. apply (entry_at_set sd sd1 i p _ eq_refl Hlen Hi Hp). }
  assert (Hdel : is_state RWLOCK_DELETED (entry_at sd1 i) = true).
  { rewrite (Hat i Hi), Z.eqb_refl. reflexivity. }
  assert (Hch : chain_ok sd1 k i).
  { apply (chain_ok_mono sd sd1 k i eq_refl); [| apply (inv_chain sd Hinv k i Ho)].
    intros p Hp Hne. unfold non_empty in *. rewrite (Hat p Hp).
    destruct (p =? i); [reflexivity | exact Hne]. }
  assert (Hnokey : forall p, In p (probes (hash_seed sd1) k) ->
            key_matches k (entry_at sd1 p) = false).
  { intros p Hp. destruct (key_matches k (entry_at sd1 p)) eqn:E; [| reflexivity].
    exfalso. apply Hno1. exists p. split; [eapply probes_range, Hp | exact E]. }
  destruct Hch as [l1 [l2 [E Hne]]].
  assert (Hslot : is_state RWLOCK_DELETED
                    (entry_at sd1 (findEmptySlot sd1 k (hash sd1 k))) = true).
  { rewrite findEmptySlot_scan, E. apply scan_empty_tombstone; try assumption.
    - rewrite <- E. apply probes_nonneg.
    - rewrite <- E. exact Hnokey. }
  assert (Hfound : findEmptySlot sd1 k (hash sd1 k) <> -1).
  { intros Efull. destruct (findEmptySlot_full sd1 k Efull) as [Hocc | Hall];
      [exact (Hno1 Hocc) |].
    pose proof (Hall i Hi) as Hoi.
    destruct (state_cases (entry_at sd1 i)) as [C | [C | C]];
      destruct C as [CE [CO CD]]; congruence. }
  assert (Hidle : rehashIfNeeded sd1 = (OK, sd1)).
  { apply rehashIfNeeded_idle. unfold needRehash, sd1. cbn [current_count deleted_count].
    apply Z.ltb_ge. lia. }
  exists sd1. split; [exact Hrm |]. split; [exact Hinv1 |]. split; [exact Hc1 |].
  split; [intros k' w; apply (holds_tombstone sd k i _ _ k' w Hinv Ho) |].
  split; [exact Hfound |]. split; [exact Hslot |].
  split; [| split; reflexivity].
  unfold addRsc. rewrite Hl, Hidle. change (negb (OK =? OK)) with false. cbv iota.
  destruct (Z.eqb_spec (findEmptySlot sd1 k (hash sd1 k)) (-1)) as [E1 | _];
    [contradiction | reflexivity].
Qed.

(** X17.  Removing a present key and adding it again, while live + tomb
    <= RWLOCK_MAX_ENTRIES (no rehash falls due): both calls return OK, the add
    takes a Tombstone slot, so current_count and deleted_count are back at
    their values before the remove; the key then maps to the new value and
    every other key keeps its presence and value. *)
Theorem remove_add_reuses_tombstone (sd : RWLockOptimizedSharedData) (k : Z) (v : list byte) :
  reachable sd ->
  isContain sd k = true -> too_long v = false ->
  current_count sd + deleted_count sd <= RWLOCK_MAX_ENTRIES ->
  fst (removeRsc sd k) = OK
  /\ fst (addRsc (snd (removeRsc sd k)) k v) = OK
  /\ is_state RWLOCK_DELETED
       (entry_at (snd (removeRsc sd k))
          (findEmptySlot (snd (removeRsc sd k)) k (hash (snd (removeRsc sd k)) k))) = true
  /\ current_count (snd (addRsc (snd (removeRsc sd k)) k v)) = current_count sd
  /\ deleted_count (snd (addRsc (snd (removeRsc sd k)) k v)) = deleted_count sd
  /\ getRsc (snd (addRsc (snd (removeRsc sd k)) k v)) k = c_string v
  /\ isContain (snd (addRsc (snd (removeRsc sd k)) k v)) k = true
  /\ (forall k', k' <> k ->
        getRsc (snd (addRsc (snd (removeRsc sd k)) k v)) k' = getRsc sd k'
        /\ isContain (snd (addRsc (snd (removeRsc sd k)) k v)) k' = isContain sd k').
Proof.
  intros Hreach Hcont Hl Hsum.
  pose proof (reachable_inv sd Hreach) as Hinv.
  pose proof (reachable_counts sd Hreach) as Hc.
  destruct (remove_then_add sd k v Hinv Hc Hcont Hl Hsum)
    as [sd1 [Hrm [Hinv1 [Hc1 [Hh1 [Hfound [Hslot [Hadd [Hcur Hdc]]]]]]]]].
  rewrite Hrm. cbn [fst snd]. rewrite Hadd. cbn [fst snd].
  destruct (insert_at_spec sd1 k v Hinv1 Hfound) as [Hinv2 [_ [_ Hh2]]].
  cbv zeta in Hinv2, Hh2.
  split; [reflexivity |]. split; [reflexivity |]. split; [exact Hslot |].
  split; [unfold insert_at; cbn [current_count]; lia |].
  split; [unfold insert_at; cbn [deleted_count]; rewrite Hslot; lia |].
  assert (Hk : holds (insert_at sd1 (findEmptySlot sd1 k (hash sd1 k)) k v (hash sd1 k))
                 k (c_string v)).
  { apply Hh2. left. split; [reflexivity | apply c_string_store_value, Hl]. }
  split; [apply (holds_get _ k _ Hinv2 Hk) |].
  split; [apply (holds_get _ k _ Hinv2 Hk) |].
  intros k' Hk'. apply getRsc_same_key; try assumption.
  intros w. rewrite Hh2, Hh1. split.
  - intros [[Heq _] | [_ H]]; [contradiction | exact H].
  - intros H. right. split; assumption.
Qed.

Lemma remove_add_reuses_tombstone_witness :
  fst (removeRsc one_key 1) = OK
  /\ fst (addRsc (snd (removeRsc one_key 1)) 1 ["b"%byte]) = OK
  /\ is_state RWLOCK_DELETED
       (entry_at (snd (removeRsc one_key 1))
          (findEmptySlot (snd (removeRsc one_key 1)) 1
             (hash (snd (removeRsc one_key 1)) 1))) = true
  /\ current_count (snd (addRsc (snd (removeRsc one_key 1)) 1 ["b"%byte]))
     = current_count one_key
  /\ deleted_count (snd (addRsc (snd (removeRsc one_key 1)) 1 ["b"%byte]))
     = deleted_count one_key
  /\ getRsc (snd (addRsc (snd (removeRsc one_key 1)) 1 ["b"%byte])) 1 = c_string ["b"%byte]
  /\ isContain (snd (addRsc (snd (removeRsc one_key 1)) 1 ["b"%byte])) 1 = true
  /\ (forall k', k' <> 1 ->
        getRsc (snd (addRsc (snd (removeRsc one_key 1)) 1 ["b"%byte])) k' = getRsc one_key k'
        /\ isContain (snd (addRsc (snd (removeRsc one_key 1)) 1 ["b"%byte])) k'
           = isContain one_key k').
Proof.
  apply (remove_add_reuses_tombstone one_key 1 ["b"%byte]).
  - exists 0, [Add 1 ["a"%byte]]. reflexivity.
  - vm_compute. reflexivity.
  - reflexivity.
  - vm_compute. discriminate.
Defined.

(** ** batchUpdateRsc and upsertRsc in terms of the single operations *)

Lemma batch_step_update (sd : RWLockOptimizedSharedData) (c : Z) (pair : Z * list byte) :
  batch_step (sd, c) pair
  = (snd (updateRsc sd (fst pair) (snd pair)),
     c + (if fst (updateRsc sd (fst pair) (snd pair)) =? OK then 1 else 0)).
Proof.
  unfold batch_step, updateRsc. destruct (too_long (snd pair)).
  - cbn [fst snd]. change (NO_SPACE_ERR =? OK) with false. cbv iota.
    rewrite Z.add_0_r. reflexivity.
  - destruct (findEntry sd (fst pair) (hash sd (fst pair)) =? -1); cbn [negb fst snd].
    + change (NOT_FOUND =? OK) with false. cbv iota. rewrite Z.add_0_r. reflexivity.
    + reflexivity.
Qed.

Lemma batch_fold_updates (m : cxx_map) :
  forall sd c,
    fold_left batch_step m (sd, c)
    = (run sd (updates m), c + ok_count (run_codes sd (updates m))).
Proof.
  induction m as [| pair m IH]; intros sd c.
  - cbn. rewrite Z.add_0_r. reflexivity.
  - cbn [fold_left]. rewrite batch_step_update, IH.
    unfold run, updates, ok_count. cbn [map fold_left run_codes exec filter].
    f_equal.
    destruct (fst (updateRsc sd (fst pair) (snd pair)) =? OK); cbn [length]; lia.
Qed.

(** X18.  batchUpdateRsc leaves the segment that the calls updateRsc(k, v)
    for the entries of the map, in the map's order, leave, and returns the
    number of those calls that return OK. *)
Theorem batchUpdateRsc_as_updates (sd : RWLockOptimizedSharedData) (m : cxx_map) :
  batchUpdateRsc sd m = (ok_count (run_codes sd (updates m)), run sd (updates m)).
Proof.
  unfold batchUpdateRsc. rewrite batch_fold_updates. reflexivity.
Qed.

(** X19.  In a reachable state upsertRsc is updateRsc when the key is
    present and addRsc when it is absent: same return code and same
    resulting segment. *)
Theorem upsertRsc_as_update_or_add (sd : RWLockOptimizedSharedData) (k : Z) (v : list byte) :
  reachable sd ->
  upsertRsc sd k v = if isContain sd k then updateRsc sd k v else addRsc sd k v.
Proof.
  intros Hreach.
  pose proof (reachable_inv sd Hreach) as Hinv.
  pose proof (reachable_counts sd Hreach) as Hc.
  destruct (upsertRsc_shape sd k v Hinv)
    as [[Hl Hup] | [[Hl [Hcont [_ Hup]]] | [Hl [Hcont [sd1 [Hre Hcase]]]]]].
  - rewrite Hup. unfold updateRsc, addRsc. rewrite Hl. destruct (isContain sd k); reflexivity.
  - rewrite Hup, Hcont.
    destruct (updateRsc_shape sd k v) as [[Hl' _] | [[_ [Hc' _]] | [_ [_ [_ Hupd]]]]];
      [congruence | congruence | symmetry; exact Hupd].
  - rewrite Hcont.
    destruct (addRsc_shape sd k v Hinv) as [[Hl' _] | [_ [sd1' [Hre' Hadd]]]]; [congruence |].
    rewrite Hre in Hre'. inversion Hre'; subst sd1'. clear Hre'.
    destruct (rehashIfNeeded_spec sd Hinv) as [sd2 [Hre2 [Hinv1 [_ [_ [_ Hsame]]]]]].
    rewrite Hre in Hre2. inversion Hre2; subst sd2. clear Hre2.
    destruct (rehashIfNeeded_counts sd sd1 Hinv Hc Hre) as [[Hc1 _] _].
    destruct Hcase as [[E Hup] | [Hne Hup]];
      destruct Hadd as [[E' Hadd] | [Hne' Hadd]]; try contradiction.
    + rewrite Hup, Hadd.
      destruct (findEmptySlot_full sd1 k E) as [Hocc | Hall].
      * exfalso. apply (isContain_false sd k Hinv Hcont).
        apply key_occupied_holds in Hocc. destruct Hocc as [w Hw].
        apply key_occupied_holds. exists w. apply Hsame, Hw.
      * rewrite Hc1, (occ_count_full sd1 (inv_len sd1 Hinv1) Hall). reflexivity.
    + rewrite Hup, Hadd. reflexivity.
Qed.

Lemma upsertRsc_as_update_or_add_witness :
  upsertRsc one_key 2 ["b"%byte]
  = if isContain one_key 2 then updateRsc one_key 2 ["b"%byte]
    else addRsc one_key 2 ["b"%byte].
Proof.
  apply (upsertRsc_as_update_or_add one_key 2 ["b"%byte]).
  exists 0, [Add 1 ["a"%byte]]. reflexivity.
Defined.

(** ** The segment that the constructor creates *)

Lemma entry_at_init (seed p : Z) : entry_at (init seed) p = empty_entry.
Proof.
  unfold entry_at, init. cbn [hash_table].
  destruct (nth_in_or_default (Z.to_nat p) (repeat empty_entry 2048) empty_entry)
    as [Hin | E]; [apply repeat_spec in Hin; exact Hin | exact E].
Qed.

Lemma init_no_key (seed k : Z) : ~ key_occupied (init seed) k.
Proof. intros [i [_ Hi]]. rewrite entry_at_init in Hi. discriminate Hi. Qed.

Lemma probes_head (seed k : Z) :
  exists rest, probes seed k = hash_with seed k :: rest.
Proof.
  unfold probes. change (seq 0 2048) with (0%nat :: seq 1 2047).
  cbn [map probe_pos]. eexists. reflexivity.
Qed.

(** X20.  The segment that the creating constructor leaves, for every seed
    drawn: count() = 0, no key is present and every get is empty,
    batchGetRsc returns no entry, remove returns NOT_FOUND, update returns
    NOT_FOUND (NO_SPACE for a value of VALUE_CAP bytes or more), and the
    first add of a shorter value returns OK and stores the key in its home
    slot hash(key). *)
Theorem fresh_segment (seed k : Z) (v : list byte) :
  rscNum (init seed) = 0
  /\ isContain (init seed) k = false
  /\ getRsc (init seed) k = []
  /\ batchGetRsc (init seed) = (0, [])
  /\ removeRsc (init seed) k = (NOT_FOUND, init seed)
  /\ updateRsc (init seed) k v
     = ((if too_long v then NO_SPACE_ERR else NOT_FOUND), init seed)
  /\ (too_long v = false ->
      addRsc (init seed) k v
      = (OK, insert_at (init seed) (hash (init seed) k) k v (hash (init seed) k))).
Proof.
  pose proof (init_no_key seed k) as Hno.
  pose proof (isContain_absent _ _ Hno) as Hcont.
  split; [reflexivity |]. split; [exact Hcont |].
  split; [apply getRsc_absent, Hno |].
  split.
  { unfold batchGetRsc. rewrite snapshot_none; [reflexivity |].
    apply Forall_forall. intros e He. apply repeat_spec in He. subst e. reflexivity. }
  split.
  { destruct (removeRsc_shape (init seed) k) as [[_ H] | [H _]]; [exact H | congruence]. }
  split.
  { destruct (updateRsc_shape (init seed) k v)
      as [[Hl H] | [[Hl [_ H]] | [_ [H _]]]]; [| | congruence]; rewrite H, Hl; reflexivity. }
  intros Hl.
  assert (Hslot : findEmptySlot (init seed) k (hash (init seed) k) = hash (init seed) k).
  { rewrite findEmptySlot_scan. destruct (probes_head (hash_seed (init seed)) k) as [rest ->].
    cbn [scan_empty]. rewrite entry_at_init. reflexivity. }
  unfold addRsc. rewrite Hl, rehashIfNeeded_idle by reflexivity.
  change (negb (OK =? OK)) with false. cbv iota. rewrite Hslot.
  destruct (Z.eqb_spec (hash (init seed) k) (-1)) as [E | _]; [| reflexivity].
  pose proof (hash_with_range (hash_seed (init seed)) k) as Hr. unfold hash in E. lia.
Qed.

Lemma fresh_segment_witness :
  addRsc (init 0) 1 ["a"%byte]
  = (OK, insert_at (init 0) (hash (init 0) 1) 1 ["a"%byte] (hash (init 0) 1)).
Proof.
  destruct (fresh_segment 0 1 ["a"%byte]) as [_ [_ [_ [_ [_ [_ H]]]]]].
  apply H. reflexivity.
Defined.

(** ** Values read back *)

(** X21.  In a reachable state every value that get returns is shorter
    than VALUE_CAP, holds no NUL byte and is its own C string, so it passes
    the length check of add, update and upsert; the same holds for every
    value in the map that batchGetRsc returns. *)
Theorem values_read_back (sd : RWLockOptimizedSharedData) (k : Z) :
  reachable sd ->
  Z.of_nat (length (getRsc sd k)) < MAX_VALUE_LEN
  /\ ~ In x00 (getRsc sd k)
  /\ c_string (getRsc sd k) = getRsc sd k
  /\ too_long (getRsc sd k) = false
  /\ Forall (fun kv => Z.of_nat (length (snd kv)) < MAX_VALUE_LEN
                       /\ ~ In x00 (snd kv) /\ too_long (snd kv) = false)
       (snd (batchGetRsc sd)).
Proof.
  intros Hreach. pose proof (reachable_inv sd Hreach) as Hinv.
  assert (Hval : forall i, in_table i ->
            (length (c_string (value (entry_at sd i))) < 256)%nat).
  { intros i Hi. destruct (inv_nul sd Hinv i Hi) as [Hl Hn].
    apply c_string_length_nul in Hn. lia. }
  assert (Hget : (length (getRsc sd k) < 256)%nat
                 /\ ~ In x00 (getRsc sd k)
                 /\ c_string (getRsc sd k) = getRsc sd k).
  { unfold getRsc.
    destruct (Z.eqb_spec (findEntry sd k (hash sd k)) (-1)) as [E | Hne].
    - split; [cbn; lia |]. split; [intros [] | reflexivity].
    - destruct (findEntry_found sd k Hne) as [Hi _].
      split; [apply Hval, Hi |].
      split; [apply c_string_has_no_nul | apply c_string_idem]. }
  destruct Hget as [H1 [H2 H3]].
  split; [unfold MAX_VALUE_LEN; lia |]. split; [exact H2 |]. split; [exact H3 |].
  split; [apply too_long_short, H1 |].
  unfold batchGetRsc. cbn [snd]. apply Forall_forall. intros [k' w] Hin.
  apply (snapshot_in sd k' w Hinv) in Hin. destruct Hin as [i [[Hi _] <-]].
  cbn [snd]. pose proof (Hval i Hi) as Hlen.
  split; [unfold MAX_VALUE_LEN; lia |].
  split; [apply c_string_has_no_nul | apply too_long_short, Hlen].
Qed.

Lemma values_read_back_witness :
  Z.of_nat (length (getRsc one_key 1)) < MAX_VALUE_LEN
  /\ ~ In x00 (getRsc one_key 1)
  /\ c_string (getRsc one_key 1) = getRsc one_key 1
  /\ too_long (getRsc one_key 1) = false
  /\ Forall (fun kv => Z.of_nat (length (snd kv)) < MAX_VALUE_LEN
                       /\ ~ In x00 (snd kv) /\ too_long (snd kv) = false)
       (snd (batchGetRsc one_key)).
Proof.
  apply (values_read_back one_key 1).
  exists 0, [Add 1 ["a"%byte]]. reflexivity.
Defined.
